(** * The HDF5 reader of source/hdf5.js

    A shallow embedding of the reader and the properties of it that the
    specification states.  The JavaScript classes of [hdf5.js] are
    translated one by one: a class becomes a record, a constructor or a
    method a function, a thrown exception an explicit [Throw] outcome, and
    the cursor of the shared reader an explicit state.  Numbers are
    modelled by [Z] (every offset, size and index that occurs is an integer
    below 2^53), a number that can be [undefined] or [NaN] by [option Z],
    and a Uint8Array by a list of bytes.

    The first part holds the definitions, in the order of the source where
    possible; the second part holds the properties, numbered C1 to C10 as in
    the list of properties drawn from the specification. *)

From Stdlib Require Import ZArith List String Ascii Bool Lia.
From Stdlib.Strings Require Byte.
From stdpp Require Import base option list gmap strings.
Import ListNotations.
Local Open Scope Z_scope.
Set Warnings "-register-all".

(** ** Outcomes of JavaScript code *)

(** The exceptions the reader can raise.  [Hdf5Error] is [hdf5.Error], the
    class at the end of the file; [PlainError] is the builtin [Error];
    [TypeError] and [RangeError] are raised by the runtime itself.  Message
    templates are kept without their interpolated values. *)
Inductive exn : Type :=
| Hdf5Error (message : string)
| PlainError (message : string)
| TypeError (message : string)
| RangeError (message : string).

(** [OutOfFuel] is not a JavaScript outcome: it marks a run of a [while]
    loop that the fuel given to the model did not let finish. *)
Inductive result (A : Type) : Type :=
| Ok (a : A)
| Throw (e : exn)
| OutOfFuel.
Arguments Ok {A} a.
Arguments Throw {A} e.
Arguments OutOfFuel {A}.

Definition bind {A B} (m : result A) (k : A -> result B) : result B :=
  match m with
  | Ok a => k a
  | Throw e => Throw e
  | OutOfFuel => OutOfFuel
  end.

Declare Scope result_scope.
Delimit Scope result_scope with result.
Notation "'let!' x ':=' m 'in' k" := (bind m (fun x => k))
  (at level 10, x pattern, m at level 100, k at level 200) : result_scope.
Local Open Scope result_scope.

(** ** Bytes *)

(** An element of a Uint8Array.  [u8_val] is its value as a number and
    [u8_of] the conversion a store into a Uint8Array applies (modulo 256). *)
Abbreviation u8 := Byte.byte.

Definition u8_val (b : u8) : Z := Z.of_N (Byte.to_N b).

Definition u8_of (z : Z) : u8 :=
  match Byte.of_N (Z.to_N (z mod 256)) with
  | Some b => b
  | None => Byte.x00
  end.

Definition u8_zero : u8 := Byte.x00.

(** ** JavaScript values that flow through dynamically typed code *)

(** [JVarLen] is the object literal [{ length, globalHeapID }] built by
    [Datatype.read] for class 9; [JGlobalHeap] is the file's [hdf5.GlobalHeap]
    object.  An address is [None] when [reader.offset()] returned
    [undefined]. *)
Inductive jsval : Type :=
| JUndefined
| JNull
| JNaN
| JNum (z : Z)
| JBigInt (z : Z)
| JStr (s : string)
| JBytes (bytes : list u8)
| JArr (items : list jsval)
| JVarLen (length : Z) (address : option Z) (objectIndex : Z)
| JGlobalHeap.

(** [ToInt32] on the values above, as the bitwise operators apply it. *)
Definition wrap32 (z : Z) : Z := (z + 2^31) mod 2^32 - 2^31.

Definition ToInt32 (v : jsval) : Z :=
  match v with
  | JNum z => wrap32 z
  | _ => 0
  end.

(** [a & b] on numbers that are already 32-bit integers. *)
Definition js_land (a b : Z) : Z := Z.land a b.

(** [a && b] on numbers: [a] when [a] is falsy (zero), else [b]. *)
Definition js_logical_and (a b : Z) : Z := if a =? 0 then a else b.

(** ** hdf5.Datatype: the getters [type] and [littleEndian] *)

(** The fields the constructor assigns.  [_bitOffset] and [_bitPrecision]
    exist for class 0 only, [_base], [_names] and [_values] for class 8. *)
Inductive Datatype : Type := mkDatatype {
  _class : Z;
  _flags : Z;
  _size : Z;
  _bitOffset : option Z;
  _bitPrecision : option Z;
  _base : option Datatype;
  _names : list string;
  _values : list jsval
}.

Definition strict_eq_num (v : jsval) (z : Z) : bool :=
  match v with
  | JNum n => n =? z
  | _ => false
  end.

Definition unsupported_class : exn := Hdf5Error "Unsupported datatype class".

(** [get type()], lines 1037-1091. *)
Fixpoint Datatype_type (d : Datatype) : result string :=
  match _class d with
  | 0 =>
      if js_land (_flags d) 0xfff6 =? 0 then
        if js_logical_and (_flags d) 0x08 =? 0 then
          match _size d with
          | 1 => Ok "uint8"%string
          | 2 => Ok "uint16"%string
          | 4 => Ok "uint32"%string
          | 8 => Ok "uint64"%string
          | _ => Throw (Hdf5Error "Unsupported uint size")
          end
        else
          match _size d with
          | 1 => Ok "int8"%string
          | 2 => Ok "int16"%string
          | 4 => Ok "int32"%string
          | 8 => Ok "int64"%string
          | _ => Throw (Hdf5Error "Unsupported int size")
          end
      else Throw unsupported_class
  | 1 =>
      if (_size d =? 2) && (_flags d =? 0x0f20) then Ok "float16"%string
      else if (_size d =? 4) && (_flags d =? 0x1f20) then Ok "float32"%string
      else if (_size d =? 8) && (_flags d =? 0x3f20) then Ok "float64"%string
      else Throw unsupported_class
  | 3 => Ok "string"%string
  | 5 => Ok "uint8"%string
  | 6 => Ok "compound"%string
  | 8 =>
      match _base d with
      | None => Throw (TypeError "Cannot read properties of undefined (reading 'type')")
      | Some base =>
          let! t := Datatype_type base in
          match _names d, _values d with
          | [n0; n1], [v0; v1] =>
              if String.eqb t "int8" && String.eqb n0 "FALSE" && String.eqb n1 "TRUE"
                 && strict_eq_num v0 0 && strict_eq_num v1 1
              then Ok "boolean"%string
              else Throw unsupported_class
          | _, _ => Throw unsupported_class
          end
      end
  | 9 =>
      if js_land (_flags d) 0x0f =? 1 then Ok "char[]"%string
      else Throw unsupported_class
  | _ => Throw unsupported_class
  end.

(** Reading a property of a Datatype object by name.  The constructor
    creates the underscore fields and nothing else; any other name that is
    not a getter of the class yields [undefined]. *)
Definition Datatype_property (d : Datatype) (name : string) : jsval :=
  if String.eqb name "_class" then JNum (_class d)
  else if String.eqb name "_flags" then JNum (_flags d)
  else if String.eqb name "_size" then JNum (_size d)
  else JUndefined.

(** [get littleEndian()], lines 1093-1101: the expression read is
    [this.flags], without the underscore. *)
Definition Datatype_littleEndian (d : Datatype) : bool :=
  match _class d with
  | 0 | 1 => js_land (ToInt32 (Datatype_property d "flags")) 0x01 =? 0
  | _ => true
  end.

(** A class-0 datatype as the constructor leaves it for the given flags and
    size (bit offset 0, precision 8 * size). *)
Definition fixed_point (flags size : Z) : Datatype :=
  mkDatatype 0 flags size (Some 0) (Some (8 * size)) None [] [].

(** ** hdf5.BinaryReader *)

(** A JavaScript number that may be [undefined] or [NaN]: both behave alike
    where the reader uses them (sums are [NaN], comparisons are false, a
    DataView index is 0), so one [None] stands for either. *)
Definition jsn : Type := option Z.

Definition jadd (a b : jsn) : jsn :=
  match a, b with
  | Some x, Some y => Some (x + y)
  | _, _ => None
  end.

(** [a > b], [a >= b] and [a < b]: false as soon as one side is [NaN]. *)
Definition jgt (a b : jsn) : bool :=
  match a, b with Some x, Some y => y <? x | _, _ => false end.
Definition jge (a b : jsn) : bool :=
  match a, b with Some x, Some y => y <=? x | _, _ => false end.
Definition jlt (a b : jsn) : bool :=
  match a, b with Some x, Some y => x <? y | _, _ => false end.

(** The state of a reader, for the class hdf5.BinaryReader that
    [Reader.open] returns for a Uint8Array (hdf5.StreamReader has the same
    [seek], [skip], [align] and [position]).  [_buffer] is the Uint8Array,
    which the DataView [_view] shares, and [_length] its length;
    [_offsetSize] and [_lengthSize] are [undefined] until [initialize()]. *)
Record Reader : Type := mkReader {
  _buffer : list u8;
  _offset : jsn;
  _position : Z;
  _offsetSize : option Z;
  _lengthSize : option Z
}.

Definition _length (r : Reader) : Z := Z.of_nat (length (_buffer r)).

(** Code that reads: the cursor is threaded, exceptions abort. *)
Definition R (A : Type) : Type := Reader -> result (A * Reader).

Definition ret {A} (a : A) : R A := fun r => Ok (a, r).
Definition raise {A} (e : exn) : R A := fun _ => Throw e.
Definition bindR {A B} (m : R A) (k : A -> R B) : R B :=
  fun r => match m r with
           | Ok (a, r') => k a r'
           | Throw e => Throw e
           | OutOfFuel => OutOfFuel
           end.

Declare Scope reader_scope.
Delimit Scope reader_scope with reader.
Notation "x <- m ;; k" := (bindR m (fun x => k))
  (at level 100, m at next level, right associativity) : reader_scope.
Notation "m ;;; k" := (bindR m (fun _ => k))
  (at level 100, right associativity) : reader_scope.
Local Open Scope reader_scope.

Definition eof_message : string := "Unexpected end of file.".

(** [new hdf5.BinaryReader(buffer)], as [Reader.open] builds it. *)
Definition BinaryReader_new (buffer : list u8) : Reader :=
  mkReader buffer (Some 0) 0 None None.

(** [get position()]. *)
Definition position (r : Reader) : jsn := jadd (Some (_position r)) (_offset r).
Definition get_position : R jsn := fun r => Ok (position r, r).

(** [skip(offset)]. *)
Definition skip (offset : Z) : R unit := fun r =>
  let r' := mkReader (_buffer r) (_offset r) (_position r + offset)
                     (_offsetSize r) (_lengthSize r) in
  if jgt (jadd (_offset r') (Some (_position r'))) (Some (_length r'))
  then Throw (Hdf5Error eof_message)
  else Ok (tt, r').

(** [seek(position)]. *)
Definition seek (pos : jsn) : R unit := fun r =>
  let r' := mkReader (_buffer r) pos 0 (_offsetSize r) (_lengthSize r) in
  if jgt (_offset r') (Some (_length r'))
  then Throw (PlainError eof_message)
  else Ok (tt, r').

(** [take(offset)]. *)
Definition take (offset : Z) : R jsn :=
  pos <- (fun r => Ok (jadd (_offset r) (Some (_position r)), r)) ;;
  skip offset ;;;
  ret pos.

(** [align(mod)]. *)
Definition align (m : Z) : R unit := fun r =>
  if negb (Z.rem (_position r) m =? 0)
  then Ok (tt, mkReader (_buffer r) (_offset r) ((_position r / m + 1) * m)
                        (_offsetSize r) (_lengthSize r))
  else Ok (tt, r).

(** Little-endian value of a byte list. *)
Fixpoint le_value (bytes : list u8) : Z :=
  match bytes with
  | [] => 0
  | b :: rest => u8_val b + 256 * le_value rest
  end.

(** [this._view.getUintN(position, true)] for N = 8 * size: the index goes
    through [ToIndex] ([NaN] becomes 0) and a read outside the view raises a
    RangeError. *)
Definition view_get (size : nat) (pos : jsn) : R Z := fun r =>
  let index := match pos with Some i => i | None => 0 end in
  if (index <? 0) || (_length r <? index + Z.of_nat size)
  then Throw (RangeError "Offset is outside the bounds of the DataView")
  else Ok (le_value (firstn size (skipn (Z.to_nat index) (_buffer r))), r).

Definition byte : R Z := pos <- take 1 ;; view_get 1 pos.
Definition uint16 : R Z := pos <- take 2 ;; view_get 2 pos.
Definition uint32 : R Z := pos <- take 4 ;; view_get 4 pos.
Definition uint64 : R Z := pos <- take 8 ;; view_get 8 pos.

Definition MAX_SAFE_INTEGER : Z := 2^53 - 1.
Definition safe_integer_message : string := "64-bit value exceeds safe integer.".

(** [BigInt.prototype.toNumber] is not defined in hdf5.js; the application
    installs it.  It is taken to convert a value in the safe range and to
    raise otherwise, as the inline checks of [offset()] do. *)
Definition toNumber (v : Z) : R Z :=
  if MAX_SAFE_INTEGER <? v then raise (PlainError safe_integer_message) else ret v.

(** [uint(size)]. *)
Definition uint (size : Z) : R Z :=
  match size with
  | 0 => byte
  | 1 => uint16
  | 2 => uint32
  | 3 => v <- uint64 ;; toNumber v
  | _ => raise (Hdf5Error "Unsupported uint size")
  end.

(** The body shared by [offset()] and [length()], for a width [w]. *)
Definition sized (w : option Z) (unsupported : string) : R jsn :=
  match w with
  | Some 8 =>
      pos <- take 8 ;;
      value <- view_get 8 pos ;;
      if value =? 0xffffffffffffffff then ret (Some (-1))
      else if MAX_SAFE_INTEGER <=? value then raise (PlainError safe_integer_message)
      else ret (Some value)
  | Some 4 =>
      value <- uint32 ;;
      if value =? 0xffffffff then ret None else ret (Some value)
  | _ => raise (Hdf5Error unsupported)
  end.

Definition offset : R jsn := fun r => sized (_offsetSize r) "Unsupported offset size" r.
Definition length_ : R jsn := fun r => sized (_lengthSize r) "Unsupported length size" r.

(** [initialize()]. *)
Definition initialize : R unit :=
  o <- byte ;;
  (fun r => Ok (tt, mkReader (_buffer r) (_offset r) (_position r) (Some o) (_lengthSize r))) ;;;
  l <- byte ;;
  (fun r => Ok (tt, mkReader (_buffer r) (_offset r) (_position r) (_offsetSize r) (Some l))).

(** The loop of [match(signature)] over the character codes. *)
Fixpoint match_loop (start : jsn) (codes : list Z) : R bool :=
  match codes with
  | [] => ret true
  | c :: rest =>
      b <- byte ;;
      if negb (c =? b) then seek start ;;; ret false
      else match_loop start rest
  end.

Definition char_codes (s : string) : list Z :=
  map (fun a => Z.of_nat (nat_of_ascii a)) (list_ascii_of_string s).

(** [match(signature)] and [expect(signature)]. *)
Definition match_ (signature : string) : R bool :=
  start <- get_position ;;
  match_loop start (char_codes signature).

Definition expect (signature : string) : R unit :=
  ok <- match_ signature ;;
  if ok then ret tt else raise (Hdf5Error "Invalid block signature.").

(** ** hdf5.SymbolTableEntry *)

(** [treeAddress] and [heapAddress] exist for cache type 1 only; a missing
    property reads as [undefined], which is [None] as well. *)
Record SymbolTableEntry : Type := mkSymbolTableEntry {
  linkNameOffset : jsn;
  objectHeaderAddress : jsn;
  treeAddress : jsn;
  heapAddress : jsn
}.

Definition SymbolTableEntry_new : R SymbolTableEntry :=
  name <- offset ;;
  header <- offset ;;
  cacheType <- uint32 ;;
  skip 4 ;;;
  cached <- match cacheType with
            | 0 => ret (None, None)
            | 1 =>
                pos <- get_position ;;
                tree <- offset ;;
                heap <- offset ;;
                seek pos ;;;
                ret (tree, heap)
            | _ => raise (Hdf5Error "Unsupported cache type")
            end ;;
  skip 16 ;;;
  ret (mkSymbolTableEntry name header (fst cached) (snd cached)).

(** ** hdf5.DataObjectHeader and its message dispatcher *)

(** The message classes whose constructors [_readMessage] calls.  The
    continuation message is not listed: its constructor is modelled below,
    because the header walk depends on what it reads. *)
Inductive message_class : Type :=
| MDataspace | MLinkInfo | MDatatype | MFillValue (type : Z) | MLink
| MDataLayout | MGroupInfo | MFilterPipeline | MAttribute | MComment
| MSymbolTable | MObjectModificationTime (type : Z) | MAttributeInfo.

Record ObjectHeaderContinuation : Type := mkContinuation {
  continuation_offset : jsn;
  continuation_length : jsn
}.

Definition ObjectHeaderContinuation_new : R ObjectHeaderContinuation :=
  o <- offset ;;
  l <- length_ ;;
  ret (mkContinuation o l).

Definition out_of_fuel {A} : R A := fun _ => OutOfFuel.

Section ObjectHeader.

(** What a message constructor builds, and the constructors themselves:
    any code that reads from the reader, moves its cursor and either
    returns an object or throws. *)
Variable Payload : Type.
Variable construct : message_class -> R Payload.

(** [attributes], [links] and [continuations] are the three arrays; the
    other messages are assigned to properties of the header, kept by
    property name ([None] is the [null] of a placeholder dataspace). *)
Record DataObjectHeader : Type := mkHeader {
  attributes : list Payload;
  links : list Payload;
  continuations : list ObjectHeaderContinuation;
  properties : gmap string (option Payload)
}.

Definition assign (h : DataObjectHeader) (name : string) (v : option Payload)
  : DataObjectHeader :=
  mkHeader (attributes h) (links h) (continuations h) (<[name := v]> (properties h)).

Definition stored (h : DataObjectHeader) (name : string) (m : message_class)
  : R (option DataObjectHeader) :=
  p <- construct m ;; ret (Some (assign h name (Some p))).

(** The [switch] of [_readMessage]: [None] is the [return false] of NIL,
    [Some h] a [break] with the header updated. *)
Definition dispatch (h : DataObjectHeader) (type size flags : Z)
  : R (option DataObjectHeader) :=
  match type with
  | 0x0000 => ret None
  | 0x0001 =>
      if negb (size =? 4) || negb (flags =? 1)
      then stored h "dataspace" MDataspace
      else ret (Some (assign h "dataspace" None))
  | 0x0002 => stored h "linkInfo" MLinkInfo
  | 0x0003 => stored h "datatype" MDatatype
  | 0x0004 | 0x0005 => stored h "fillValue" (MFillValue type)
  | 0x0006 =>
      p <- construct MLink ;;
      ret (Some (mkHeader (attributes h) (links h ++ [p]) (continuations h) (properties h)))
  | 0x0008 => stored h "dataLayout" MDataLayout
  | 0x000A => stored h "groupInfo" MGroupInfo
  | 0x000B => stored h "filterPipeline" MFilterPipeline
  | 0x000C =>
      p <- construct MAttribute ;;
      ret (Some (mkHeader (attributes h ++ [p]) (links h) (continuations h) (properties h)))
  | 0x000D => stored h "comment" MComment
  | 0x0010 =>
      c <- ObjectHeaderContinuation_new ;;
      ret (Some (mkHeader (attributes h) (links h) (continuations h ++ [c]) (properties h)))
  | 0x0011 => stored h "symbolTable" MSymbolTable
  | 0x000E | 0x0012 => stored h "objectModificationTime" (MObjectModificationTime type)
  | 0x0015 => stored h "attributeInfo" MAttributeInfo
  | _ => raise (Hdf5Error "Unsupported message type")
  end.

(** [_readMessage(reader, type, size, flags)], lines 807-862. *)
Definition _readMessage (h : DataObjectHeader) (type size flags : Z)
  : R (bool * DataObjectHeader) :=
  pos <- get_position ;;
  outcome <- dispatch h type size flags ;;
  match outcome with
  | None => ret (false, h)
  | Some h' =>
      seek pos ;;;
      skip size ;;;
      ret (true, h')
  end.

(** The [if] that closes an iteration of the version-1 loop. *)
Definition next_chunk_v1 (h : DataObjectHeader) (next : bool) (end_ : jsn)
  : R (DataObjectHeader * jsn) :=
  pos <- get_position ;;
  match continuations h with
  | c :: rest =>
      if negb next || jge pos end_ then
        seek (continuation_offset c) ;;;
        ret (mkHeader (attributes h) (links h) rest (properties h),
             jadd (continuation_offset c) (continuation_length c))
      else align 8 ;;; ret (h, end_)
  | [] => align 8 ;;; ret (h, end_)
  end.

(** The [for] loop over the [count] messages of a version-1 header. *)
Fixpoint messages_v1 (count : nat) (h : DataObjectHeader) (end_ : jsn)
  : R DataObjectHeader :=
  match count with
  | O => ret h
  | S count' =>
      type <- uint16 ;;
      size <- uint16 ;;
      flags <- byte ;;
      skip 3 ;;;
      align 8 ;;;
      res <- _readMessage h type size flags ;;
      st <- next_chunk_v1 (snd res) (fst res) end_ ;;
      messages_v1 count' (fst st) (snd st)
  end.

(** The [while] loop of a version-2 header.  A continuation can point back
    into a chunk already read, so the loop need not end: it runs on fuel. *)
Fixpoint messages_v2 (fuel : nat) (order : bool) (h : DataObjectHeader)
         (next : bool) (end_ : jsn) : R DataObjectHeader :=
  match fuel with
  | O => out_of_fuel
  | S fuel' =>
      pos <- get_position ;;
      if next && jlt pos end_ then
        type <- byte ;;
        size <- uint16 ;;
        flags <- byte ;;
        pos1 <- get_position ;;
        res <- (if jlt pos1 end_ then
                  (if order then uint16 else ret 0) ;;;
                  _readMessage h type size flags
                else ret (next, h)) ;;
        pos2 <- get_position ;;
        match continuations (snd res) with
        | c :: rest =>
            if negb (fst res) || jge pos2 end_ then
              seek (continuation_offset c) ;;;
              expect "OCHK" ;;;
              messages_v2 fuel' order
                (mkHeader (attributes (snd res)) (links (snd res)) rest (properties (snd res)))
                true (jadd (continuation_offset c) (continuation_length c))
            else messages_v2 fuel' order (snd res) (fst res) end_
        | [] => messages_v2 fuel' order (snd res) (fst res) end_
        end
      else ret h
  end.

Definition when (b : bool) (m : R unit) : R unit := if b then m else ret tt.

(** [new hdf5.DataObjectHeader(reader, offset)], lines 730-805. *)
Definition DataObjectHeader_new (fuel : nat) (address : jsn) : R DataObjectHeader :=
  saved <- get_position ;;
  seek address ;;;
  match_ "OHDR" ;;;
  version <- byte ;;
  h <- match version with
       | 1 =>
           skip 1 ;;;
           count <- uint16 ;;
           uint32 ;;;
           objectHeaderSize <- uint32 ;;
           align 8 ;;;
           pos <- get_position ;;
           messages_v1 (Z.to_nat count) (mkHeader [] [] [] ∅)
                       (jadd pos (Some objectHeaderSize))
       | 2 =>
           flags <- byte ;;
           when (negb (js_land flags 0x20 =? 0))
                (uint32 ;;; uint32 ;;; uint32 ;;; uint32 ;;; ret tt) ;;;
           when (negb (js_land flags 0x10 =? 0))
                (uint16 ;;; uint16 ;;; ret tt) ;;;
           size <- uint (js_land flags 0x03) ;;
           pos <- get_position ;;
           messages_v2 fuel (negb (js_land flags 0x04 =? 0)) (mkHeader [] [] [] ∅)
                       true (jadd pos (Some size))
       | _ => raise (Hdf5Error "Unsupported data object header version")
       end ;;
  seek saved ;;;
  ret h.

(** ** hdf5.Group: construction and paths *)

Record Group : Type := mkGroup {
  _entry : option SymbolTableEntry;
  _dataObjectHeader : option DataObjectHeader;
  _name : string;
  _path : string
}.

(** The constructor, lines 83-90. *)
Definition Group_new (entry : option SymbolTableEntry)
           (objectHeader : option DataObjectHeader)
           (parentPath name : string) : Group :=
  mkGroup entry objectHeader name
          (if String.eqb parentPath "/" then (parentPath ++ name)%string
           else (parentPath ++ "/" ++ name)%string).

(** ** hdf5.File *)

Record File : Type := mkFile {
  _freeSpaceStorageVersion : option Z;
  _rootGroupEntryVersion : option Z;
  _sharedHeaderMessageVersionFormat : option Z;
  _groupLeafNodeK : option Z;
  _groupInternalNodeK : option Z;
  _indexedStorageInternalNodeK : option Z;
  _baseAddress : jsn;
  _superBlockExtensionAddress : jsn;
  _endOfFileAddress : jsn;
  _rootGroup : Group
}.

Definition signature : list Z := [0x89; 0x48; 0x44; 0x46; 0x0D; 0x0A; 0x1A; 0x0A].

(** [File.open(data)] on a Uint8Array: the file object, or [null]. *)
Definition File_open (data : list u8) : option (list u8) :=
  if (8 <=? Z.of_nat (length data))
     && bool_decide (map u8_val (firstn 8 data) = signature)
  then Some data else None.

(** [this.skip(2)] inside [File.read]: [this] is the File, whose class
    defines [open] and [read] only. *)
Definition File_skip (n : Z) : R unit :=
  raise (TypeError "this.skip is not a function").

(** The body of [read()] for a file that has not been read yet, lines
    28-77, run on the reader that [Reader.open] returns. *)
Definition File_read_body (fuel : nat) : R File :=
  skip 8 ;;;
  version <- byte ;;
  match version with
  | 0 | 1 =>
      freeSpace <- byte ;;
      rootVersion <- byte ;;
      skip 1 ;;;
      shared <- byte ;;
      initialize ;;;
      skip 1 ;;;
      leafK <- uint16 ;;
      internalK <- uint16 ;;
      skip 4 ;;;
      indexedK <- (if 0 <? version then
                     k <- uint16 ;;
                     File_skip 2 ;;;
                     ret (Some k)
                   else ret None) ;;
      baseAddress <- offset ;;
      offset ;;;
      endOfFileAddress <- offset ;;
      offset ;;;
      if negb (bool_decide (baseAddress = Some 0))
      then raise (Hdf5Error "Base address is not zero.")
      else
        rootGroupEntry <- SymbolTableEntry_new ;;
        ret (mkFile (Some freeSpace) (Some rootVersion) (Some shared) (Some leafK)
                    (Some internalK) indexedK baseAddress None endOfFileAddress
                    (Group_new (Some rootGroupEntry) None "" ""))
  | 2 | 3 =>
      initialize ;;;
      byte ;;;
      baseAddress <- offset ;;
      extension <- offset ;;
      endOfFileAddress <- offset ;;
      address <- offset ;;
      rootGroupObjectHeader <- DataObjectHeader_new fuel address ;;
      ret (mkFile None None None None None None baseAddress extension endOfFileAddress
                  (Group_new None (Some rootGroupObjectHeader) "" ""))
  | _ => raise (Hdf5Error "Unsupported Superblock version")
  end.

(** [read()] on a file opened from the Uint8Array [data]. *)
Definition File_read (fuel : nat) (data : list u8) : result File :=
  match File_read_body fuel (BinaryReader_new data) with
  | Ok (f, _) => Ok f
  | Throw e => Throw e
  | OutOfFuel => OutOfFuel
  end.

End ObjectHeader.

(** ** hdf5.Group: the child table and [group(path)] *)

(** JavaScript truthiness of a number that may be [undefined]. *)
Definition truthy (n : jsn) : bool :=
  match n with
  | Some z => negb (z =? 0)
  | None => false
  end.

(** [path.indexOf('/')], with [None] for -1. *)
Definition indexOf_slash (path : string) : option nat := String.index 0 "/" path.

(** [path.substring(0, index)] and [path.substring(index + 1)]. *)
Definition substring_to (index : nat) (path : string) : string :=
  String.substring 0 index path.
Definition substring_from (start : nat) (path : string) : string :=
  String.substring start (String.length path - start) path.

Section Groups.

Variable Payload : Type.

(** What [_decodeGroups] finds in the file for a group, in the order in
    which it calls [this._groups.set]: for a symbol-table entry, the link
    names and entries of the symbol-table nodes of its B-tree; for an
    object header, the names and headers of its hard links (after
    [_decodeDataObject]).  Either walk can throw. *)
Variable symbol_table_children :
  SymbolTableEntry -> result (list (string * SymbolTableEntry)).
Variable link_children :
  DataObjectHeader Payload -> result (list (string * DataObjectHeader Payload)).

(** [_decodeGroups()], lines 155-182: the Map it leaves in [_groups]. *)
Definition _decodeGroups (g : Group Payload) : result (gmap string (Group Payload)) :=
  match _entry _ g with
  | Some entry =>
      if truthy (treeAddress entry) || truthy (heapAddress entry) then
        let! children := symbol_table_children entry in
        Ok (foldl (fun groups child =>
                     <[fst child := Group_new _ (Some (snd child)) None (_path _ g) (fst child)]> groups)
                  ∅ children)
      else Ok ∅
  | None =>
      match _dataObjectHeader _ g with
      | Some header =>
          let! children := link_children header in
          Ok (foldl (fun groups child =>
                       <[fst child := Group_new _ None (Some (snd child)) (_path _ g) (fst child)]> groups)
                    ∅ children)
      | None => Throw (TypeError "Cannot read properties of null (reading 'objectHeaderAddress')")
      end
  end.

(** [group(path)], lines 100-113; [None] is [null].  Each recursive call
    is on a strictly shorter path, which is what the fuel counts. *)
Fixpoint group_fuel (fuel : nat) (g : Group Payload) (path : string)
  : result (option (Group Payload)) :=
  match fuel with
  | O => OutOfFuel
  | S fuel' =>
      let! groups := _decodeGroups g in
      match groups !! path with
      | Some child => Ok (Some child)
      | None =>
          match indexOf_slash path with
          | Some index =>
              let! head := group_fuel fuel' g (substring_to index path) in
              match head with
              | Some child => group_fuel fuel' child (substring_from (S index) path)
              | None => Ok None
              end
          | None => Ok None
          end
      end
  end.

Definition Group_group (g : Group Payload) (path : string)
  : result (option (Group Payload)) :=
  group_fuel (S (String.length path)) g path.

End Groups.

(** ** Dynamically typed operations used by [Dataspace._decodeArray] *)

Definition undefined_property : exn := TypeError "Cannot read properties of undefined".

(** [obj[index]].  The index is a number or [undefined] in every call. *)
Definition js_index (obj index : jsval) : result jsval :=
  match obj with
  | JUndefined | JNull => Throw undefined_property
  | JArr items =>
      match index with
      | JNum i => Ok (if i <? 0 then JUndefined else default JUndefined (items !! Z.to_nat i))
      | _ => Ok JUndefined
      end
  | JBytes bytes =>
      match index with
      | JNum i => Ok (if i <? 0 then JUndefined
                      else from_option (fun b => JNum (u8_val b)) JUndefined (bytes !! Z.to_nat i))
      | _ => Ok JUndefined
      end
  | JStr s =>
      match index with
      | JNum i => Ok (if i <? 0 then JUndefined
                      else from_option (fun c => JStr (String c EmptyString)) JUndefined
                                       (String.get (Z.to_nat i) s))
      | _ => Ok JUndefined
      end
  | _ => Ok JUndefined
  end.

(** [obj.length]. *)
Definition js_length (obj : jsval) : result jsval :=
  match obj with
  | JUndefined | JNull => Throw undefined_property
  | JArr items => Ok (JNum (Z.of_nat (length items)))
  | JBytes bytes => Ok (JNum (Z.of_nat (length bytes)))
  | JStr s => Ok (JNum (Z.of_nat (String.length s)))
  | JVarLen len _ _ => Ok (JNum len)
  | _ => Ok JUndefined
  end.

(** [v + k] for a number or [undefined] (the only operands that occur). *)
Definition js_plus (v : jsval) (k : Z) : jsval :=
  match v with
  | JNum z => JNum (z + k)
  | _ => JNaN
  end.

(** [a === b] where [b] is a number or [NaN]. *)
Definition js_strict_eq (a b : jsval) : bool :=
  match a, b with
  | JNum x, JNum y => x =? y
  | _, _ => false
  end.

(** How often [for (let i = 0; i < size; i++)] runs. *)
Definition loop_count (size : jsval) : nat :=
  match size with
  | JNum n | JBigInt n => Z.to_nat n
  | _ => 0%nat
  end.

(** [obj[i] = v], returning the object after the store.  An array grows
    when [i] is past its end; a typed array ignores such a store; a store
    into a primitive throws (the module is strict code); a store into one of
    the two plain objects adds a property that no code reads. *)
Definition js_store (obj : jsval) (i : nat) (v : jsval) : result jsval :=
  match obj with
  | JArr items =>
      Ok (JArr (if bool_decide (i < length items)%nat then <[i := v]> items
                else items ++ replicate (i - length items) JUndefined ++ [v]))
  | JBytes bytes =>
      Ok (JBytes (<[i := u8_of (match v with JNum z => z | _ => 0 end)]> bytes))
  | JVarLen _ _ _ | JGlobalHeap => Ok obj
  | JUndefined | JNull => Throw (TypeError "Cannot set properties of undefined")
  | _ => Throw (TypeError "Cannot create property on a primitive value")
  end.

(** ** hdf5.Dataspace: [decode] *)

Record Dataspace : Type := mkDataspace {
  _dimensions : Z;
  _sizes : list jsn
}.

Definition jsval_of_jsn (n : jsn) : jsval :=
  match n with
  | Some z => JNum z
  | None => JUndefined
  end.

Section Decode.

(** The global heap of the file: [GlobalHeap.get] for the address and
    index of a [GlobalHeapID] yields an object, [null], or throws while
    loading the collection; [heap_object_string] is
    [reader.string(reader.length(), encoding)] on the object's reader. *)
Variable HeapObject : Type.
Variable GlobalHeap_get : jsn -> Z -> result (option HeapObject).
Variable heap_object_string : HeapObject -> string -> result string.

(** [Datatype.decode(data, globalHeap)], lines 1148-1180. *)
Definition Datatype_decode (datatype : Datatype) (data globalHeap : jsval)
  : result jsval :=
  match _class datatype with
  | 0 | 1 | 3 | 5 | 8 => Ok data
  | 9 =>
      match globalHeap, data with
      | (JUndefined | JNull), _ => Throw undefined_property
      | _, (JUndefined | JNull) => Throw undefined_property
      | JGlobalHeap, JVarLen _ address objectIndex =>
          let! globalHeapObject := GlobalHeap_get address objectIndex in
          match globalHeapObject with
          | Some object =>
              match js_land (Z.shiftr (_flags datatype) 8) 0x0f with
              | 0 => let! s := heap_object_string object "ascii" in Ok (JStr s)
              | 1 => let! s := heap_object_string object "utf-8" in Ok (JStr s)
              | _ => Throw (Hdf5Error "Unsupported character encoding.")
              end
          | None => Ok JNull
          end
      | JGlobalHeap, _ => Throw undefined_property
      | _, _ => Throw (TypeError "globalHeap.get is not a function")
      end
  | _ => Throw unsupported_class
  end.

(** The first loop of [_decodeArray]:
    [data[i] = datatype.decode(data[i], globalHeap)] for [i] from [i] on,
    [count] times. *)
Fixpoint decode_leaves (count : nat) (datatype : Datatype)
         (data globalHeap : jsval) (i : nat) : result jsval :=
  match count with
  | O => Ok data
  | S count' =>
      let! item := js_index data (JNum (Z.of_nat i)) in
      let! decoded := Datatype_decode datatype item globalHeap in
      let! data' := js_store data i decoded in
      decode_leaves count' datatype data' globalHeap (S i)
  end.

(** The second loop of [_decodeArray], given the function [recurse] that
    the recursive call runs on [data[j]]. *)
Fixpoint decode_rows (count : nat) (recurse : jsval -> result jsval)
         (data : jsval) (j : nat) : result jsval :=
  match count with
  | O => Ok data
  | S count' =>
      let! item := js_index data (JNum (Z.of_nat j)) in
      let! decoded := recurse item in
      let! data' := js_store data j decoded in
      decode_rows count' recurse data' (S j)
  end.

(** [_decodeArray(datatype, data, globalHeap, shape, dimension)], lines
    954-966.  The recursive call passes four arguments,
    [(datatype, data[j], shape, dimension + 1)]: in the callee
    [globalHeap] is the caller's [shape], [shape] is the caller's
    [dimension + 1] and [dimension] is [undefined]. *)
Fixpoint _decodeArray (fuel : nat) (datatype : Datatype)
         (data globalHeap shape dimension : jsval) : result jsval :=
  match fuel with
  | O => OutOfFuel
  | S fuel' =>
      let! size := js_index shape dimension in
      let! len := js_length shape in
      if js_strict_eq dimension (js_plus len (-1)) then
        decode_leaves (loop_count size) datatype data globalHeap 0
      else
        decode_rows (loop_count size)
          (fun item => _decodeArray fuel' datatype item shape (js_plus dimension 1) JUndefined)
          data 0
  end.

(** [Dataspace.decode(datatype, data, globalHeap)], lines 947-952.  The
    recursion cannot be deeper than the data is nested; [fuel] bounds it. *)
Definition Dataspace_decode (fuel : nat) (dataspace : Dataspace) (datatype : Datatype)
           (data globalHeap : jsval) : result jsval :=
  if _dimensions dataspace =? 0 then Datatype_decode datatype data globalHeap
  else _decodeArray fuel datatype data globalHeap
                    (JArr (map jsval_of_jsn (_sizes dataspace))) (JNum 0).

(** The last statement of [get value()] of hdf5.Variable, line 213:
    [this._dataspace.decode(this._datatype, array, array, this._globalHeap)].
    [decode] has three parameters, so its [globalHeap] is the second
    [array] and the fourth argument is dropped. *)
Definition Variable_value_decode (fuel : nat) (dataspace : Dataspace)
           (datatype : Datatype) (array : jsval) : result jsval :=
  Dataspace_decode fuel dataspace datatype array array.

(** What the specification asks of [decode]: every leaf of an array of
    the given shape, at any depth, replaced by [Datatype.decode] with the
    global heap. *)
Fixpoint decode_every_leaf (shape : list nat) (datatype : Datatype) (data : jsval)
  : result jsval :=
  match shape with
  | [] => Datatype_decode datatype data JGlobalHeap
  | _ :: inner =>
      match data with
      | JArr items =>
          let! items' := foldr (fun item acc =>
                                  let! rest := acc in
                                  let! item' := decode_every_leaf inner datatype item in
                                  Ok (item' :: rest))
                               (Ok []) items in
          Ok (JArr items')
      | _ => Ok data
      end
  end.

End Decode.

(** ** hdf5.Filter: the LZF decoder *)

Definition lzf_error : exn := PlainError "Invalid LZF compressed data.".

(** [input[i]] as a number.  Every read of the decoder is guarded by a
    comparison with [input.length] in the first pass; outside the array the
    value here is 0. *)
Definition input_at (input : list u8) (i : Z) : Z :=
  if i <? 0 then 0 else from_option u8_val 0 (input !! Z.to_nat i).

(** [array[i]] on a Uint8Array, as the value a later store keeps
    ([undefined] is stored as 0). *)
Definition typed_get (array : list u8) (i : Z) : u8 :=
  if i <? 0 then u8_zero else default u8_zero (array !! Z.to_nat i).

(** [array[i] = b] on a Uint8Array: ignored outside the array. *)
Definition typed_set (array : list u8) (i : Z) (b : u8) : list u8 :=
  if i <? 0 then array else <[Z.to_nat i := b]> array.

(** [input.subarray(from, to)] for [0 <= from <= to]. *)
Definition subarray (input : list u8) (from to : Z) : list u8 :=
  firstn (Z.to_nat (to - from)) (skipn (Z.to_nat from) input).

(** [output.set(source, o)]: a RangeError when the source does not fit. *)
Definition typed_array_set (output source : list u8) (o : Z) : result (list u8) :=
  if Z.of_nat (length output) <? o + Z.of_nat (length source)
  then Throw (RangeError "offset is out of bounds")
  else Ok (firstn (Z.to_nat o) output ++ source
           ++ skipn (Z.to_nat o + length source) output).

(** The first [while] loop of [_lzf], lines 1395-1421, from the state
    [(i, o)]: the output size, or the exception. *)
Fixpoint lzf_size (fuel : nat) (input : list u8) (i o : Z) : result Z :=
  match fuel with
  | O => OutOfFuel
  | S fuel' =>
      let n := Z.of_nat (length input) in
      if i <? n then
        let c := input_at input i in
        let i := i + 1 in
        if c <? Z.shiftl 1 5 then
          let c := c + 1 in
          let i := i + c in
          let o := o + c in
          if n <? i then Throw lzf_error
          else lzf_size fuel' input i o
        else
          let len := Z.shiftr c 5 in
          if n <=? i then Throw lzf_error
          else
            let! extended :=
              (if len =? 7 then
                 let len := len + input_at input i in
                 let i := i + 1 in
                 if n <=? i then Throw lzf_error else Ok (len, i)
               else Ok (len, i)) in
            let len := fst extended in
            let i := snd extended in
            let ref := (o - Z.shiftl (Z.land c 0x1f) 8 - 1) - input_at input i in
            let i := i + 1 in
            if ref <? 0 then Throw lzf_error
            else lzf_size fuel' input i (o + (len + 2))
      else Ok o
  end.

(** [do { output[o++] = output[ref++]; } while (--length);] for a length
    of at least 1, which it always is (a control byte of 32 or more gives
    at least 1 + 2). *)
Fixpoint copy_back (len : nat) (output : list u8) (o ref : Z) : list u8 :=
  match len with
  | O => output
  | S len' => copy_back len' (typed_set output o (typed_get output ref)) (o + 1) (ref + 1)
  end.

(** The second [while] loop, lines 1425-1443, from the state [(i, o)]: the
    output array and the final value of [o]. *)
Fixpoint lzf_copy (fuel : nat) (input output : list u8) (i o : Z)
  : result (list u8 * Z) :=
  match fuel with
  | O => OutOfFuel
  | S fuel' =>
      let n := Z.of_nat (length input) in
      if i <? n then
        let c := input_at input i in
        let i := i + 1 in
        if c <? Z.shiftl 1 5 then
          let c := c + 1 in
          let! output := typed_array_set output (subarray input i (i + c)) o in
          lzf_copy fuel' input output (i + c) (o + c)
        else
          let len := Z.shiftr c 5 in
          let extended :=
            (if len =? 7 then (len + input_at input i, i + 1) else (len, i)) in
          let len := fst extended + 2 in
          let i := snd extended in
          let ref := o - Z.shiftl (Z.land c 0x1f) 8 - 1 - input_at input i in
          let i := i + 1 in
          lzf_copy fuel' input (copy_back (Z.to_nat len) output o ref) i (o + len)
      else Ok (output, o)
  end.

(** Every iteration consumes at least one input byte. *)
Definition lzf_fuel (input : list u8) : nat := S (length input).

(** [_lzf(input)], lines 1392-1445. *)
Definition _lzf (input : list u8) : result (list u8) :=
  let! o := lzf_size (lzf_fuel input) input 0 0 in
  let! copied := lzf_copy (lzf_fuel input) input (replicate (Z.to_nat o) u8_zero) 0 0 in
  Ok (fst copied).

(** The copy pass with every store checked: [None] as soon as a store
    falls outside the output array. *)
Fixpoint copy_back_checked (len : nat) (output : list u8) (o ref : Z)
  : option (list u8) :=
  match len with
  | O => Some output
  | S len' =>
      if (0 <=? o) && (o <? Z.of_nat (length output))
      then copy_back_checked len' (typed_set output o (typed_get output ref)) (o + 1) (ref + 1)
      else None
  end.

Fixpoint lzf_copy_checked (fuel : nat) (input output : list u8) (i o : Z)
  : option (list u8 * Z) :=
  match fuel with
  | O => None
  | S fuel' =>
      let n := Z.of_nat (length input) in
      if i <? n then
        let c := input_at input i in
        let i := i + 1 in
        if c <? Z.shiftl 1 5 then
          let c := c + 1 in
          match typed_array_set output (subarray input i (i + c)) o with
          | Ok output => lzf_copy_checked fuel' input output (i + c) (o + c)
          | _ => None
          end
        else
          let len := Z.shiftr c 5 in
          let extended :=
            (if len =? 7 then (len + input_at input i, i + 1) else (len, i)) in
          let len := fst extended + 2 in
          let i := snd extended in
          let ref := o - Z.shiftl (Z.land c 0x1f) 8 - 1 - input_at input i in
          let i := i + 1 in
          match copy_back_checked (Z.to_nat len) output o ref with
          | Some output => lzf_copy_checked fuel' input output i (o + len)
          | None => None
          end
      else Some (output, o)
  end.

(** *** The LZF stream format, token by token

    [lzf_stream input o]: [input] is a sequence of complete tokens, decoded
    with [o] bytes of output already produced.  A control byte below 32
    starts a literal run of [c + 1] bytes; any other one starts a
    back-reference of length [(c >> 5) + 2] (plus an extension byte when
    [c >> 5 = 7]) to the offset [((c & 31) << 8) + low + 1] before the end
    of the output. *)
Definition back_offset (c low : u8) : Z :=
  Z.shiftl (Z.land (u8_val c) 0x1f) 8 + u8_val low + 1.

Inductive lzf_stream : list u8 -> Z -> Prop :=
| stream_end o : lzf_stream [] o
| stream_literal c run rest o :
    u8_val c < 32 ->
    Z.of_nat (length run) = u8_val c + 1 ->
    lzf_stream rest (o + (u8_val c + 1)) ->
    lzf_stream (c :: run ++ rest) o
| stream_back c low rest o :
    32 <= u8_val c -> Z.shiftr (u8_val c) 5 <> 7 ->
    back_offset c low <= o ->
    lzf_stream rest (o + (Z.shiftr (u8_val c) 5 + 2)) ->
    lzf_stream (c :: low :: rest) o
| stream_back_long c ext low rest o :
    Z.shiftr (u8_val c) 5 = 7 ->
    back_offset c low <= o ->
    lzf_stream rest (o + (7 + u8_val ext + 2)) ->
    lzf_stream (c :: ext :: low :: rest) o.

(** The three defects of a token at the head of [input]. *)
Definition truncated_literal (input : list u8) : Prop :=
  exists c rest, input = c :: rest /\ u8_val c < 32 /\
                 Z.of_nat (length rest) < u8_val c + 1.

Definition truncated_back_reference (input : list u8) : Prop :=
  exists c rest, input = c :: rest /\ 32 <= u8_val c /\
                 (length rest < (if (Z.shiftr (u8_val c) 5 =? 7)%Z then 2 else 1))%nat.

Definition back_reference_before_start (input : list u8) (o : Z) : Prop :=
  exists c low rest, 32 <= u8_val c /\ o < back_offset c low /\
    ((Z.shiftr (u8_val c) 5 <> 7 /\ input = c :: low :: rest) \/
     (Z.shiftr (u8_val c) 5 = 7 /\ exists ext, input = c :: ext :: low :: rest)).

(** [lzf_defect input o]: after some complete tokens, [input] reaches a
    token with one of the three defects. *)
Inductive lzf_defect : list u8 -> Z -> Prop :=
| defect_here input o :
    truncated_literal input \/ truncated_back_reference input \/
    back_reference_before_start input o ->
    lzf_defect input o
| defect_after_literal c run rest o :
    u8_val c < 32 ->
    Z.of_nat (length run) = u8_val c + 1 ->
    lzf_defect rest (o + (u8_val c + 1)) ->
    lzf_defect (c :: run ++ rest) o
| defect_after_back c low rest o :
    32 <= u8_val c -> Z.shiftr (u8_val c) 5 <> 7 ->
    back_offset c low <= o ->
    lzf_defect rest (o + (Z.shiftr (u8_val c) 5 + 2)) ->
    lzf_defect (c :: low :: rest) o
| defect_after_back_long c ext low rest o :
    Z.shiftr (u8_val c) 5 = 7 ->
    back_offset c low <= o ->
    lzf_defect rest (o + (7 + u8_val ext + 2)) ->
    lzf_defect (c :: ext :: low :: rest) o.

(** ** hdf5.Filter.decode and the chunked case of hdf5.Variable.data *)

Record Filter : Type := mkFilter {
  filter_id : Z;
  filter_name : string;
  filter_flags : Z;
  clientData : list u8
}.

(** A leaf of the raw-data B-tree, as [hdf5.Tree] pushes it to [nodes]:
    the chunk bytes, the chunk offsets as [reader.uint64()] read them
    (BigInt values) and the filter mask, a 32-bit integer read by
    [reader.int32()]. *)
Record ChunkNode : Type := mkChunkNode {
  node_data : list u8;
  fields : list Z;
  filterMask : Z
}.

(** [node.fields.map((x) => x.toNumber())], line 255: the offsets as
    numbers, or the exception of the first one that is not a safe
    integer ([toNumber] as above). *)
Fixpoint fields_toNumber (offsets : list Z) : result (list Z) :=
  match offsets with
  | [] => Ok []
  | x :: rest =>
      if MAX_SAFE_INTEGER <? x then Throw (PlainError safe_integer_message)
      else let! rest' := fields_toNumber rest in Ok (x :: rest')
  end.

(** [a << i] on 32-bit integers: the shift count is taken modulo 32. *)
Definition js_shl (a i : Z) : Z := wrap32 (a * 2 ^ (i mod 32)).

(** The positions the scatter loop maintains, and the output array. *)
Record scatter : Type := mkScatter {
  chunk_pos : list Z;
  data_pos : list Z;
  data : list u8
}.

(** [array[i]++] for an index inside the array (or -1, a store that adds
    a property and changes no element). *)
Definition increment (array : list Z) (i : Z) : list Z :=
  if i <? 0 then array else alter Z.succ (Z.to_nat i) array.

Definition jmul (a b : jsn) : jsn :=
  match a, b with
  | Some x, Some y => Some (x * y)
  | _, _ => None
  end.

Section Chunked.

(** [zip.Archive.open(input).entries.get('').peek()], from zip.js. *)
Variable inflate : list u8 -> result (list u8).

(** [decode(data)], lines 1379-1385. *)
Definition Filter_decode (filter : Filter) (chunk : list u8) : result (list u8) :=
  match filter_id filter with
  | 1 => inflate chunk
  | 32000 => _lzf chunk
  | _ => Throw (Hdf5Error "Unsupported filter")
  end.

(** The loop over [this._filterPipeline.filters], from index [i] on. *)
Fixpoint decode_chunk (filters : list Filter) (i : Z) (mask : Z) (chunk : list u8)
  : result (list u8) :=
  match filters with
  | [] => Ok chunk
  | filter :: rest =>
      if Z.land mask (js_shl 1 i) =? 0 then
        let! chunk' := Filter_decode filter chunk in
        decode_chunk rest (i + 1) mask chunk'
      else decode_chunk rest (i + 1) mask chunk
  end.

(** The loop that fills [data_strides], for [i] from [k - 1] down to 0. *)
Fixpoint strides_loop (k : nat) (data_shape : list Z) (data_stride : Z)
         (data_strides : list Z) : list Z :=
  match k with
  | O => data_strides
  | S i =>
      strides_loop i data_shape (data_stride * (data_shape !!! i))
                   (<[i := data_stride]> data_strides)
  end.

(** The carry loop, for [i] from [k - 1] down to 0, with its [break]. *)
Fixpoint carry (k : nat) (chunk_shape chunk_offset : list Z)
         (cp dp : list Z) : list Z * list Z :=
  match k with
  | O => (cp, dp)
  | S i =>
      if jge (cp !! i) (chunk_shape !! i) then
        let cp := <[i := 0]> cp in
        let dp := <[i := chunk_offset !!! i]> dp in
        if bool_decide (0 < i)%nat
        then carry i chunk_shape chunk_offset
                   (alter Z.succ (i - 1)%nat cp) (alter Z.succ (i - 1)%nat dp)
        else carry i chunk_shape chunk_offset cp dp
      else (cp, dp)
  end.

(** The loop that computes [index] and [inbounds], from [i] on, [count]
    times, with its [break]. *)
Fixpoint index_loop (count i : nat) (dp data_shape data_strides : list Z)
         (index : jsn) : jsn * bool :=
  match count with
  | O => (index, true)
  | S count' =>
      if jge (dp !! i) (data_shape !! i) then (index, false)
      else index_loop count' (S i) dp data_shape data_strides
                      (jadd index (jmul (dp !! i) (data_strides !! i)))
  end.

(** [while (target_offset < target_end) data[target_offset++] = chunk[chunk_offset++]]. *)
Fixpoint copy_item (count : nat) (out chunk : list u8) (target_offset chunk_offset : Z)
  : list u8 :=
  match count with
  | O => out
  | S count' =>
      copy_item count' (typed_set out target_offset (typed_get chunk chunk_offset))
                chunk (target_offset + 1) (chunk_offset + 1)
  end.

(** One iteration of [for (chunk_index ...)], lines 260-291. *)
Definition scatter_step (item_size : Z) (chunk_shape data_shape data_strides : list Z)
           (chunk : list u8) (chunk_offset : list Z) (chunk_index : Z) (s : scatter)
  : scatter :=
  let max_dim := Z.of_nat (length data_shape) - 1 in
  let len := Z.of_nat (length (data_pos s)) - 1 in
  let carried := carry (length data_shape) chunk_shape chunk_offset
                       (chunk_pos s) (data_pos s) in
  let cp := fst carried in
  let dp := snd carried in
  let located := index_loop (Z.to_nat len) 0 dp data_shape data_strides (Some 0) in
  let out :=
    if snd located then
      match fst located with
      | Some index =>
          copy_item (Z.to_nat item_size) (data s) chunk
                    (index * item_size) (chunk_index * item_size)
      | None => data s
      end
    else data s in
  mkScatter (increment cp max_dim) (increment dp max_dim) out.

(** The loop [for (chunk_index ...)], from [chunk_index] on, [count] times. *)
Fixpoint scatter_loop (count : nat) (item_size : Z)
         (chunk_shape data_shape data_strides : list Z)
         (chunk : list u8) (chunk_offset : list Z) (chunk_index : Z) (s : scatter)
  : scatter :=
  match count with
  | O => s
  | S count' =>
      scatter_loop count' item_size chunk_shape data_shape data_strides chunk
        chunk_offset (chunk_index + 1)
        (scatter_step item_size chunk_shape data_shape data_strides chunk
                      chunk_offset chunk_index s)
  end.

(** The body of [for (const node of tree.nodes)], lines 246-292. *)
Definition scatter_node (item_size : Z) (chunk_shape data_shape data_strides : list Z)
           (filterPipeline : option (list Filter)) (out : list u8) (node : ChunkNode)
  : result (list u8) :=
  let! chunk := match filterPipeline with
                | Some filters => decode_chunk filters 0 (filterMask node) (node_data node)
                | None => Ok (node_data node)
                end in
  let! chunk_offset := fields_toNumber (fields node) in
  let chunk_size := foldl Z.mul 1 chunk_shape in
  Ok (data (scatter_loop (Z.to_nat chunk_size) item_size chunk_shape data_shape
                         data_strides chunk chunk_offset 0
                         (mkScatter (replicate (length chunk_offset) 0) chunk_offset out))).

Fixpoint scatter_nodes (item_size : Z) (chunk_shape data_shape data_strides : list Z)
         (filterPipeline : option (list Filter)) (out : list u8) (nodes : list ChunkNode)
  : result (list u8) :=
  match nodes with
  | [] => Ok out
  | node :: rest =>
      let! out' := scatter_node item_size chunk_shape data_shape data_strides
                                filterPipeline out node in
      scatter_nodes item_size chunk_shape data_shape data_strides filterPipeline out' rest
  end.

(** [case 2] of [get data()], lines 229-295, given the leaves [nodes] of
    the B-tree at [this._dataLayout.address]; [item_size] is
    [datasetElementSize], [chunk_shape] is [dimensionSizes] and
    [data_shape] the shape of the dataspace.  [new Uint8Array(length)]
    raises a RangeError for a negative length and for one above
    [Number.MAX_SAFE_INTEGER].  The numbers of the code are doubles and
    are integers here: the two agree as long as the products and sums that
    the code forms stay within the safe integers, which the properties
    below assume. *)
Definition Variable_data_chunked (item_size : Z) (chunk_shape data_shape : list Z)
           (filterPipeline : option (list Filter)) (nodes : list ChunkNode)
  : result (list u8) :=
  let data_size := foldl Z.mul 1 data_shape in
  let data_strides := strides_loop (length data_shape) data_shape 1
                                   (replicate (length data_shape) 0) in
  if (data_size * item_size <? 0) || (MAX_SAFE_INTEGER <? data_size * item_size)
  then Throw (RangeError "Invalid typed array length")
  else scatter_nodes item_size chunk_shape data_shape data_strides filterPipeline
                     (replicate (Z.to_nat (data_size * item_size)) u8_zero) nodes.

(** *** The oracle of the specification

    Written from the specification's words, not from the loops above:
    row-major strides, the position of a chunk element computed directly
    from its index, and a bounds test on every coordinate. *)

Definition product (shape : list Z) : Z := foldr Z.mul 1 shape.

Fixpoint row_major_strides (shape : list Z) : list Z :=
  match shape with
  | [] => []
  | _ :: inner => product inner :: row_major_strides inner
  end.

(** The coordinates of element number [index] of a block of shape
    [shape], in row-major order. *)
Definition unravel (shape : list Z) (index : Z) : list Z :=
  zip_with (fun stride dim => (index / stride) mod dim) (row_major_strides shape) shape.

Definition dot (a b : list Z) : Z := foldr Z.add 0 (zip_with Z.mul a b).

(** No coordinate reaches the extent of the dataset. *)
Definition in_bounds (pos shape : list Z) : bool :=
  forallb (fun b => b) (zip_with Z.ltb pos shape).

(** Filter [i] is applied, in ascending order, unless bit [i] of the
    mask is set. *)
Fixpoint oracle_filters (filters : list Filter) (i : Z) (mask : Z) (chunk : list u8)
  : result (list u8) :=
  match filters with
  | [] => Ok chunk
  | filter :: rest =>
      if Z.testbit mask i then oracle_filters rest (i + 1) mask chunk
      else let! chunk' := Filter_decode filter chunk in
           oracle_filters rest (i + 1) mask chunk'
  end.

(** Copy the [item_size] bytes of chunk element [chunk_index] to output
    element [target]. *)
Definition oracle_copy (item_size : Z) (out chunk : list u8) (target chunk_index : Z)
  : list u8 :=
  foldl (fun out k => typed_set out (target * item_size + Z.of_nat k)
                                (typed_get chunk (chunk_index * item_size + Z.of_nat k)))
        out (seq 0 (Z.to_nat item_size)).

Definition oracle_place (item_size : Z) (chunk_shape data_shape : list Z)
           (chunk : list u8) (chunk_offset : list Z) (out : list u8) (chunk_index : nat)
  : list u8 :=
  let pos := zip_with Z.add chunk_offset (unravel chunk_shape (Z.of_nat chunk_index)) in
  if in_bounds pos data_shape
  then oracle_copy item_size out chunk (dot pos (row_major_strides data_shape))
                   (Z.of_nat chunk_index)
  else out.

Definition oracle_chunk (item_size : Z) (chunk_shape data_shape : list Z)
           (filterPipeline : option (list Filter)) (out : list u8) (node : ChunkNode)
  : result (list u8) :=
  let! chunk := match filterPipeline with
                | Some filters => oracle_filters filters 0 (filterMask node) (node_data node)
                | None => Ok (node_data node)
                end in
  Ok (foldl (oracle_place item_size chunk_shape data_shape chunk (fields node)) out
            (seq 0 (Z.to_nat (product chunk_shape)))).

Fixpoint oracle_chunks (item_size : Z) (chunk_shape data_shape : list Z)
         (filterPipeline : option (list Filter)) (out : list u8) (nodes : list ChunkNode)
  : result (list u8) :=
  match nodes with
  | [] => Ok out
  | node :: rest =>
      let! out' := oracle_chunk item_size chunk_shape data_shape filterPipeline out node in
      oracle_chunks item_size chunk_shape data_shape filterPipeline out' rest
  end.

Definition oracle_data (item_size : Z) (chunk_shape data_shape : list Z)
           (filterPipeline : option (list Filter)) (nodes : list ChunkNode)
  : result (list u8) :=
  oracle_chunks item_size chunk_shape data_shape filterPipeline
                (replicate (Z.to_nat (product data_shape * item_size)) u8_zero) nodes.

End Chunked.

(** *** Vocabulary for the proofs about the scatter loop *)

(** An output byte index is written when some chunk element that lies
    inside the dataset is copied over it. *)
Definition written_by (item_size : Z) (chunk_shape data_shape : list Z)
           (nodes : list ChunkNode) (k : Z) : Prop :=
  exists node chunk_index,
    In node nodes /\ (chunk_index < Z.to_nat (product chunk_shape))%nat /\
    let pos := zip_with Z.add (fields node) (unravel chunk_shape (Z.of_nat chunk_index)) in
    in_bounds pos data_shape = true /\
    dot pos (row_major_strides data_shape) * item_size <= k
      < dot pos (row_major_strides data_shape) * item_size + item_size.

(** The coordinates of an element with the fastest axis first: [dims] is
    the reversed shape. *)
Fixpoint digits (dims : list Z) (index : Z) : list Z :=
  match dims with
  | [] => []
  | d :: slower => index mod d :: digits slower (index / d)
  end.

Definition bump (coordinates : list Z) : list Z :=
  match coordinates with
  | [] => []
  | c :: slower => c + 1 :: slower
  end.

(** The carry loop on coordinates with the fastest axis first. *)
Fixpoint normalize (dims coordinates : list Z) : list Z :=
  match dims, coordinates with
  | d :: slower_dims, c :: slower =>
      if d <=? c then 0 :: normalize slower_dims (bump slower) else c :: slower
  | _, _ => coordinates
  end.

(** The state of the scatter loop at the head of the iteration for element
    [c]: the positions are those of [c] before the carries, stored slowest
    axis first and followed by the entry of the element axis, and [data_pos]
    is [chunk_offset + chunk_pos]. *)
Definition at_element (chunk_shape data_shape chunk_offset : list Z)
           (c : nat) (s : scatter) : Prop :=
  exists a, length a = length data_shape /\
            normalize (rev chunk_shape) a = digits (rev chunk_shape) (Z.of_nat c) /\
            chunk_pos s = rev a ++ [0] /\
            data_pos s = zip_with Z.add chunk_offset (chunk_pos s).

(** * More of the reader *)

(** ** hdf5.Reader and hdf5.BinaryReader: the remaining accessors *)

(** [getIntN]: an N-bit value read as a two's complement integer. *)
Definition to_signed (bits : Z) (v : Z) : Z :=
  if v <? 2 ^ (bits - 1) then v else v - 2 ^ bits.

Definition int8 : R Z := pos <- take 1 ;; v <- view_get 1 pos ;; ret (to_signed 8 v).
Definition int16 : R Z := pos <- take 2 ;; v <- view_get 2 pos ;; ret (to_signed 16 v).
Definition int32 : R Z := pos <- take 4 ;; v <- view_get 4 pos ;; ret (to_signed 32 v).
Definition int64 : R Z := pos <- take 8 ;; v <- view_get 8 pos ;; ret (to_signed 64 v).

(** An argument of [subarray] relative to an array of length [len]:
    [NaN] is 0, a negative index counts from the end, and the result is
    clamped to the array. *)
Definition relative_index (len : Z) (x : jsn) : Z :=
  match x with
  | None => 0
  | Some i => if i <? 0 then Z.max (len + i) 0 else Z.min i len
  end.

(** [buffer.subarray(begin, end)] for any two arguments. *)
Definition js_subarray (buffer : list u8) (begin_ end_ : jsn) : list u8 :=
  let len := Z.of_nat (length buffer) in
  let first := relative_index len begin_ in
  firstn (Z.to_nat (relative_index len end_ - first)) (skipn (Z.to_nat first) buffer).

(** [read(length)] of hdf5.BinaryReader. *)
Definition read (len : Z) : R (list u8) :=
  pos <- take len ;;
  (fun r => Ok (js_subarray (_buffer r) pos (jadd pos (Some len)), r)).

(** The loop of [size(terminator)],
    [while (this._buffer[position] !== terminator) position++]: the position
    at which it stops.  Outside the array the element is [undefined], which
    differs from every terminator. *)
Fixpoint size_loop (fuel : nat) (buffer : list u8) (terminator position : Z) : option Z :=
  match fuel with
  | O => None
  | S fuel' =>
      if (if position <? 0 then false
          else from_option (fun b => u8_val b =? terminator) false
                           (buffer !! Z.to_nat position))
      then Some position
      else size_loop fuel' buffer terminator (position + 1)
  end.

(** [size(terminator)] of hdf5.BinaryReader.  The fuel reaches the end of
    the array, after which no element can stop the loop: [OutOfFuel] here is
    a loop that does not end (as is the loop on a position that is [NaN]). *)
Definition size_ (terminator : Z) : R Z := fun r =>
  match jadd (_offset r) (Some (_position r)), _offset r with
  | Some start, Some o =>
      match size_loop (S (Z.to_nat (_length r - start))) (_buffer r) terminator start with
      | Some stop => Ok (stop - o - _position r + 1, r)
      | None => OutOfFuel
      end
  | _, _ => OutOfFuel
  end.

(** [for (let i = 0; i < size; i++) data[i] = this.byte()]. *)
Fixpoint bytes_loop (count : nat) : R (list u8) :=
  match count with
  | O => ret []
  | S count' =>
      b <- byte ;;
      rest <- bytes_loop count' ;;
      ret (u8_of b :: rest)
  end.

(** [.replace(/\0/g, '')]. *)
Fixpoint strip_nul (s : string) : string :=
  match s with
  | EmptyString => EmptyString
  | String c rest =>
      if Ascii.eqb c "000"%char then strip_nul rest else String c (strip_nul rest)
  end.

Section Strings.

(** [new TextDecoder(encoding).decode(data)], from the runtime; the
    encoding is "utf-8" or "ascii". *)
Variable decode_text : string -> list u8 -> string.

(** [string(size, encoding)], lines 450-469. *)
Definition string_ (size : jsn) (encoding : string) : R string :=
  size' <- match size with
           | None | Some 0 | Some (-1) => size_ 0
           | Some n => ret n
           end ;;
  data <- (if size' <? 16 then
             if size' <? 0 then raise (RangeError "Invalid typed array length")
             else bytes_loop (Z.to_nat size')
           else read size') ;;
  ret (strip_nul (decode_text (if String.eqb encoding "utf-8" then "utf-8" else "ascii")
                              data)).

(** ** hdf5.Heap: the local heap *)

Record Heap : Type := mkHeap {
  _dataSize : jsn;
  _offsetToHeadOfFreeList : jsn;
  _dataAddress : jsn
}.

(** [new hdf5.Heap(reader, offset)], lines 1637-1656. *)
Definition Heap_new (address : jsn) : R Heap :=
  saved <- get_position ;;
  seek address ;;;
  expect "HEAP" ;;;
  version <- byte ;;
  heap <- match version with
          | 0 =>
              skip 3 ;;;
              dataSize <- length_ ;;
              freeList <- length_ ;;
              dataAddress <- offset ;;
              ret (mkHeap dataSize freeList dataAddress)
          | _ => raise (Hdf5Error "Unsupported Local Heap version")
          end ;;
  seek saved ;;;
  ret heap.

(** [getString(offset)], lines 1658-1664. *)
Definition Heap_getString (heap : Heap) (name_offset : jsn) : R string :=
  saved <- get_position ;;
  seek (jadd (_dataAddress heap) name_offset) ;;;
  value <- string_ (Some (-1)) "utf-8" ;;
  seek saved ;;;
  ret value.

End Strings.

(** ** hdf5.SymbolTableNode *)

(** The loop that reads [entriesUsed] symbol-table entries. *)
Fixpoint entries_loop (count : nat) : R (list SymbolTableEntry) :=
  match count with
  | O => ret []
  | S count' =>
      entry <- SymbolTableEntry_new ;;
      rest <- entries_loop count' ;;
      ret (entry :: rest)
  end.

(** [new hdf5.SymbolTableNode(reader, offset)], lines 684-701: its
    [entries]. *)
Definition SymbolTableNode_new (address : jsn) : R (list SymbolTableEntry) :=
  saved <- get_position ;;
  seek address ;;;
  expect "SNOD" ;;;
  version <- byte ;;
  entries <- (if version =? 1 then
                skip 1 ;;;
                entriesUsed <- uint16 ;;
                entries_loop (Z.to_nat entriesUsed)
              else raise (Hdf5Error "Unsupported symbol table node version")) ;;
  seek saved ;;;
  ret entries.

(** ** hdf5.Tree: the version-1 B-tree *)

(** A leaf that the walk pushes to [nodes]: a symbol-table node (its
    entries) in a group tree, a chunk in a raw-data tree. *)
Inductive TreeNode : Type :=
| GroupLeaf (entries : list SymbolTableEntry)
| ChunkLeaf (chunk : ChunkNode).

(** [for (let j = 0; j < dimensionality; j++) fields.push(reader.uint64())]. *)
Fixpoint fields_loop (count : nat) : R (list Z) :=
  match count with
  | O => ret []
  | S count' =>
      field <- uint64 ;;
      rest <- fields_loop count' ;;
      ret (field :: rest)
  end.

(** The two entry loops of the constructor, given the constructor itself
    for the children ([subtree]); [dimensionality] is [None] when the
    argument is missing. *)
Fixpoint group_entries (count : nat) (level : Z) (subtree : jsn -> R (list TreeNode))
  : R (list TreeNode) :=
  match count with
  | O => ret []
  | S count' =>
      length_ ;;;
      childPointer <- offset ;;
      nodes <- (if level =? 0 then
                  entries <- SymbolTableNode_new childPointer ;;
                  ret [GroupLeaf entries]
                else subtree childPointer) ;;
      rest <- group_entries count' level subtree ;;
      ret (nodes ++ rest)
  end.

Fixpoint chunk_entries (count : nat) (level : Z) (dimensionality : option Z)
         (subtree : jsn -> R (list TreeNode)) : R (list TreeNode) :=
  match count with
  | O => ret []
  | S count' =>
      size <- int32 ;;
      mask <- int32 ;;
      chunk_fields <- fields_loop (from_option Z.to_nat 0%nat dimensionality) ;;
      childPointer <- offset ;;
      nodes <- (if level =? 0 then
                  saved <- get_position ;;
                  seek childPointer ;;;
                  chunk <- read size ;;
                  seek saved ;;;
                  ret [ChunkLeaf (mkChunkNode chunk chunk_fields mask)]
                else subtree childPointer) ;;
      rest <- chunk_entries count' level dimensionality subtree ;;
      ret (nodes ++ rest)
  end.

(** [new hdf5.Tree(reader, offset, dimensionality)], lines 1579-1632: its
    [nodes].  A child pointer can lead back to a node already visited, so
    the recursion runs on fuel.  In a group tree the children are built
    without the third argument. *)
Fixpoint Tree_new (fuel : nat) (address : jsn) (dimensionality : option Z)
  : R (list TreeNode) :=
  match fuel with
  | O => out_of_fuel
  | S fuel' =>
      saved <- get_position ;;
      seek address ;;;
      expect "TREE" ;;;
      type <- byte ;;
      level <- byte ;;
      entries <- uint16 ;;
      offset ;;;
      offset ;;;
      nodes <- match type with
               | 0 => group_entries (Z.to_nat entries) level
                                    (fun child => Tree_new fuel' child None)
               | 1 => chunk_entries (Z.to_nat entries) level dimensionality
                                    (fun child => Tree_new fuel' child dimensionality)
               | _ => raise (Hdf5Error "Unsupported B-Tree node type")
               end ;;
      seek saved ;;;
      ret nodes
  end.

(** ** hdf5.Dataspace: the constructor *)

(** [for (...) this._sizes.push(reader.length())]. *)
Fixpoint lengths_loop (count : nat) : R (list jsn) :=
  match count with
  | O => ret []
  | S count' =>
      size <- length_ ;;
      rest <- lengths_loop count' ;;
      ret (size :: rest)
  end.

(** The loop over the maximum sizes of a version-1 dataspace, from index
    [j] on: each one is compared with the size as soon as it is read. *)
Fixpoint max_sizes_loop (count j : nat) (sizes : list jsn) : R (list jsn) :=
  match count with
  | O => ret []
  | S count' =>
      maximum <- length_ ;;
      if negb (bool_decide (Some maximum = sizes !! j))
      then raise (Hdf5Error "Max size is not supported.")
      else rest <- max_sizes_loop count' (S j) sizes ;; ret (maximum :: rest)
  end.

(** [new hdf5.Dataspace(reader)], lines 876-919: the dataspace (the
    fields that the methods read) and [_maxSizes] when the flag asks for
    them. *)
Definition Dataspace_new : R (Dataspace * option (list jsn)) :=
  version <- byte ;;
  match version with
  | 1 =>
      dimensions <- byte ;;
      flags <- byte ;;
      skip 1 ;;;
      skip 4 ;;;
      sizes <- lengths_loop (Z.to_nat dimensions) ;;
      maxSizes <- (if negb (js_land flags 0x01 =? 0)
                   then m <- max_sizes_loop (Z.to_nat dimensions) 0 sizes ;; ret (Some m)
                   else ret None) ;;
      if negb (js_land flags 0x02 =? 0)
      then raise (Hdf5Error "Permutation indices not supported.")
      else ret (mkDataspace dimensions sizes, maxSizes)
  | 2 =>
      dimensions <- byte ;;
      flags <- byte ;;
      byte ;;;
      sizes <- lengths_loop (Z.to_nat dimensions) ;;
      maxSizes <- (if negb (js_land flags 0x01 =? 0)
                   then m <- lengths_loop (Z.to_nat dimensions) ;; ret (Some m)
                   else ret None) ;;
      ret (mkDataspace dimensions sizes, maxSizes)
  | _ => raise (Hdf5Error "Unsupported dataspace message version")
  end.

(** ** hdf5.DataLayout *)

(** The properties the constructor assigns; which ones exist depends on
    the version and the layout class. *)
Record DataLayout : Type := mkDataLayout {
  dimensionality : option Z;
  layoutClass : Z;
  layout_address : jsn;
  layout_size : jsn;
  dimensionSizes : option (list Z);
  datasetElementSize : option Z
}.

(** [for (let i = 0; i < this.dimensionality - 1; i++)
    this.dimensionSizes.push(reader.int32())]. *)
Fixpoint dimension_sizes_loop (count : nat) : R (list Z) :=
  match count with
  | O => ret []
  | S count' =>
      size <- int32 ;;
      rest <- dimension_sizes_loop count' ;;
      ret (size :: rest)
  end.

(** [new hdf5.DataLayout(reader)], lines 1259-1319. *)
Definition DataLayout_new : R DataLayout :=
  version <- byte ;;
  match version with
  | 1 | 2 =>
      dimensions <- byte ;;
      class <- byte ;;
      skip 5 ;;;
      match class with
      | 1 =>
          address <- offset ;;
          sizes <- dimension_sizes_loop (Z.to_nat (dimensions - 1)) ;;
          ret (mkDataLayout (Some dimensions) class address None (Some sizes) None)
      | 2 =>
          address <- offset ;;
          sizes <- dimension_sizes_loop (Z.to_nat (dimensions - 1)) ;;
          element <- int32 ;;
          ret (mkDataLayout (Some dimensions) class address None (Some sizes) (Some element))
      | _ => raise (Hdf5Error "Unsupported data layout class")
      end
  | 3 =>
      class <- byte ;;
      match class with
      | 0 =>
          size <- uint16 ;;
          skip 2 ;;;
          address <- get_position ;;
          ret (mkDataLayout None class address (Some size) None None)
      | 1 =>
          address <- offset ;;
          size <- length_ ;;
          ret (mkDataLayout None class address size None None)
      | 2 =>
          dimensions <- byte ;;
          address <- offset ;;
          sizes <- dimension_sizes_loop (Z.to_nat (dimensions - 1)) ;;
          element <- int32 ;;
          ret (mkDataLayout (Some dimensions) class address None (Some sizes) (Some element))
      | _ => raise (Hdf5Error "Unsupported data layout class")
      end
  | _ => raise (Hdf5Error "Unsupported data layout version")
  end.

(** ** Cursors, for the statements below *)

(** The reader [count] bytes further on, and the reader after
    [seek(position)]. *)
Definition advance (count : Z) (r : Reader) : Reader :=
  mkReader (_buffer r) (_offset r) (_position r + count) (_offsetSize r) (_lengthSize r).

Definition moved_to (pos : jsn) (r : Reader) : Reader :=
  mkReader (_buffer r) pos 0 (_offsetSize r) (_lengthSize r).

(** The bytes from the cursor on, when the cursor is inside the buffer. *)
Definition ahead (r : Reader) : list u8 :=
  match position r with
  | Some p => if p <? 0 then [] else skipn (Z.to_nat p) (_buffer r)
  | None => []
  end.

(** Two states of the reader of one file: the same bytes and the same
    offset and length widths. *)
Definition same_file (r r' : Reader) : Prop :=
  _buffer r' = _buffer r /\ _offsetSize r' = _offsetSize r /\ _lengthSize r' = _lengthSize r.

(** [r'] is the reader of the same file [count] bytes after [r]. *)
Definition cursor_after (count : Z) (r r' : Reader) : Prop :=
  same_file r r' /\ position r' = jadd (position r) (Some count).

(** What holds of a leaf of a B-tree built with [dimensionality]: a chunk
    has a 32-bit filter mask and 64-bit fields, one per dimension, or none
    at all when it hangs below a group node (whose children are built
    without the argument). *)
Definition leaf_invariant (dimensionality : option Z) (node : TreeNode) : Prop :=
  match node with
  | GroupLeaf _ => True
  | ChunkLeaf chunk =>
      (length (fields chunk) = from_option Z.to_nat 0%nat dimensionality \/
       fields chunk = []) /\
      Forall (fun field => 0 <= field < 2 ^ 64) (fields chunk) /\
      - 2 ^ 31 <= filterMask chunk < 2 ^ 31
  end.

(** The byte at an absolute index of the reader's buffer. *)
Definition byte_at (r : Reader) (index : Z) : Z :=
  le_value (firstn 1 (skipn (Z.to_nat index) (_buffer r))).

(** ** LZF decoding, as a function of the stream

    What a stream of LZF tokens stands for, without an output array: a
    literal run appends its bytes; a back-reference of [count] bytes at
    distance [d] appends, one byte at a time, the byte that lies [d] before
    the end of the output (so it may run into the bytes it has just
    written).  [lzf_decodes input out final]: decoding [input] after the
    output [out] gives [final]. *)
Fixpoint extend (count : nat) (out : list u8) (ref : nat) : list u8 :=
  match count with
  | O => out
  | S count' => extend count' (out ++ [default u8_zero (out !! ref)]) (S ref)
  end.

Inductive lzf_decodes : list u8 -> list u8 -> list u8 -> Prop :=
| decodes_end out : lzf_decodes [] out out
| decodes_literal c run rest out final :
    u8_val c < 32 ->
    Z.of_nat (length run) = u8_val c + 1 ->
    lzf_decodes rest (out ++ run) final ->
    lzf_decodes (c :: run ++ rest) out final
| decodes_back c low rest out final :
    32 <= u8_val c -> Z.shiftr (u8_val c) 5 <> 7 ->
    back_offset c low <= Z.of_nat (length out) ->
    lzf_decodes rest
                (extend (Z.to_nat (Z.shiftr (u8_val c) 5 + 2)) out
                        (length out - Z.to_nat (back_offset c low)))
                final ->
    lzf_decodes (c :: low :: rest) out final
| decodes_back_long c ext low rest out final :
    Z.shiftr (u8_val c) 5 = 7 ->
    back_offset c low <= Z.of_nat (length out) ->
    lzf_decodes rest
                (extend (Z.to_nat (7 + u8_val ext + 2)) out
                        (length out - Z.to_nat (back_offset c low)))
                final ->
    lzf_decodes (c :: ext :: low :: rest) out final.

(** ** hdf5.Datatype and hdf5.Filter: the constructors *)

Section Messages.

Variable decode_text : string -> list u8 -> string.

(** [datatype.read(reader)], lines 1103-1146, for the values of an
    enumeration: it reads one value of the base type from the reader. *)
Variable read_value : Datatype -> R jsval.

(** [this._names[i] = reader.string(-1, 'ascii'); reader.align(8)]. *)
Fixpoint names_loop (count : nat) : R (list string) :=
  match count with
  | O => ret []
  | S count' =>
      name <- string_ decode_text (Some (-1)) "ascii" ;;
      align 8 ;;;
      rest <- names_loop count' ;;
      ret (name :: rest)
  end.

(** [this._values[i] = this._base.read(reader)]. *)
Fixpoint values_loop (count : nat) (base : Datatype) : R (list jsval) :=
  match count with
  | O => ret []
  | S count' =>
      value <- read_value base ;;
      rest <- values_loop count' base ;;
      ret (value :: rest)
  end.

(** [new hdf5.Datatype(reader)], lines 994-1035.  The base type of an
    enumeration is read by the constructor itself; every level consumes
    bytes, and the fuel bounds the nesting. *)
Fixpoint Datatype_new (fuel : nat) : R Datatype :=
  match fuel with
  | O => out_of_fuel
  | S fuel' =>
      format <- byte ;;
      let version := Z.shiftr format 4 in
      let class := js_land format 0xf in
      match version with
      | 1 | 2 =>
          b0 <- byte ;;
          b1 <- byte ;;
          b2 <- byte ;;
          let flags := Z.lor (Z.lor b0 (js_shl b1 8)) (js_shl b2 16) in
          size <- uint32 ;;
          match class with
          | 0 =>
              bitOffset <- uint16 ;;
              bitPrecision <- uint16 ;;
              ret (mkDatatype class flags size (Some bitOffset) (Some bitPrecision) None [] [])
          | 8 =>
              base <- Datatype_new fuel' ;;
              pos <- get_position ;;
              seek pos ;;;
              names <- names_loop (Z.to_nat (js_land flags 0xffff)) ;;
              values <- values_loop (Z.to_nat (js_land flags 0xffff)) base ;;
              ret (mkDatatype class flags size None None (Some base) names values)
          | _ => ret (mkDatatype class flags size None None None [] [])
          end
      | _ => raise (Hdf5Error "Unsupported datatype version")
      end
  end.

(** [new hdf5.Filter(reader)], lines 1370-1377. *)
Definition Filter_new : R Filter :=
  id <- int16 ;;
  nameLength <- int16 ;;
  flags <- int16 ;;
  clientDataSize <- int16 ;;
  name <- string_ decode_text (Some nameLength) "ascii" ;;
  client <- read (clientDataSize * 4) ;;
  ret (mkFilter id name flags client).

(** [this.filters.push(new hdf5.Filter(reader)); reader.align(8)]. *)
Fixpoint filters_loop (count : nat) : R (list Filter) :=
  match count with
  | O => ret []
  | S count' =>
      filter <- Filter_new ;;
      align 8 ;;;
      rest <- filters_loop count' ;;
      ret (filter :: rest)
  end.

(** [new hdf5.FilterPipeline(reader)], lines 1347-1365: its [filters]. *)
Definition FilterPipeline_new : R (list Filter) :=
  version <- byte ;;
  match version with
  | 1 =>
      numberOfFilters <- byte ;;
      skip 2 ;;;
      skip 4 ;;;
      filters_loop (Z.to_nat numberOfFilters)
  | _ => raise (Hdf5Error "Unsupported filter pipeline message version")
  end.

End Messages.

(** An address or a length as [offset()] and [length()] return it:
    [undefined], -1, or a number below [Number.MAX_SAFE_INTEGER]. *)
Definition safe_address (v : jsn) : Prop :=
  match v with
  | Some x => -1 <= x < MAX_SAFE_INTEGER
  | None => True
  end.

(** ** Concrete inputs used by the examples below *)

(** A Uint8Array from its bytes. *)
Definition bytes (l : list Z) : list u8 := map u8_of l.

(** A message constructor that reads nothing and an object header that is
    told apart by the number of its attributes. *)
Definition no_payload : message_class -> R unit := fun _ => ret tt.

Definition header_tag (n : nat) : DataObjectHeader unit :=
  mkHeader unit (replicate n tt) [] [] ∅.

(** A file with the root group, its children [g] and [x], and the child
    [a] of [g], all found through links. *)
Definition sample_links (h : DataObjectHeader unit)
  : result (list (string * DataObjectHeader unit)) :=
  match length (attributes unit h) with
  | 0%nat => Ok [("g"%string, header_tag 1); ("x"%string, header_tag 2)]
  | 1%nat => Ok [("a"%string, header_tag 3)]
  | _ => Ok []
  end.

Definition no_symbol_table (e : SymbolTableEntry)
  : result (list (string * SymbolTableEntry)) := Ok [].

Definition sample_root : Group unit := Group_new unit None (Some (header_tag 0)) "" "".
Definition sample_g : Group unit := Group_new unit None (Some (header_tag 1)) "/" "g".

(** A variable-length UTF-8 string type (class 9, character set 1), a global
    heap whose object 1 of the collection at 4096 holds "hi", and a 1 x 1
    dataset with one reference to it. *)
Definition vlen_string : Datatype := mkDatatype 9 0x101 16 None None None [] [].

Definition sample_heap_get (address : jsn) (index : Z) : result (option unit) :=
  if bool_decide (address = Some 4096) && (index =? 1) then Ok (Some tt) else Ok None.

Definition sample_heap_string (object : unit) (encoding : string) : result string :=
  Ok "hi"%string.

Definition reference : jsval := JVarLen 2 (Some 4096) 1.

Definition space_1x1 : Dataspace := mkDataspace 2 [Some 1; Some 1].
Definition space_1 : Dataspace := mkDataspace 1 [Some 1].

(** Superblocks.  [superblock_v0 base] is a version-0 superblock with the
    given low byte pair of the base address, followed by the root symbol
    table entry; [superblock_v1] is the same file in version 1, with the
    indexed-storage K and its two reserved bytes; [superblock_v2 base] is a
    version-2 superblock whose root object header (version 2, no messages)
    follows at address 44. *)
Definition file_signature : list Z := [0x89; 0x48; 0x44; 0x46; 0x0D; 0x0A; 0x1A; 0x0A].
Definition undefined_address : list Z := [255; 255; 255; 255; 255; 255; 255; 255].
Definition address (low high : Z) : list Z := [low; high; 0; 0; 0; 0; 0; 0].

Definition root_entry : list Z :=
  address 0 0 ++ address 96 0 ++ [0; 0; 0; 0] ++ [0; 0; 0; 0]
  ++ [0; 0; 0; 0; 0; 0; 0; 0; 0; 0; 0; 0; 0; 0; 0; 0].

Definition superblock_v0 (base : Z) : list u8 :=
  bytes (file_signature ++ [0; 0; 0; 0; 0; 8; 8; 0; 4; 0; 16; 0; 0; 0; 0; 0]
         ++ address base 0 ++ undefined_address ++ address 96 0 ++ undefined_address
         ++ root_entry).

Definition superblock_v1 : list u8 :=
  bytes (file_signature ++ [1; 0; 0; 0; 0; 8; 8; 0; 4; 0; 16; 0; 0; 0; 0; 0; 32; 0; 0; 0]
         ++ address 0 0 ++ undefined_address ++ address 100 0 ++ undefined_address
         ++ root_entry).

Definition superblock_v2 (version base : Z) : list u8 :=
  bytes (file_signature ++ [version; 8; 8; 0]
         ++ address base 0 ++ undefined_address ++ address 51 0 ++ address 44 0
         ++ [79; 72; 68; 82; 2; 0; 0]).

(** A reader at position 16 of a 32-byte buffer. *)
Definition reader_at_16 : Reader :=
  mkReader (bytes (replicate 32 0)) (Some 16) 0 (Some 8) (Some 8).

Definition empty_header : DataObjectHeader unit := mkHeader unit [] [] [] ∅.

(** A 3 x 5 dataset of 2-byte elements stored in six 2 x 2 chunks, the
    chunks of the last row and of the last column reaching past the
    dataset. *)
Definition no_inflate (input : list u8) : result (list u8) :=
  Throw (PlainError "no archive").

Definition sample_chunks : list ChunkNode :=
  [ mkChunkNode (bytes [1; 2; 3; 4; 5; 6; 7; 8]) [0; 0; 0] 0;
    mkChunkNode (bytes [11; 12; 13; 14; 15; 16; 17; 18]) [0; 2; 0] 0;
    mkChunkNode (bytes [21; 22; 23; 24; 25; 26; 27; 28]) [0; 4; 0] 0;
    mkChunkNode (bytes [31; 32; 33; 34; 35; 36; 37; 38]) [2; 0; 0] 0;
    mkChunkNode (bytes [41; 42; 43; 44; 45; 46; 47; 48]) [2; 2; 0] 0;
    mkChunkNode (bytes [51; 52; 53; 54; 55; 56; 57; 58]) [2; 4; 0] 0 ].

(** A pipeline of 33 filters, the first 32 of them deflate filters and the
    last one a filter the reader does not know, with an inflater that
    returns its input, and a one-byte dataset in one chunk whose filter
    mask has bit 0 set. *)
Definition identity_inflate (input : list u8) : result (list u8) := Ok input.

Definition long_pipeline : list Filter :=
  replicate 32 (mkFilter 1 "deflate" 0 []) ++ [mkFilter 99 "unknown" 0 []].

Definition masked_chunk : ChunkNode := mkChunkNode (bytes [7]) [0; 0] 1.

(** ** Readers for the properties of the accessors *)

Definition four_bytes : Reader := BinaryReader_new (bytes [0x34; 0x12; 0xff; 0x00]).

Definition unaligned : Reader := advance 5 (BinaryReader_new (bytes [1; 2; 3; 4; 5; 6])).

Definition heap_block : Reader := BinaryReader_new (bytes [72; 69; 65; 80; 0; 0; 0; 0]).

(** ** A file image with a symbol-table node, a local heap and two B-trees *)

(** At 0 a symbol-table node with one entry of cache type 1; at 48 a local
    heap whose data are at 80; at 88 a group B-tree with one leaf entry for
    the node at 0; at 136 a chunk B-tree with one leaf entry for the four
    bytes at 200. *)
Definition sample_image : list u8 :=
  bytes ([83; 78; 79; 68; 1; 0; 1; 0]
         ++ address 1 0 ++ address 44 1 ++ [1; 0; 0; 0; 0; 0; 0; 0]
         ++ address 88 0 ++ address 48 0
         ++ [72; 69; 65; 80; 0; 0; 0; 0]
         ++ address 8 0 ++ undefined_address ++ address 80 0
         ++ [0; 97; 98; 99; 0; 0; 0; 0]
         ++ [84; 82; 69; 69; 0; 0; 1; 0] ++ undefined_address ++ undefined_address
         ++ address 0 0 ++ address 0 0 ++ address 1 0
         ++ [84; 82; 69; 69; 1; 0; 1; 0] ++ undefined_address ++ undefined_address
         ++ [4; 0; 0; 0; 0; 0; 0; 0] ++ address 0 0 ++ address 0 0 ++ address 0 0
         ++ address 200 0
         ++ [10; 20; 30; 40]).

Definition sample_reader : Reader := mkReader sample_image (Some 0) 0 (Some 8) (Some 8).

(** A text decoder for the examples: one character per byte. *)
Definition latin1 (encoding : string) (data : list u8) : string :=
  string_of_list_ascii (map (fun b => ascii_of_nat (Z.to_nat (u8_val b))) data).

(** ** Messages *)

(** A version-1 dataspace of shape 3 x 5 with maximum sizes, and a
    version-3 chunked layout of dimensionality 3 with 2 x 2 chunks of 2-byte
    elements. *)
Definition dataspace_message : Reader :=
  mkReader (bytes ([1; 2; 1; 0; 0; 0; 0; 0]
                   ++ address 3 0 ++ address 5 0 ++ address 3 0 ++ address 5 0))
           (Some 0) 0 (Some 8) (Some 8).

Definition layout_message : Reader :=
  mkReader (bytes ([3; 2; 3] ++ address 136 0 ++ [2; 0; 0; 0; 2; 0; 0; 0; 2; 0; 0; 0]))
           (Some 0) 0 (Some 8) (Some 8).

Definition chunked_layout : DataLayout :=
  mkDataLayout (Some 3) 2 (Some 136) None (Some [2; 2]) (Some 2).

(** ** A group whose symbol table has two entries with the name "d" *)

Definition first_twin : SymbolTableEntry := mkSymbolTableEntry (Some 1) (Some 100) None None.
Definition second_twin : SymbolTableEntry := mkSymbolTableEntry (Some 1) (Some 200) None None.

Definition twin_children (e : SymbolTableEntry)
  : result (list (string * SymbolTableEntry)) :=
  Ok [("d"%string, first_twin); ("d"%string, second_twin)].

Definition twin_parent : Group unit :=
  Group_new unit (Some (mkSymbolTableEntry (Some 0) (Some 0) (Some 88) (Some 48))) None "" "".

(** A fixed-point datatype message: version 1, class 0, flags 0x08
    (signed), size 4, bit offset 0 and precision 32.  The values of an
    enumeration are not read in the examples. *)
Definition datatype_message : Reader :=
  mkReader (bytes [0x10; 0x08; 0; 0; 4; 0; 0; 0; 0; 0; 32; 0]) (Some 0) 0 (Some 8) (Some 8).

Definition no_values (base : Datatype) : R jsval := ret JNull.

(** A filter description with a name length of 0: id 1 (deflate), flags
    0, one client data value (the level 6), then eight more bytes. *)
Definition filter_message : Reader :=
  mkReader (bytes [1; 0; 0; 0; 0; 0; 1; 0; 6; 0; 0; 0; 7; 7; 7; 7; 7; 7; 7; 7])
           (Some 0) 0 (Some 8) (Some 8).

(** A version-1 filter pipeline message with the filter above. *)
Definition pipeline_message : Reader :=
  mkReader (bytes ([1; 1; 0; 0; 0; 0; 0; 0] ++ [1; 0; 0; 0; 0; 0; 1; 0; 6; 0; 0; 0; 7; 7]))
           (Some 0) 0 (Some 8) (Some 8).

(** A symbol table whose local heap does not carry its signature: the
    walk of [_decodeGroups] raises. *)
Definition corrupt_symbol_table (e : SymbolTableEntry)
  : result (list (string * SymbolTableEntry)) :=
  Throw (Hdf5Error "Invalid block signature.").

(** * Properties *)

(** ** hdf5.Datatype getters *)

(** For class 0 the getter's signedness test depends on whether the whole
    flags word is zero, not on bit 3. *)
Lemma Datatype_type_fixed_point (d : Datatype) :
  _class d = 0 -> js_land (_flags d) 0xfff6 = 0 ->
  (_size d = 1 \/ _size d = 2 \/ _size d = 4 \/ _size d = 8) ->
  Datatype_type d =
    Ok (match _size d with
        | 1 => if (_flags d =? 0)%Z then "uint8" else "int8"
        | 2 => if (_flags d =? 0)%Z then "uint16" else "int16"
        | 4 => if (_flags d =? 0)%Z then "uint32" else "int32"
        | _ => if (_flags d =? 0)%Z then "uint64" else "int64"
        end)%string.
Proof.
  intros Hc Hf Hs. destruct d as [c f s bo bp b ns vs]; simpl in *; subst c.
  cbv beta iota. rewrite Hf. change (0 =? 0) with true. cbv beta iota.
  unfold js_logical_and. destruct (f =? 0) eqn:E.
  - rewrite E. destruct Hs as [-> | [-> | [-> | ->]]]; reflexivity.
  - change (8 =? 0) with false.
    destruct Hs as [-> | [-> | [-> | ->]]]; reflexivity.
Qed.

(** C2.  The getter departs from the specification, which names a
    fixed-point type unsigned exactly when (flags & 0x08) = 0: a big-endian
    unsigned 8-bit integer has flags 0x01, so (flags & 0xfff6) = 0 and
    (flags & 0x08) = 0, yet the getter answers with the signed name. *)
Theorem Datatype_type_big_endian_unsigned :
  js_land (_flags (fixed_point 0x01 1)) 0xfff6 = 0 /\
  js_land (_flags (fixed_point 0x01 1)) 0x08 = 0 /\
  Datatype_type (fixed_point 0x01 1) = Ok "int8"%string.
Proof. repeat split. Qed.

(** The property read by [littleEndian] does not exist, so the getter never
    looks at the parsed flags. *)
Lemma Datatype_littleEndian_constant (d : Datatype) :
  Datatype_littleEndian d = true.
Proof.
  unfold Datatype_littleEndian.
  destruct (_class d) as [ | [ | | ] | ]; reflexivity.
Qed.

(** C3.  The getter departs from the specification, for which a class-0
    or class-1 datatype is little-endian exactly when bit 0 of its flags is
    clear: a class-0 datatype whose flags have bit 0 set (big-endian) is
    still reported little-endian. *)
Theorem Datatype_littleEndian_big_endian_flag :
  _class (fixed_point 0x01 4) = 0 /\
  js_land (_flags (fixed_point 0x01 4)) 0x01 <> 0 /\
  Datatype_littleEndian (fixed_point 0x01 4) = true.
Proof. repeat split. discriminate. Qed.

(** ** Strings *)

Lemma substring_length_le (n m : nat) (s : string) :
  (String.length (String.substring n m s) <= m)%nat.
Proof.
  revert n m. induction s as [ | c s IH]; intros [ | n] [ | m]; simpl; try lia.
  - specialize (IH 0%nat m). lia.
  - apply (IH n 0%nat).
  - apply (IH n (S m)).
Qed.

Lemma substring_length_rest (n m : nat) (s : string) :
  (String.length (String.substring n m s) <= String.length s - n)%nat.
Proof.
  revert n m. induction s as [ | c s IH]; intros [ | n] [ | m]; simpl; try lia.
  - specialize (IH 0%nat m). lia.
  - apply (IH n 0%nat).
  - apply (IH n (S m)).
Qed.

Lemma substring_past_end (n m : nat) (s : string) :
  (String.length s <= n)%nat -> String.substring n m s = ""%string.
Proof.
  revert n m. induction s as [ | c s IH]; intros [ | n] [ | m]; simpl; intros H;
    try reflexivity; try lia; apply IH; lia.
Qed.

Lemma indexOf_slash_lt (p : string) (i : nat) :
  indexOf_slash p = Some i -> (i < String.length p)%nat.
Proof.
  unfold indexOf_slash. intros H. apply String.index_correct1 in H. simpl in H.
  destruct (Nat.lt_ge_cases i (String.length p)) as [Hlt | Hge]; [exact Hlt | ].
  rewrite substring_past_end in H by exact Hge. discriminate.
Qed.

Lemma head_shorter (p : string) (i : nat) :
  indexOf_slash p = Some i -> (String.length (substring_to i p) < String.length p)%nat.
Proof.
  intros H. apply indexOf_slash_lt in H. unfold substring_to.
  pose proof (substring_length_le 0 i p). lia.
Qed.

Lemma tail_shorter (p : string) (i : nat) :
  indexOf_slash p = Some i ->
  (String.length (substring_from (S i) p) < String.length p)%nat.
Proof.
  intros H. apply indexOf_slash_lt in H. unfold substring_from.
  pose proof (substring_length_rest (S i) (String.length p - S i) p). lia.
Qed.

(** The segment before the first "/" contains no "/". *)
Lemma head_has_no_slash (p : string) (i : nat) :
  indexOf_slash p = Some i -> indexOf_slash (substring_to i p) = None.
Proof.
  unfold indexOf_slash, substring_to. revert i.
  induction p as [ | b p IH]; intros i; [discriminate | ].
  cbn [String.index String.prefix].
  destruct (ascii_dec "/" b) as [<- | Hne].
  - destruct p; intros [= <-]; reflexivity.
  - destruct (String.index 0 "/" p) as [j | ] eqn:Hj; [ | discriminate].
    intros [= <-]. cbn [String.substring String.index String.prefix].
    destruct (ascii_dec "/" b) as [Heq | _]; [contradiction | ].
    rewrite (IH j eq_refl). reflexivity.
Qed.

(** ** hdf5.Group *)

Section GroupProperties.

Context (Payload : Type).
Context (symbol_table_children :
           SymbolTableEntry -> result (list (string * SymbolTableEntry))).
Context (link_children :
           DataObjectHeader Payload -> result (list (string * DataObjectHeader Payload))).

Local Abbreviation decodeGroups := (_decodeGroups Payload symbol_table_children link_children).
Local Abbreviation group_fuel := (group_fuel Payload symbol_table_children link_children).
Local Abbreviation group := (Group_group Payload symbol_table_children link_children).

(** Every group that [_decodeGroups] stores under a key was constructed
    with that key as its name and the path of the decoding group as its
    parent path. *)
Lemma foldl_children {A} (mk : string -> A -> Group Payload) (parent : string)
      (children : list (string * A)) (acc : gmap string (Group Payload)) key child :
  (forall n a, _name _ (mk n a) = n /\
               _path _ (mk n a) = _path _ (Group_new Payload None None parent n)) ->
  (forall k c, acc !! k = Some c ->
               _name _ c = k /\ _path _ c = _path _ (Group_new Payload None None parent k)) ->
  foldl (fun groups ch => <[fst ch := mk (fst ch) (snd ch)]> groups) acc children !! key
    = Some child ->
  _name _ child = key /\ _path _ child = _path _ (Group_new Payload None None parent key).
Proof.
  intros Hmk. revert acc. induction children as [ | [n a] children IH]; intros acc Hacc; simpl.
  - apply Hacc.
  - apply IH. intros k c. destruct (decide (n = k)) as [-> | Hne].
    + rewrite lookup_insert_eq. intros [= <-]. apply Hmk.
    + rewrite lookup_insert_ne by exact Hne. apply Hacc.
Qed.

Lemma decodeGroups_child (g : Group Payload) groups key child :
  decodeGroups g = Ok groups -> groups !! key = Some child ->
  _name _ child = key /\
  _path _ child = _path _ (Group_new Payload None None (_path _ g) key).
Proof.
  unfold _decodeGroups. intros Hd Hl.
  destruct (_entry _ g) as [entry | ].
  - destruct (truthy (treeAddress entry) || truthy (heapAddress entry)).
    + destruct (symbol_table_children entry) as [children | | ]; simpl in Hd; try discriminate.
      injection Hd as <-.
      apply (foldl_children (fun n e => Group_new Payload (Some e) None (_path _ g) n)
                            (_path _ g) children ∅ key child); [ | | exact Hl].
      * intros n a. split; reflexivity.
      * intros k c Hk. rewrite lookup_empty in Hk. discriminate.
    + injection Hd as <-. rewrite lookup_empty in Hl. discriminate.
  - destruct (_dataObjectHeader _ g) as [header | ]; [ | discriminate].
    destruct (link_children header) as [children | | ]; simpl in Hd; try discriminate.
    injection Hd as <-.
    apply (foldl_children (fun n h => Group_new Payload None (Some h) (_path _ g) n)
                          (_path _ g) children ∅ key child); [ | | exact Hl].
    + intros n a. split; reflexivity.
    + intros k c Hk. rewrite lookup_empty in Hk. discriminate.
Qed.

Lemma append_length (a b : string) :
  String.length (a ++ b) = (String.length a + String.length b)%nat.
Proof. induction a as [ | c a IH]; simpl; [reflexivity | rewrite IH; reflexivity]. Qed.

(** A group with a non-empty name never has the path "/". *)
Lemma named_path_not_slash entry header (parentPath name : string) :
  name <> ""%string ->
  _path _ (Group_new Payload entry header parentPath name) <> "/"%string.
Proof.
  intros Hn Hp. apply (f_equal String.length) in Hp. simpl in Hp.
  assert (1 <= String.length name)%nat by (destruct name; [congruence | simpl; lia]).
  destruct (String.eqb_spec parentPath "/") as [-> | _];
    rewrite ?append_length in Hp; simpl in Hp; rewrite ?append_length in Hp; simpl in Hp; lia.
Qed.

(** C9, as the code has it.  The root group, built with an empty parent
    path and an empty name, has the path "/"; its children have the path
    "/" followed by their name; a child of a group whose path is not "/"
    has the parent's path, "/" and its name; and the path of a group with
    a non-empty name is not "/". *)
Theorem Group_path_composition entry header (parentPath name : string)
        groups key child :
  decodeGroups (Group_new Payload entry header parentPath name) = Ok groups ->
  groups !! key = Some child ->
  _path _ (Group_new Payload entry header "" "") = "/"%string /\
  _name _ child = key /\
  (parentPath = ""%string -> name = ""%string -> _path _ child = ("/" ++ key)%string) /\
  (_path _ (Group_new Payload entry header parentPath name) <> "/"%string ->
   _path _ child =
     (_path _ (Group_new Payload entry header parentPath name) ++ "/" ++ key)%string) /\
  (name <> ""%string ->
   _path _ (Group_new Payload entry header parentPath name) <> "/"%string).
Proof.
  intros Hd Hl.
  destruct (decodeGroups_child _ groups key child Hd Hl) as [Hname Hpath].
  split; [reflexivity | ]. split; [exact Hname | ].
  split; [ | split].
  - intros -> ->. rewrite Hpath. reflexivity.
  - intros Hne. rewrite Hpath.
    set (p := _path _ (Group_new Payload entry header parentPath name)) in *.
    unfold Group_new at 1. simpl.
    destruct (String.eqb_spec p "/"); [contradiction | reflexivity].
  - apply named_path_not_slash.
Qed.

(** Fuel beyond the length of the path changes nothing. *)
Lemma group_fuel_enough (n m : nat) (g : Group Payload) (p : string) :
  (String.length p < n)%nat -> (String.length p < m)%nat ->
  group_fuel n g p = group_fuel m g p.
Proof.
  revert m g p. induction n as [ | n IH]; intros [ | m] g p Hn Hm; try lia.
  simpl. destruct (decodeGroups g) as [groups | | ]; simpl; try reflexivity.
  destruct (groups !! p); [reflexivity | ].
  destruct (indexOf_slash p) as [i | ] eqn:Hi; [ | reflexivity].
  pose proof (head_shorter p i Hi). pose proof (tail_shorter p i Hi).
  rewrite (IH m g (substring_to i p)) by lia.
  destruct (group_fuel m g (substring_to i p)) as [[h | ] | | ]; simpl; try reflexivity.
  apply IH; lia.
Qed.

(** [group(path)] unfolds as the method body reads. *)
Lemma Group_group_unfold (g : Group Payload) (p : string) :
  group g p =
    let! groups := decodeGroups g in
    match groups !! p with
    | Some child => Ok (Some child)
    | None =>
        match indexOf_slash p with
        | Some i =>
            let! head := group g (substring_to i p) in
            match head with
            | Some child => group child (substring_from (S i) p)
            | None => Ok None
            end
        | None => Ok None
        end
    end.
Proof.
  unfold Group_group at 1. simpl.
  destruct (decodeGroups g) as [groups | | ]; simpl; try reflexivity.
  destruct (groups !! p); [reflexivity | ].
  destruct (indexOf_slash p) as [i | ] eqn:Hi; [ | reflexivity].
  pose proof (head_shorter p i Hi). pose proof (tail_shorter p i Hi).
  unfold Group_group.
  rewrite (group_fuel_enough (String.length p) (S (String.length (substring_to i p))))
    by lia.
  destruct (group_fuel _ g (substring_to i p)) as [[h | ] | | ]; try reflexivity.
  change (group_fuel (String.length p) h (substring_from (S i) p)
          = group_fuel (S (String.length (substring_from (S i) p))) h
                       (substring_from (S i) p)).
  apply group_fuel_enough; lia.
Qed.

(** A path without "/" is looked up in the child table and nowhere else. *)
Lemma Group_group_segment (g : Group Payload) (p : string) groups :
  decodeGroups g = Ok groups -> indexOf_slash p = None ->
  group g p = Ok (groups !! p).
Proof.
  intros Hd Hi. rewrite Group_group_unfold, Hd. simpl.
  destruct (groups !! p); [reflexivity | ]. rewrite Hi. reflexivity.
Qed.

(** [group(path)] returns or throws whenever the child tables do: the
    recursion itself never exhausts the fuel of the model. *)
Lemma Group_group_terminates (n : nat) :
  (forall g, decodeGroups g <> OutOfFuel) ->
  forall (g : Group Payload) (p : string),
    (String.length p < n)%nat -> group g p <> OutOfFuel.
Proof.
  intros Hdecode. induction n as [ | n IH]; intros g p Hn; [lia | ].
  rewrite Group_group_unfold.
  destruct (decodeGroups g) as [groups | e | ] eqn:Hd; simpl.
  - destruct (groups !! p); [discriminate | ].
    destruct (indexOf_slash p) as [i | ] eqn:Hi; [ | discriminate].
    pose proof (head_shorter p i Hi). pose proof (tail_shorter p i Hi).
    destruct (group g (substring_to i p)) as [[h | ] | e | ] eqn:Hh; simpl.
    + apply IH. lia.
    + discriminate.
    + discriminate.
    + exfalso. exact (IH g (substring_to i p) ltac:(lia) Hh).
  - discriminate.
  - exfalso. exact (Hdecode g Hd).
Qed.

(** C10, as the code has it.  [group(p)] starts with [_decodeGroups()],
    and what that call raises, [group(p)] raises.  For a group whose child
    table decodes: [group(p)] returns the child named [p] when there is
    one; otherwise, when [p] contains a "/", [group(head)] returns without
    raising, and [group(p)] is [group(head).group(tail)] when that is a
    group and [null] when it is [null]; with no "/" in [p] it is [null]. *)
Theorem Group_group_lookup (g : Group Payload) (p : string) :
  (forall groups,
      decodeGroups g = Ok groups ->
      match groups !! p with
      | Some child => group g p = Ok (Some child)
      | None =>
          match indexOf_slash p with
          | Some i =>
              group g (substring_to i p) = Ok (groups !! substring_to i p) /\
              match groups !! substring_to i p with
              | Some head => group g p = group head (substring_from (S i) p)
              | None => group g p = Ok None
              end
          | None => group g p = Ok None
          end
      end) /\
  (forall e, decodeGroups g = Throw e -> group g p = Throw e).
Proof.
  split.
  - intros groups Hd. rewrite (Group_group_unfold g p), Hd. simpl.
    destruct (groups !! p) as [child | ]; [reflexivity | ].
    destruct (indexOf_slash p) as [i | ] eqn:Hi; [ | reflexivity].
    rewrite (Group_group_segment g (substring_to i p) groups Hd (head_has_no_slash p i Hi)).
    split; [reflexivity | ]. simpl.
    destruct (groups !! substring_to i p); reflexivity.
  - intros e Hd. rewrite (Group_group_unfold g p), Hd. reflexivity.
Qed.

End GroupProperties.

(** The paths in the sample file: "/", "/g" and "/g/a". *)
Lemma sample_paths :
  _path _ sample_root = "/"%string /\
  Group_group unit no_symbol_table sample_links sample_root "g" = Ok (Some sample_g) /\
  match Group_group unit no_symbol_table sample_links sample_root "g/a" with
  | Ok (Some a) => _path _ a = "/g/a"%string
  | _ => False
  end.
Proof. repeat split. Qed.

(** C9 does not hold as the specification states it: the root group's
    path is "/", not the empty string; and below a child of the root whose
    name is empty (its path is "/" again) a group named "a" has the path
    "/a", not the parent's path followed by "/a". *)
Lemma root_path_is_not_empty :
  _path _ (Group_new unit None (Some (header_tag 0)) "" "") <> ""%string /\
  _path _ (Group_new unit None (Some (header_tag 1)) "/" "") = "/"%string /\
  _path _ (Group_new unit None (Some (header_tag 3))
                     (_path _ (Group_new unit None (Some (header_tag 1)) "/" "")) "a")
    <> (_path _ (Group_new unit None (Some (header_tag 1)) "/" "") ++ "/" ++ "a")%string.
Proof. repeat split; discriminate. Qed.

Lemma Group_path_composition_witness :
  _decodeGroups unit no_symbol_table sample_links sample_g
    = Ok {[ "a"%string := Group_new unit None (Some (header_tag 3)) "/g" "a" ]} /\
  _path _ (Group_new unit None (Some (header_tag 3)) "/g" "a") = "/g/a"%string.
Proof.
  assert (Hd : _decodeGroups unit no_symbol_table sample_links sample_g
               = Ok {[ "a"%string := Group_new unit None (Some (header_tag 3)) "/g" "a" ]})
    by reflexivity.
  split; [exact Hd | ].
  destruct (Group_path_composition unit no_symbol_table sample_links
              None (Some (header_tag 1)) "/" "g" _ "a"%string _ Hd (lookup_singleton_eq _ _))
    as (_ & _ & _ & Hdeep & _).
  apply Hdeep. discriminate.
Defined.

(** The claim as the specification words it, for every group, does not
    hold: for a group whose symbol table cannot be read, [group] raises the
    error of [_decodeGroups] on a path that names no child and has no "/",
    where the specification has [null]. *)
Lemma Group_group_raises :
  indexOf_slash "zzz" = None /\
  Group_group unit corrupt_symbol_table sample_links twin_parent "zzz"
  = Throw (Hdf5Error "Invalid block signature.").
Proof. split; reflexivity. Qed.

Lemma Group_group_lookup_witness :
  Group_group unit no_symbol_table sample_links sample_root "g/a"
  = Group_group unit no_symbol_table sample_links sample_g "a".
Proof.
  assert (Hd : _decodeGroups unit no_symbol_table sample_links sample_root
               = Ok (<["x"%string := Group_new unit None (Some (header_tag 2)) "/" "x"]>
                       {[ "g"%string := sample_g ]}))
    by reflexivity.
  pose proof (proj1 (Group_group_lookup unit no_symbol_table sample_links sample_root "g/a")
                    _ Hd) as H.
  vm_compute in H. vm_compute. destruct H as [_ H]. exact H.
Defined.

(** ** hdf5.Dataspace.decode *)

Section DecodeProperties.

Context (HeapObject : Type).
Context (GlobalHeap_get : jsn -> Z -> result (option HeapObject)).
Context (heap_object_string : HeapObject -> string -> result string).

Local Abbreviation decodeArray := (_decodeArray HeapObject GlobalHeap_get heap_object_string).
Local Abbreviation decode := (Dataspace_decode HeapObject GlobalHeap_get heap_object_string).

Lemma decode_rows_unchanged (recurse : jsval -> result jsval) (items : list jsval) :
  (forall item, recurse item = Ok item) ->
  forall (count j : nat), (j + count <= length items)%nat ->
  decode_rows count recurse (JArr items) j = Ok (JArr items).
Proof.
  intros Hrec count. induction count as [ | count IH]; intros j Hj; [reflexivity | ].
  simpl. destruct (Z.ltb_spec (Z.of_nat j) 0) as [Hneg | _]; [lia | ].
  rewrite Nat2Z.id. rewrite Hrec. simpl.
  destruct (lookup_lt_is_Some_2 items j ltac:(lia)) as [x Hx]. rewrite Hx. simpl.
  rewrite bool_decide_eq_true_2 by lia.
  rewrite list_insert_id by exact Hx. apply IH. lia.
Qed.

(** An array of two or more dimensions comes out of [decode] exactly as
    it went in, whatever the datatype and the heap. *)
Lemma Dataspace_decode_nested_unchanged (fuel : nat) (dimensions : Z)
      (n : Z) (second : jsn) (more : list jsn) datatype (items : list jsval)
      (globalHeap : jsval) :
  dimensions <> 0 -> 0 <= n <= Z.of_nat (length items) ->
  decode (S (S fuel)) (mkDataspace dimensions (Some n :: second :: more)) datatype
         (JArr items) globalHeap = Ok (JArr items).
Proof.
  intros Hd Hn. unfold Dataspace_decode. simpl _dimensions.
  destruct (Z.eqb_spec dimensions 0) as [ | _]; [contradiction | ].
  cbn -[decode_rows decode_leaves Z.of_nat Z.add].
  destruct (Z.of_nat (S (S (length (map jsval_of_jsn more)))) + -1) eqn:E; [lia | | ].
  - apply decode_rows_unchanged; [reflexivity | ]. simpl. lia.
  - apply decode_rows_unchanged; [reflexivity | ]. simpl. lia.
Qed.

End DecodeProperties.

(** C4.  [Dataspace.decode] departs from the specification, which has
    every leaf at every depth replaced by [Datatype.decode] with the global
    heap: in a 1 x 1 dataset of variable-length strings the reference is
    left as it was read, both by [Dataspace.decode] with the global heap and
    by the call in [Variable.value], where replacing every leaf gives the
    string "hi"; a dataset of one dimension is decoded. *)
Theorem Dataspace_decode_leaves_nested_references :
  Dataspace_decode unit sample_heap_get sample_heap_string 3 space_1x1 vlen_string
                   (JArr [JArr [reference]]) JGlobalHeap
    = Ok (JArr [JArr [reference]]) /\
  Variable_value_decode unit sample_heap_get sample_heap_string 3 space_1x1 vlen_string
                        (JArr [JArr [reference]])
    = Ok (JArr [JArr [reference]]) /\
  decode_every_leaf unit sample_heap_get sample_heap_string [1; 1]%nat vlen_string
                    (JArr [JArr [reference]])
    = Ok (JArr [JArr [JStr "hi"]]) /\
  Dataspace_decode unit sample_heap_get sample_heap_string 3 space_1 vlen_string
                   (JArr [reference]) JGlobalHeap
    = Ok (JArr [JStr "hi"]).
Proof. repeat split. Qed.

(** In [Variable.value] even a one-dimensional dataset of variable-length
    strings is not decoded: the array itself is passed where the global
    heap is expected. *)
Lemma Variable_value_decode_type_error :
  Variable_value_decode unit sample_heap_get sample_heap_string 3 space_1 vlen_string
                        (JArr [reference])
    = Throw (TypeError "globalHeap.get is not a function").
Proof. reflexivity. Qed.

(** ** The reader cursor *)

Lemma bindR_inv {A B} (m : R A) (k : A -> R B) (r : Reader) (res : B * Reader) :
  bindR m k r = Ok res -> exists a r', m r = Ok (a, r') /\ k a r' = Ok res.
Proof.
  unfold bindR. destruct (m r) as [[a r'] | | ]; [eauto | discriminate | discriminate].
Qed.

Ltac inv_bind H :=
  let a := fresh "a" in
  let r := fresh "r" in
  let Hm := fresh "Hm" in
  apply bindR_inv in H; destruct H as (a & r & Hm & H).

(** [seek(position); skip(size)] leaves the cursor at [position + size]. *)
Lemma seek_skip_position (pos : jsn) (size : Z) (r r1 r2 : Reader) :
  seek pos r = Ok (tt, r1) -> skip size r1 = Ok (tt, r2) ->
  position r2 = jadd pos (Some size).
Proof.
  unfold seek, skip. intros H1 H2.
  destruct (jgt _ _) in H1; [discriminate | ]. injection H1 as <-.
  simpl in H2. destruct (jgt _ _) in H2; [discriminate | ]. injection H2 as <-.
  unfold position. simpl. destruct pos; simpl; [f_equal; lia | reflexivity].
Qed.

Lemma seek_skip_succeeds (pos : jsn) (size : Z) (r : Reader) :
  jgt pos (Some (_length r)) = false ->
  jgt (jadd pos (Some size)) (Some (_length r)) = false ->
  exists r2, (seek pos ;;; skip size) r = Ok (tt, r2).
Proof.
  intros H1 H2. unfold bindR, seek, skip, _length in *. cbn [_buffer _offset _position].
  rewrite H1. cbn [_buffer _offset _position]. change (0 + size) with size.
  rewrite H2. eauto.
Qed.

(** ** hdf5.DataObjectHeader._readMessage *)

Section ObjectHeaderProperties.

Context (Payload : Type).
Context (construct : message_class -> R Payload).

Local Abbreviation dispatching := (dispatch Payload construct).
Local Abbreviation readMessage := (_readMessage Payload construct).

Ltac dispatch_leaf H :=
  unfold stored, bindR, ret, raise in H;
  repeat match type of H with
         | context [if ?b then _ else _] => destruct b
         | context [construct ?m ?r] => destruct (construct m r) as [[? ?] | | ]
         | context [ObjectHeaderContinuation_new ?r] =>
             destruct (ObjectHeaderContinuation_new r) as [[? ?] | | ]
         end;
  discriminate H.

(** Only NIL makes the [switch] return without reaching its end. *)
Lemma dispatch_not_NIL h (type size flags : Z) (r r1 : Reader) :
  type <> 0 -> dispatching h type size flags r <> Ok (None, r1).
Proof.
  intros Ht H. unfold dispatch in H.
  destruct type as [ | p | p]; [congruence | | discriminate H].
  do 6 (try (match goal with q : positive |- _ => destruct q end; try dispatch_leaf H)).
Qed.

(** C5, as the code has it.  For a message type other than NIL, whenever
    [_readMessage] returns it returns [true] with the reader at the
    position where the payload started plus [size], whatever cursor the
    message constructor left; it does return when the constructor returned
    and that position is inside the file.  For NIL it returns [false] and
    leaves the reader where the payload starts. *)
Theorem readMessage_restores_position h (type size flags : Z) (r : Reader) :
  type <> 0 ->
  (forall next h' r',
      readMessage h type size flags r = Ok ((next, h'), r') ->
      next = true /\ position r' = jadd (position r) (Some size)) /\
  (forall h' cursor,
      dispatching h type size flags r = Ok (Some h', cursor) ->
      jgt (position r) (Some (_length cursor)) = false ->
      jgt (jadd (position r) (Some size)) (Some (_length cursor)) = false ->
      exists r', readMessage h type size flags r = Ok ((true, h'), r') /\
                 position r' = jadd (position r) (Some size)) /\
  readMessage h 0 size flags r = Ok ((false, h), r).
Proof.
  intros Ht. split; [ | split; [ | reflexivity]].
  - intros next h' r' H. unfold _readMessage, get_position in H.
    unfold bindR at 1 in H. inv_bind H.
    destruct a as [h1 | ]; [ | exfalso; exact (dispatch_not_NIL _ _ _ _ _ _ Ht Hm)].
    inv_bind H. inv_bind H. injection H as <- <- <-.
    destruct a, a0. split; [reflexivity | ].
    exact (seek_skip_position _ _ _ _ _ Hm0 Hm1).
  - intros h' cursor Hd H1 H2.
    destruct (seek_skip_succeeds (position r) size cursor H1 H2) as [r2 Hr2].
    exists r2. unfold _readMessage, get_position. unfold bindR at 1 2. rewrite Hd.
    pose proof Hr2 as Hr2'. unfold bindR in Hr2'.
    destruct (seek (position r) cursor) as [[[] r1] | | ] eqn:Hs; try discriminate.
    unfold bindR. rewrite Hs, Hr2'. split; [reflexivity | ].
    exact (seek_skip_position _ _ _ _ _ Hs Hr2').
Qed.

End ObjectHeaderProperties.

(** C5 does not hold for NIL: a NIL message of 8 bytes whose payload
    starts at position 16 leaves the reader at 16, not at 24. *)
Lemma readMessage_NIL_keeps_position :
  match _readMessage unit no_payload empty_header 0 8 0 reader_at_16 with
  | Ok (_, r') => position reader_at_16 = Some 16 /\ position r' <> Some (16 + 8)
  | _ => False
  end.
Proof. split; [reflexivity | discriminate]. Qed.

Lemma readMessage_restores_position_witness :
  exists r', _readMessage unit no_payload empty_header 3 8 0 reader_at_16
             = Ok ((true, assign unit empty_header "datatype" (Some tt)), r') /\
             position r' = Some 24.
Proof.
  destruct (readMessage_restores_position unit no_payload empty_header 3 8 0 reader_at_16
              ltac:(discriminate)) as (_ & Hreturns & _).
  exact (Hreturns _ reader_at_16 eq_refl eq_refl eq_refl).
Defined.

(** ** hdf5.File.read *)

Lemma version_switch {A} (v : Z) (old new other : A) :
  match v with 0 | 1 => old | 2 | 3 => new | _ => other end
  = if (v =? 0) || (v =? 1) then old
    else if (v =? 2) || (v =? 3) then new else other.
Proof.
  destruct v as [ | p | p]; try reflexivity.
  destruct p as [[p | p | ] | [p | p | ] | ]; reflexivity.
Qed.

(** The byte that [File.read] takes as the superblock version is the ninth
    byte of the file. *)
Lemma version_byte (data : list u8) (b : u8) :
  data !! 8%nat = Some b ->
  exists r, (skip 8 ;;; byte) (BinaryReader_new data) = Ok (u8_val b, r).
Proof.
  intros Hb. pose proof (lookup_lt_Some _ _ _ Hb) as Hlen.
  unfold bindR, skip, byte, take, bindR, skip, ret, view_get, _length, BinaryReader_new.
  cbn [_buffer _offset _position _offsetSize _lengthSize jadd jgt].
  destruct (Z.ltb_spec (Z.of_nat (length data)) (0 + (0 + 8))) as [ | _]; [lia | ].
  cbn [_buffer _offset _position _offsetSize _lengthSize jadd jgt].
  destruct (Z.ltb_spec (Z.of_nat (length data)) (0 + (0 + 8 + 1))) as [ | _]; [lia | ].
  cbn [_buffer _offset _position _offsetSize _lengthSize jadd jgt].
  destruct (Z.ltb_spec (0 + (0 + 8)) 0) as [ | _]; [lia | ].
  destruct (Z.ltb_spec (Z.of_nat (length data)) (0 + (0 + 8) + Z.of_nat 1)) as [ | _]; [lia | ].
  cbn [orb]. eexists. do 2 f_equal.
  change (Z.to_nat (0 + (0 + 8))) with 8%nat.
  assert (Hd : skipn 8 data !! 0%nat = Some b) by (rewrite lookup_drop; exact Hb).
  destruct (skipn 8 data) as [ | x rest]; [discriminate | ].
  injection Hd as ->. simpl. lia.
Qed.

Section FileProperties.

Context (Payload : Type).
Context (construct : message_class -> R Payload).

Local Abbreviation read := (File_read Payload construct).
Local Abbreviation read_body := (File_read_body Payload construct).

(** Whatever the version, a root group returned by [read()] has the
    path "/". *)
Lemma File_read_root_path (fuel : nat) (data : list u8) f :
  read fuel data = Ok f -> _path _ (_rootGroup _ f) = "/"%string.
Proof.
  unfold File_read. destruct (read_body fuel (BinaryReader_new data)) as [[f' r] | | ] eqn:H;
    try discriminate.
  intros [= <-]. unfold File_read_body in H.
  inv_bind H. inv_bind H. rewrite version_switch in H.
  destruct ((a0 =? 0) || (a0 =? 1)); [ | destruct ((a0 =? 2) || (a0 =? 3))].
  - do 14 inv_bind H.
    destruct (negb _); [discriminate H | ].
    inv_bind H. injection H as <- _. reflexivity.
  - do 7 inv_bind H. injection H as <- _. reflexivity.
  - discriminate H.
Qed.

(** For the versions 0 and 1 the base address is checked: a file that is
    read has the base address 0. *)
Lemma File_read_old_base_address (fuel : nat) (data : list u8) (b : u8) f :
  data !! 8%nat = Some b -> u8_val b = 0 \/ u8_val b = 1 ->
  read fuel data = Ok f -> _baseAddress _ f = Some 0.
Proof.
  intros Hb Hv. unfold File_read.
  destruct (read_body fuel (BinaryReader_new data)) as [[f' r] | | ] eqn:H; try discriminate.
  intros [= <-]. unfold File_read_body in H.
  destruct (version_byte data b Hb) as [r0 Hr0].
  unfold bindR at 1 2 in H. unfold bindR at 1 in Hr0.
  destruct (skip 8 (BinaryReader_new data)) as [[[] r1] | | ]; try discriminate.
  rewrite Hr0 in H. rewrite version_switch in H.
  replace ((u8_val b =? 0) || (u8_val b =? 1)) with true in H
    by (destruct Hv as [-> | ->]; reflexivity).
  do 14 inv_bind H.
  destruct (bool_decide (a9 = Some 0)) eqn:Hbase; [ | discriminate H].
  apply bool_decide_eq_true_1 in Hbase. simpl in H.
  inv_bind H. injection H as <- _. exact Hbase.
Qed.

(** A version-1 superblock is never read: after the indexed-storage K,
    [read()] calls a method that the File class does not have. *)
Lemma File_read_version_1 (fuel : nat) (data : list u8) (b : u8) f :
  data !! 8%nat = Some b -> u8_val b = 1 -> read fuel data <> Ok f.
Proof.
  intros Hb Hv. unfold File_read.
  destruct (read_body fuel (BinaryReader_new data)) as [[f' r] | | ] eqn:H; try discriminate.
  intros _. unfold File_read_body in H.
  destruct (version_byte data b Hb) as [r0 Hr0].
  unfold bindR at 1 2 in H. unfold bindR at 1 in Hr0.
  destruct (skip 8 (BinaryReader_new data)) as [[[] r1] | | ]; try discriminate.
  rewrite Hr0, Hv in H. cbv iota in H.
  do 10 inv_bind H. change (0 <? 1) with true in Hm8. cbv iota in Hm8.
  inv_bind Hm8. inv_bind Hm8. discriminate Hm10.
Qed.

(** A version byte other than 0, 1, 2 and 3 is rejected with the
    unsupported-version error. *)
Lemma File_read_unsupported_version (fuel : nat) (data : list u8) (b : u8) :
  data !! 8%nat = Some b -> 3 < u8_val b ->
  read fuel data = Throw (Hdf5Error "Unsupported Superblock version").
Proof.
  intros Hb Hv. unfold File_read, File_read_body.
  destruct (version_byte data b Hb) as [r0 Hr0].
  unfold bindR at 1 2. unfold bindR at 1 in Hr0.
  destruct (skip 8 (BinaryReader_new data)) as [[[] r1] | | ]; try discriminate.
  rewrite Hr0, version_switch.
  destruct (Z.eqb_spec (u8_val b) 0); [lia | ].
  destruct (Z.eqb_spec (u8_val b) 1); [lia | ].
  destruct (Z.eqb_spec (u8_val b) 2); [lia | ].
  destruct (Z.eqb_spec (u8_val b) 3); [lia | ].
  reflexivity.
Qed.

End FileProperties.

(** C6.  [File.read] departs from the specification, which requires the
    base address to be zero for every superblock version: a version-2
    superblock, and likewise a version-3 one, with the base address 1 is
    read, and the root group is produced; the same base address in a
    version-0 superblock is rejected. *)
Theorem File_read_new_superblock_nonzero_base :
  (exists f, File_read unit no_payload 1 (superblock_v2 2 1) = Ok f /\
             _baseAddress _ f = Some 1 /\ _path _ (_rootGroup _ f) = "/"%string) /\
  (exists f, File_read unit no_payload 1 (superblock_v2 3 1) = Ok f /\
             _baseAddress _ f = Some 1) /\
  File_read unit no_payload 1 (superblock_v0 1) = Throw (Hdf5Error "Base address is not zero.").
Proof.
  split; [ | split].
  - eexists. split; [vm_compute; reflexivity | split; reflexivity].
  - eexists. split; [vm_compute; reflexivity | reflexivity].
  - vm_compute. reflexivity.
Qed.

(** C7.  [File.read] departs from the specification, which has every
    version in 0..3 read: a well-formed version-1 superblock is recognised by
    [File.open], and [read()] fails on it with a TypeError; the same file in
    version 0 and the files in versions 2 and 3 are read, and version 4 is
    rejected with the unsupported-version error. *)
Theorem File_read_version_1_superblock :
  File_open superblock_v1 = Some superblock_v1 /\
  File_read unit no_payload 1 superblock_v1 = Throw (TypeError "this.skip is not a function") /\
  (exists f, File_read unit no_payload 1 (superblock_v0 0) = Ok f) /\
  (exists f, File_read unit no_payload 1 (superblock_v2 2 0) = Ok f) /\
  (exists f, File_read unit no_payload 1 (superblock_v2 3 0) = Ok f) /\
  File_read unit no_payload 1 (superblock_v2 4 0)
    = Throw (Hdf5Error "Unsupported Superblock version").
Proof.
  split; [vm_compute; reflexivity | ].
  split; [vm_compute; reflexivity | ].
  split; [eexists; vm_compute; reflexivity | ].
  split; [eexists; vm_compute; reflexivity | ].
  split; [eexists; vm_compute; reflexivity | ].
  vm_compute; reflexivity.
Qed.

(** ** hdf5.Filter._lzf *)

Lemma u8_val_range (b : u8) : 0 <= u8_val b < 256.
Proof. unfold u8_val. pose proof (Byte.to_N_bounded b). lia. Qed.

Lemma input_at_nat (input : list u8) (k : nat) :
  input_at input (Z.of_nat k) = from_option u8_val 0 (input !! k).
Proof.
  unfold input_at. destruct (Z.ltb_spec (Z.of_nat k) 0); [lia | ].
  rewrite Nat2Z.id. reflexivity.
Qed.

Lemma drop_cons_inv (input : list u8) (k : nat) (c : u8) (rest : list u8) :
  skipn k input = c :: rest ->
  input !! k = Some c /\ skipn (S k) input = rest /\ (k < length input)%nat.
Proof.
  intros H. assert (Hc : input !! k = Some c).
  { rewrite <- (Nat.add_0_r k), <- lookup_drop, H. reflexivity. }
  split; [exact Hc | ]. split.
  - rewrite (drop_S _ _ _ Hc) in H. congruence.
  - exact (lookup_lt_Some _ _ _ Hc).
Qed.

Lemma drop_app_inv (input : list u8) (k : nat) (run rest : list u8) :
  (k <= length input)%nat -> skipn k input = run ++ rest ->
  firstn (length run) (skipn k input) = run /\
  skipn (k + length run) input = rest /\ (k + length run <= length input)%nat.
Proof.
  intros Hk H. split; [ | split].
  - rewrite H. apply take_app_length.
  - rewrite <- drop_drop, H. apply drop_app_length.
  - apply (f_equal length) in H. rewrite length_drop, length_app in H. lia.
Qed.

Lemma shift_32 : Z.shiftl 1 5 = 32.
Proof. reflexivity. Qed.

(** *** The copy of a back-reference *)

Lemma typed_set_length (array : list u8) (i : Z) (b : u8) :
  length (typed_set array i b) = length array.
Proof. unfold typed_set. destruct (i <? 0); [reflexivity | apply length_insert]. Qed.

Lemma copy_back_length (len : nat) (output : list u8) (o ref : Z) :
  length (copy_back len output o ref) = length output.
Proof.
  revert output o ref. induction len as [ | len IH]; intros; simpl; [reflexivity | ].
  rewrite IH. apply typed_set_length.
Qed.

Lemma copy_back_checked_agrees (len : nat) (output : list u8) (o ref : Z) :
  0 <= o -> o + Z.of_nat len <= Z.of_nat (length output) ->
  copy_back_checked len output o ref = Some (copy_back len output o ref).
Proof.
  revert output o ref. induction len as [ | len IH]; intros output o ref Ho Hfit; simpl;
    [reflexivity | ].
  destruct (Z.leb_spec 0 o); [ | lia].
  destruct (Z.ltb_spec o (Z.of_nat (length output))); [ | lia].
  simpl. apply IH; [lia | rewrite typed_set_length; lia].
Qed.

Lemma typed_array_set_fits (output source : list u8) (o : Z) :
  0 <= o -> o + Z.of_nat (length source) <= Z.of_nat (length output) ->
  exists out, typed_array_set output source o = Ok out /\ length out = length output.
Proof.
  intros Ho Hfit. unfold typed_array_set.
  destruct (Z.ltb_spec (Z.of_nat (length output)) (o + Z.of_nat (length source))); [lia | ].
  eexists. split; [reflexivity | ].
  rewrite !length_app, length_take, length_drop. lia.
Qed.

(** *** Both passes on a well-formed stream *)

(** From the state [(i, o)] with a well-formed rest of the input, the first
    pass returns a size, and on an output array of that size the second
    pass stores inside the array only and ends with [o] at that size. *)
Lemma lzf_passes_agree (suffix : list u8) (o : Z) :
  lzf_stream suffix o ->
  forall (fuel : nat) (input : list u8) (k : nat),
    suffix = skipn k input -> (k <= length input)%nat ->
    (length suffix < fuel)%nat -> 0 <= o ->
    exists o', lzf_size fuel input (Z.of_nat k) o = Ok o' /\ o <= o' /\
      forall output, Z.of_nat (length output) = o' ->
        exists out, lzf_copy fuel input output (Z.of_nat k) o = Ok (out, o') /\
                    length out = length output /\
                    lzf_copy_checked fuel input output (Z.of_nat k) o = Some (out, o').
Proof.
  induction 1 as [o | c run rest o Hc Hrun Hrest IH | c low rest o Hc Hs Hoff Hrest IH
                  | c ext low rest o Hs Hoff Hrest IH];
    intros fuel input k Hsuffix Hk Hfuel Ho; destruct fuel as [ | fuel]; try (simpl in Hfuel; lia).
  - (* end of input *)
    assert (k = length input).
    { symmetry in Hsuffix. apply (f_equal length) in Hsuffix.
      rewrite length_drop in Hsuffix. simpl in Hsuffix. lia. }
    subst k. exists o. simpl. rewrite Z.ltb_irrefl.
    split; [reflexivity | ]. split; [lia | ]. intros output _. exists output. auto.
  - (* literal run *)
    symmetry in Hsuffix. destruct (drop_cons_inv _ _ _ _ Hsuffix) as (Hat & Hnext & Hlt).
    destruct (drop_app_inv _ _ _ _ Hlt Hnext) as (Htake & Hdrop & Hle).
    assert (Hlen : Z.of_nat (S k + length run) = Z.of_nat k + 1 + (u8_val c + 1)) by lia.
    specialize (IH fuel input (S k + length run)%nat (eq_sym Hdrop) Hle).
    destruct IH as (o' & Hsize & Hmono & Hcopy).
    { simpl in Hfuel. rewrite length_app in Hfuel. lia. }
    { pose proof (u8_val_range c). lia. }
    exists o'. cbn [lzf_size lzf_copy lzf_copy_checked].
    destruct (Z.ltb_spec (Z.of_nat k) (Z.of_nat (length input))); [ | lia].
    rewrite input_at_nat, Hat, shift_32. cbn [from_option].
    destruct (Z.ltb_spec (u8_val c) 32); [ | lia].
    destruct (Z.ltb_spec (Z.of_nat (length input)) (Z.of_nat k + 1 + (u8_val c + 1))); [lia | ].
    rewrite <- Hlen. split; [exact Hsize | ]. split; [pose proof (u8_val_range c); lia | ].
    intros output Hout.
    assert (Hsub : subarray input (Z.of_nat k + 1) (Z.of_nat (S k + length run)) = run).
    { unfold subarray.
      replace (Z.to_nat (Z.of_nat (S k + length run) - (Z.of_nat k + 1))) with (length run) by lia.
      replace (Z.to_nat (Z.of_nat k + 1)) with (S k) by lia. exact Htake. }
    rewrite Hsub.
    destruct (typed_array_set_fits output run o Ho ltac:(lia)) as (out1 & Hset & Hlen1).
    rewrite Hset. cbn [bind].
    destruct (Hcopy out1 ltac:(lia)) as (out & Hc1 & Hc2 & Hc3).
    exists out. rewrite Hc1, Hc3. split; [reflexivity | ]. split; [lia | reflexivity].
  - (* back-reference *)
    symmetry in Hsuffix. destruct (drop_cons_inv _ _ _ _ Hsuffix) as (Hat & Hnext & Hlt).
    destruct (drop_cons_inv _ _ _ _ Hnext) as (Hat' & Hnext' & Hlt').
    specialize (IH fuel input (S (S k)) (eq_sym Hnext') Hlt').
    destruct IH as (o' & Hsize & Hmono & Hcopy).
    { simpl in Hfuel. lia. }
    { pose proof (Z.shiftr_nonneg (u8_val c) 5). pose proof (u8_val_range c). lia. }
    exists o'. cbn [lzf_size lzf_copy lzf_copy_checked].
    destruct (Z.ltb_spec (Z.of_nat k) (Z.of_nat (length input))); [ | lia].
    rewrite input_at_nat, Hat, shift_32. cbn [from_option].
    destruct (Z.ltb_spec (u8_val c) 32); [lia | ].
    destruct (Z.leb_spec (Z.of_nat (length input)) (Z.of_nat k + 1)); [lia | ].
    destruct (Z.eqb_spec (Z.shiftr (u8_val c) 5) 7); [contradiction | ].
    cbn [bind fst snd].
    replace (Z.of_nat k + 1) with (Z.of_nat (S k)) by lia.
    rewrite input_at_nat, Hat'. cbn [from_option].
    replace (Z.of_nat (S k) + 1) with (Z.of_nat (S (S k))) by lia.
    unfold back_offset in Hoff.
    destruct (Z.ltb_spec (o - Z.shiftl (Z.land (u8_val c) 31) 8 - 1 - u8_val low) 0); [lia | ].
    split; [exact Hsize | ].
    pose proof (Z.shiftr_nonneg (u8_val c) 5). pose proof (u8_val_range c).
    split; [lia | ].
    intros output Hout.
    rewrite copy_back_checked_agrees by lia.
    destruct (Hcopy (copy_back (Z.to_nat (Z.shiftr (u8_val c) 5 + 2)) output o
                               (o - Z.shiftl (Z.land (u8_val c) 31) 8 - 1 - u8_val low))
                    ltac:(rewrite copy_back_length; exact Hout)) as (out & Hc1 & Hc2 & Hc3).
    exists out. rewrite Hc1, Hc3. split; [reflexivity | ].
    split; [rewrite Hc2; apply copy_back_length | reflexivity].
  - (* back-reference with a length byte *)
    symmetry in Hsuffix. destruct (drop_cons_inv _ _ _ _ Hsuffix) as (Hat & Hnext & Hlt).
    destruct (drop_cons_inv _ _ _ _ Hnext) as (Hat' & Hnext' & Hlt').
    destruct (drop_cons_inv _ _ _ _ Hnext') as (Hat'' & Hnext'' & Hlt'').
    pose proof (u8_val_range c). pose proof (u8_val_range ext).
    assert (Hc : 32 <= u8_val c).
    { destruct (Z.lt_ge_cases (u8_val c) 32) as [Hsmall | ]; [ | assumption].
      rewrite Z.shiftr_div_pow2 in Hs by lia.
      assert (u8_val c / 2 ^ 5 = 0) by (apply Z.div_small; lia). lia. }
    specialize (IH fuel input (S (S (S k))) (eq_sym Hnext'') Hlt'').
    destruct IH as (o' & Hsize & Hmono & Hcopy).
    { simpl in Hfuel. lia. }
    { lia. }
    exists o'. cbn [lzf_size lzf_copy lzf_copy_checked].
    destruct (Z.ltb_spec (Z.of_nat k) (Z.of_nat (length input))); [ | lia].
    rewrite input_at_nat, Hat, shift_32. cbn [from_option].
    destruct (Z.ltb_spec (u8_val c) 32); [lia | ].
    destruct (Z.leb_spec (Z.of_nat (length input)) (Z.of_nat k + 1)); [lia | ].
    rewrite Hs. change (7 =? 7) with true. cbv iota.
    replace (Z.of_nat k + 1) with (Z.of_nat (S k)) by lia.
    rewrite input_at_nat, Hat'. cbn [from_option].
    replace (Z.of_nat (S k) + 1) with (Z.of_nat (S (S k))) by lia.
    destruct (Z.leb_spec (Z.of_nat (length input)) (Z.of_nat (S (S k)))); [lia | ].
    cbn [bind fst snd].
    rewrite input_at_nat, Hat''. cbn [from_option].
    replace (Z.of_nat (S (S k)) + 1) with (Z.of_nat (S (S (S k)))) by lia.
    unfold back_offset in Hoff.
    destruct (Z.ltb_spec (o - Z.shiftl (Z.land (u8_val c) 31) 8 - 1 - u8_val low) 0); [lia | ].
    split; [exact Hsize | ]. split; [lia | ].
    intros output Hout.
    rewrite copy_back_checked_agrees by lia.
    destruct (Hcopy (copy_back (Z.to_nat (7 + u8_val ext + 2)) output o
                               (o - Z.shiftl (Z.land (u8_val c) 31) 8 - 1 - u8_val low))
                    ltac:(rewrite copy_back_length; exact Hout)) as (out & Hc1 & Hc2 & Hc3).
    exists out. rewrite Hc1, Hc3. split; [reflexivity | ].
    split; [rewrite Hc2; apply copy_back_length | reflexivity].
Qed.

(** *** The first pass on a defective stream *)

Lemma shiftr_small (c : Z) : 0 <= c < 32 -> Z.shiftr c 5 = 0.
Proof. intros H. rewrite Z.shiftr_div_pow2 by lia. apply Z.div_small. lia. Qed.

Lemma lzf_size_defect (suffix : list u8) (o : Z) :
  lzf_defect suffix o ->
  forall (fuel : nat) (input : list u8) (k : nat),
    suffix = skipn k input -> (k <= length input)%nat -> (length suffix < fuel)%nat ->
    lzf_size fuel input (Z.of_nat k) o = Throw lzf_error.
Proof.
  induction 1 as [suffix o Hdefect | c run rest o Hc Hrun Hrest IH
                  | c low rest o Hc Hs Hoff Hrest IH | c ext low rest o Hs Hoff Hrest IH];
    intros fuel input k Hsuffix Hk Hfuel; destruct fuel as [ | fuel]; try (simpl in Hfuel; lia).
  - destruct Hdefect as [(c & rest & -> & Hc & Hshort) | [(c & rest & -> & Hc & Hshort) | Hbefore]].
    + (* truncated literal run *)
      symmetry in Hsuffix. destruct (drop_cons_inv _ _ _ _ Hsuffix) as (Hat & Hnext & Hlt).
      apply (f_equal length) in Hnext. rewrite length_drop in Hnext.
      cbn [lzf_size].
      destruct (Z.ltb_spec (Z.of_nat k) (Z.of_nat (length input))); [ | lia].
      rewrite input_at_nat, Hat, shift_32. cbn [from_option].
      destruct (Z.ltb_spec (u8_val c) 32); [ | lia].
      destruct (Z.ltb_spec (Z.of_nat (length input)) (Z.of_nat k + 1 + (u8_val c + 1)));
        [reflexivity | lia].
    + (* truncated back-reference *)
      symmetry in Hsuffix. destruct (drop_cons_inv _ _ _ _ Hsuffix) as (Hat & Hnext & Hlt).
      cbn [lzf_size].
      destruct (Z.ltb_spec (Z.of_nat k) (Z.of_nat (length input))); [ | lia].
      rewrite input_at_nat, Hat, shift_32. cbn [from_option].
      destruct (Z.ltb_spec (u8_val c) 32); [lia | ].
      destruct (Z.leb_spec (Z.of_nat (length input)) (Z.of_nat k + 1)); [reflexivity | ].
      destruct (Z.eqb_spec (Z.shiftr (u8_val c) 5) 7) as [Hseven | Hother].
      * destruct rest as [ | x rest].
        { apply (f_equal length) in Hnext. rewrite length_drop in Hnext. simpl in Hnext. lia. }
        destruct (drop_cons_inv _ _ _ _ Hnext) as (_ & Hnext' & _).
        apply (f_equal length) in Hnext'. rewrite length_drop in Hnext'.
        simpl in Hshort.
        destruct (Z.leb_spec (Z.of_nat (length input)) (Z.of_nat k + 1 + 1));
          [reflexivity | lia].
      * apply (f_equal length) in Hnext. rewrite length_drop in Hnext. simpl in Hshort. lia.
    + (* back-reference before the start of the output *)
      destruct Hbefore as (c & low & rest & Hc & Hoff & Hshape).
      unfold back_offset in Hoff.
      destruct Hshape as [(Hs & ->) | (Hs & ext & ->)].
      * symmetry in Hsuffix. destruct (drop_cons_inv _ _ _ _ Hsuffix) as (Hat & Hnext & Hlt).
        destruct (drop_cons_inv _ _ _ _ Hnext) as (Hat' & Hnext' & Hlt').
        cbn [lzf_size].
        destruct (Z.ltb_spec (Z.of_nat k) (Z.of_nat (length input))); [ | lia].
        rewrite input_at_nat, Hat, shift_32. cbn [from_option].
        destruct (Z.ltb_spec (u8_val c) 32); [lia | ].
        destruct (Z.leb_spec (Z.of_nat (length input)) (Z.of_nat k + 1)); [reflexivity | ].
        destruct (Z.eqb_spec (Z.shiftr (u8_val c) 5) 7); [contradiction | ].
        cbn [bind fst snd].
        replace (Z.of_nat k + 1) with (Z.of_nat (S k)) by lia.
        rewrite input_at_nat, Hat'. cbn [from_option].
        destruct (Z.ltb_spec (o - Z.shiftl (Z.land (u8_val c) 31) 8 - 1 - u8_val low) 0);
          [reflexivity | lia].
      * symmetry in Hsuffix. destruct (drop_cons_inv _ _ _ _ Hsuffix) as (Hat & Hnext & Hlt).
        destruct (drop_cons_inv _ _ _ _ Hnext) as (Hat' & Hnext' & Hlt').
        destruct (drop_cons_inv _ _ _ _ Hnext') as (Hat'' & Hnext'' & Hlt'').
        cbn [lzf_size].
        destruct (Z.ltb_spec (Z.of_nat k) (Z.of_nat (length input))); [ | lia].
        rewrite input_at_nat, Hat, shift_32. cbn [from_option].
        destruct (Z.ltb_spec (u8_val c) 32); [lia | ].
        destruct (Z.leb_spec (Z.of_nat (length input)) (Z.of_nat k + 1)); [reflexivity | ].
        rewrite Hs. change (7 =? 7) with true. cbv iota.
        replace (Z.of_nat k + 1) with (Z.of_nat (S k)) by lia.
        rewrite input_at_nat, Hat'. cbn [from_option].
        replace (Z.of_nat (S k) + 1) with (Z.of_nat (S (S k))) by lia.
        destruct (Z.leb_spec (Z.of_nat (length input)) (Z.of_nat (S (S k)))); [reflexivity | ].
        cbn [bind fst snd].
        rewrite input_at_nat, Hat''. cbn [from_option].
        destruct (Z.ltb_spec (o - Z.shiftl (Z.land (u8_val c) 31) 8 - 1 - u8_val low) 0);
          [reflexivity | lia].
  - (* after a literal run *)
    symmetry in Hsuffix. destruct (drop_cons_inv _ _ _ _ Hsuffix) as (Hat & Hnext & Hlt).
    destruct (drop_app_inv _ _ _ _ Hlt Hnext) as (Htake & Hdrop & Hle).
    assert (Hlen : Z.of_nat (S k + length run) = Z.of_nat k + 1 + (u8_val c + 1)) by lia.
    specialize (IH fuel input (S k + length run)%nat (eq_sym Hdrop) Hle).
    cbn [lzf_size].
    destruct (Z.ltb_spec (Z.of_nat k) (Z.of_nat (length input))); [ | lia].
    rewrite input_at_nat, Hat, shift_32. cbn [from_option].
    destruct (Z.ltb_spec (u8_val c) 32); [ | lia].
    destruct (Z.ltb_spec (Z.of_nat (length input)) (Z.of_nat k + 1 + (u8_val c + 1))); [lia | ].
    rewrite <- Hlen. apply IH. simpl in Hfuel. rewrite length_app in Hfuel. lia.
  - (* after a back-reference *)
    symmetry in Hsuffix. destruct (drop_cons_inv _ _ _ _ Hsuffix) as (Hat & Hnext & Hlt).
    destruct (drop_cons_inv _ _ _ _ Hnext) as (Hat' & Hnext' & Hlt').
    specialize (IH fuel input (S (S k)) (eq_sym Hnext') Hlt').
    cbn [lzf_size].
    destruct (Z.ltb_spec (Z.of_nat k) (Z.of_nat (length input))); [ | lia].
    rewrite input_at_nat, Hat, shift_32. cbn [from_option].
    destruct (Z.ltb_spec (u8_val c) 32); [lia | ].
    destruct (Z.leb_spec (Z.of_nat (length input)) (Z.of_nat k + 1)); [lia | ].
    destruct (Z.eqb_spec (Z.shiftr (u8_val c) 5) 7); [contradiction | ].
    cbn [bind fst snd].
    replace (Z.of_nat k + 1) with (Z.of_nat (S k)) by lia.
    rewrite input_at_nat, Hat'. cbn [from_option].
    replace (Z.of_nat (S k) + 1) with (Z.of_nat (S (S k))) by lia.
    unfold back_offset in Hoff.
    destruct (Z.ltb_spec (o - Z.shiftl (Z.land (u8_val c) 31) 8 - 1 - u8_val low) 0); [lia | ].
    apply IH. simpl in Hfuel. lia.
  - (* after a back-reference with a length byte *)
    symmetry in Hsuffix. destruct (drop_cons_inv _ _ _ _ Hsuffix) as (Hat & Hnext & Hlt).
    destruct (drop_cons_inv _ _ _ _ Hnext) as (Hat' & Hnext' & Hlt').
    destruct (drop_cons_inv _ _ _ _ Hnext') as (Hat'' & Hnext'' & Hlt'').
    pose proof (u8_val_range c).
    assert (Hc : 32 <= u8_val c).
    { destruct (Z.lt_ge_cases (u8_val c) 32) as [Hsmall | ]; [ | assumption].
      rewrite shiftr_small in Hs by lia. discriminate. }
    specialize (IH fuel input (S (S (S k))) (eq_sym Hnext'') Hlt'').
    cbn [lzf_size].
    destruct (Z.ltb_spec (Z.of_nat k) (Z.of_nat (length input))); [ | lia].
    rewrite input_at_nat, Hat, shift_32. cbn [from_option].
    destruct (Z.ltb_spec (u8_val c) 32); [lia | ].
    destruct (Z.leb_spec (Z.of_nat (length input)) (Z.of_nat k + 1)); [lia | ].
    rewrite Hs. change (7 =? 7) with true. cbv iota.
    replace (Z.of_nat k + 1) with (Z.of_nat (S k)) by lia.
    rewrite input_at_nat, Hat'. cbn [from_option].
    replace (Z.of_nat (S k) + 1) with (Z.of_nat (S (S k))) by lia.
    destruct (Z.leb_spec (Z.of_nat (length input)) (Z.of_nat (S (S k)))); [lia | ].
    cbn [bind fst snd].
    rewrite input_at_nat, Hat''. cbn [from_option].
    replace (Z.of_nat (S (S k)) + 1) with (Z.of_nat (S (S (S k)))) by lia.
    unfold back_offset in Hoff.
    destruct (Z.ltb_spec (o - Z.shiftl (Z.land (u8_val c) 31) 8 - 1 - u8_val low) 0); [lia | ].
    apply IH. simpl in Hfuel. lia.
Qed.

(** Every input is a well-formed stream or has a defect. *)
Lemma lzf_stream_or_defect (n : nat) :
  forall (suffix : list u8) (o : Z),
    (length suffix < n)%nat -> lzf_stream suffix o \/ lzf_defect suffix o.
Proof.
  induction n as [ | n IH]; intros suffix o Hn; [lia | ].
  destruct suffix as [ | c rest]; [left; constructor | ].
  simpl in Hn. pose proof (u8_val_range c) as Hrange.
  destruct (Z.lt_ge_cases (u8_val c) 32) as [Hlit | Hback].
  - destruct (Z.lt_ge_cases (Z.of_nat (length rest)) (u8_val c + 1)) as [Hshort | Hlong].
    + right. apply defect_here. left. exists c, rest. auto.
    + rewrite <- (take_drop (Z.to_nat (u8_val c + 1)) rest).
      assert (Hrun : Z.of_nat (length (firstn (Z.to_nat (u8_val c + 1)) rest)) = u8_val c + 1)
        by (rewrite length_take; lia).
      destruct (IH (skipn (Z.to_nat (u8_val c + 1)) rest) (o + (u8_val c + 1)))
        as [Hstream | Hdefect].
      * rewrite length_drop. lia.
      * left. apply stream_literal; assumption.
      * right. apply defect_after_literal; assumption.
  - destruct (Z.eq_dec (Z.shiftr (u8_val c) 5) 7) as [Hseven | Hother].
    + destruct rest as [ | ext [ | low rest]].
      * right. apply defect_here. right. left. exists c, []. split; [reflexivity | ].
        split; [lia | ]. rewrite Hseven. simpl. lia.
      * right. apply defect_here. right. left. exists c, [ext]. split; [reflexivity | ].
        split; [lia | ]. rewrite Hseven. simpl. lia.
      * destruct (Z.le_gt_cases (back_offset c low) o) as [Hin | Hout].
        -- destruct (IH rest (o + (7 + u8_val ext + 2))) as [Hstream | Hdefect].
           ++ simpl in Hn. lia.
           ++ left. apply stream_back_long; assumption.
           ++ right. apply defect_after_back_long; assumption.
        -- right. apply defect_here. right. right. exists c, low, rest.
           split; [lia | ]. split; [lia | ]. right. split; [assumption | ]. exists ext. reflexivity.
    + destruct rest as [ | low rest].
      * right. apply defect_here. right. left. exists c, []. split; [reflexivity | ].
        split; [lia | ]. destruct (Z.eqb_spec (Z.shiftr (u8_val c) 5) 7); simpl; lia.
      * destruct (Z.le_gt_cases (back_offset c low) o) as [Hin | Hout].
        -- destruct (IH rest (o + (Z.shiftr (u8_val c) 5 + 2))) as [Hstream | Hdefect].
           ++ simpl in Hn. lia.
           ++ left. apply stream_back; assumption.
           ++ right. apply defect_after_back; assumption.
        -- right. apply defect_here. right. right. exists c, low, rest.
           split; [lia | ]. split; [lia | ]. left. split; [assumption | reflexivity].
Qed.

(** C8.  An input in which a token is a truncated literal run, a truncated
    back-reference or a back-reference to before the start of the output
    makes [_lzf] throw its decode error.  On every input that [_lzf]
    accepts, which are the well-formed streams, the size returned by the
    first pass is the value of [o] at the end of the copy pass and the
    length of the output array, and no store of the copy pass falls outside
    that array. *)
Theorem lzf_two_passes (input : list u8) :
  (lzf_defect input 0 -> _lzf input = Throw lzf_error) /\
  (forall out, _lzf input = Ok out ->
     lzf_stream input 0 /\
     exists o, lzf_size (lzf_fuel input) input 0 0 = Ok o /\
               Z.of_nat (length out) = o /\
               lzf_copy (lzf_fuel input) input (replicate (Z.to_nat o) u8_zero) 0 0
                 = Ok (out, o) /\
               lzf_copy_checked (lzf_fuel input) input (replicate (Z.to_nat o) u8_zero) 0 0
                 = Some (out, o)) /\
  (lzf_stream input 0 -> exists out, _lzf input = Ok out) /\
  (lzf_stream input 0 \/ lzf_defect input 0).
Proof.
  assert (Hdefect : lzf_defect input 0 -> _lzf input = Throw lzf_error).
  { intros H. unfold _lzf.
    pose proof (lzf_size_defect input 0 H (lzf_fuel input) input 0 eq_refl) as Hthrow.
    change (Z.of_nat 0) with 0 in Hthrow.
    rewrite Hthrow; [reflexivity | lia | unfold lzf_fuel; lia]. }
  assert (Hstream : lzf_stream input 0 ->
            exists out o, _lzf input = Ok out /\
              lzf_size (lzf_fuel input) input 0 0 = Ok o /\
              Z.of_nat (length out) = o /\
              lzf_copy (lzf_fuel input) input (replicate (Z.to_nat o) u8_zero) 0 0
                = Ok (out, o) /\
              lzf_copy_checked (lzf_fuel input) input (replicate (Z.to_nat o) u8_zero) 0 0
                = Some (out, o)).
  { intros H.
    destruct (lzf_passes_agree input 0 H (lzf_fuel input) input 0 eq_refl)
      as (o & Hsize & Hmono & Hcopy); [lia | unfold lzf_fuel; lia | lia | ].
    destruct (Hcopy (replicate (Z.to_nat o) u8_zero)) as (out & H1 & H2 & H3).
    { rewrite length_replicate. lia. }
    exists out, o. unfold _lzf. change (Z.of_nat 0) with 0 in *.
    rewrite Hsize. cbn [bind]. rewrite H1. cbn [bind fst].
    rewrite length_replicate in H2. repeat split; auto. lia. }
  pose proof (lzf_stream_or_defect (S (length input)) input 0 ltac:(lia)) as Hcases.
  split; [exact Hdefect | ]. split; [ | split; [ | exact Hcases]].
  - intros out Hout. destruct Hcases as [Hs | Hd].
    + split; [exact Hs | ]. destruct (Hstream Hs) as (out' & o & Hok & Hrest).
      rewrite Hok in Hout. injection Hout as <-. exists o. exact Hrest.
    + rewrite (Hdefect Hd) in Hout. discriminate.
  - intros Hs. destruct (Hstream Hs) as (out & o & Hok & _). eauto.
Qed.

(** ** The chunked case of hdf5.Variable.data *)

(** *** Products and strides *)

Lemma foldl_mul (shape : list Z) (a : Z) : foldl Z.mul a shape = a * product shape.
Proof.
  revert a. induction shape as [ | d shape IH]; intros a; simpl; [lia | ].
  rewrite IH. unfold product. simpl. lia.
Qed.

Lemma product_app (a b : list Z) : product (a ++ b) = product a * product b.
Proof.
  unfold product. induction a as [ | d a IH]; simpl; [lia | ]. rewrite IH. lia.
Qed.

Lemma product_rev (shape : list Z) : product (rev shape) = product shape.
Proof.
  induction shape as [ | d shape IH]; [reflexivity | ].
  simpl rev. rewrite product_app, IH. unfold product. simpl. lia.
Qed.

Lemma product_pos (shape : list Z) : Forall (fun d => 0 < d) shape -> 0 < product shape.
Proof.
  unfold product. induction 1 as [ | d shape Hd _ IH]; simpl; [lia | ]. lia.
Qed.

Lemma product_nonneg (shape : list Z) : Forall (fun d => 0 <= d) shape -> 0 <= product shape.
Proof.
  unfold product. induction 1 as [ | d shape Hd _ IH]; simpl; [lia | ]. lia.
Qed.

Lemma row_major_strides_length (shape : list Z) :
  length (row_major_strides shape) = length shape.
Proof. induction shape; simpl; congruence. Qed.

Lemma row_major_strides_lookup (shape : list Z) (i : nat) :
  (i < length shape)%nat ->
  row_major_strides shape !! i = Some (product (skipn (S i) shape)).
Proof.
  revert i. induction shape as [ | d shape IH]; intros i Hi; simpl in Hi; [lia | ].
  destruct i as [ | i]; [reflexivity | ]. simpl. apply IH. lia.
Qed.

(** The loop of the getter builds the row-major strides. *)
Lemma strides_loop_spec (shape : list Z) :
  forall (k : nat) (strides : list Z),
    (k <= length shape)%nat -> length strides = length shape ->
    (forall i, (k <= i)%nat -> strides !! i = row_major_strides shape !! i) ->
    strides_loop k shape (product (skipn k shape)) strides = row_major_strides shape.
Proof.
  induction k as [ | k IH]; intros strides Hk Hlen Hhigh.
  - simpl. apply list_eq. intros i. apply Hhigh. lia.
  - simpl.
    destruct (lookup_lt_is_Some_2 shape k ltac:(lia)) as [d Hd].
    rewrite (list_lookup_total_correct _ _ _ Hd).
    assert (Hprod : product (skipn k shape) = d * product (skipn (S k) shape)).
    { rewrite (drop_S _ _ _ Hd). reflexivity. }
    replace (product (skipn (S k) shape) * d) with (product (skipn k shape)) by lia.
    apply IH; [lia | rewrite length_insert; exact Hlen | ].
    intros i Hi. destruct (decide (k = i)) as [<- | Hne].
    + rewrite list_lookup_insert_eq by lia. symmetry. apply row_major_strides_lookup. lia.
    + rewrite list_lookup_insert_ne by exact Hne. apply Hhigh. lia.
Qed.

Lemma data_strides_spec (shape : list Z) :
  strides_loop (length shape) shape 1 (replicate (length shape) 0) = row_major_strides shape.
Proof.
  replace 1 with (product (skipn (length shape) shape)) by (rewrite drop_all; reflexivity).
  apply strides_loop_spec; [lia | apply length_replicate | ].
  intros i Hi. rewrite (lookup_ge_None_2 (replicate _ _)) by (rewrite length_replicate; lia).
  symmetry. apply lookup_ge_None_2. rewrite row_major_strides_length. lia.
Qed.

(** *** Coordinates with the fastest axis first *)

Lemma digits_length (dims : list Z) (c : Z) : length (digits dims c) = length dims.
Proof. revert c. induction dims as [ | d dims IH]; intros c; simpl; [reflexivity | ]. rewrite IH. reflexivity. Qed.

Lemma digits_zero (dims : list Z) : digits dims 0 = replicate (length dims) 0.
Proof.
  induction dims as [ | d dims IH]; simpl; [reflexivity | ].
  rewrite Zmod_0_l, Zdiv_0_l, IH. reflexivity.
Qed.

Lemma normalize_zeros (dims : list Z) (n : nat) :
  Forall (fun d => 0 < d) dims -> normalize dims (replicate n 0) = replicate n 0.
Proof.
  intros H. destruct H as [ | d dims Hd _]; destruct n as [ | n]; simpl; try reflexivity.
  destruct (Z.leb_spec d 0); [lia | reflexivity].
Qed.

(** Stepping to the next element is a bump of the fastest coordinate
    followed by the carries. *)
Lemma digits_next (dims : list Z) :
  Forall (fun d => 0 < d) dims ->
  forall c, 0 <= c -> normalize dims (bump (digits dims c)) = digits dims (c + 1).
Proof.
  induction 1 as [ | d dims Hd _ IH]; intros c Hc; [reflexivity | ].
  simpl. pose proof (Z.mod_pos_bound c d Hd) as Hr. pose proof (Z.div_mod c d ltac:(lia)) as Hq.
  destruct (Z.leb_spec d (c mod d + 1)) as [Hcarry | Hstay].
  - assert (Hdiv : (c + 1) / d = c / d + 1)
      by (symmetry; apply (Z.div_unique _ _ _ 0); lia).
    assert (Hmod : (c + 1) mod d = 0)
      by (symmetry; apply (Z.mod_unique _ _ (c / d + 1)); lia).
    rewrite Hdiv, Hmod, IH; [reflexivity | ].
    apply Z.div_pos; lia.
  - assert (Hdiv : (c + 1) / d = c / d)
      by (symmetry; apply (Z.div_unique _ _ _ (c mod d + 1)); lia).
    assert (Hmod : (c + 1) mod d = c mod d + 1)
      by (symmetry; apply (Z.mod_unique _ _ (c / d)); lia).
    rewrite Hdiv, Hmod. reflexivity.
Qed.

Lemma digits_app (a b : list Z) :
  Forall (fun d => 0 < d) a ->
  forall c, digits (a ++ b) c = digits a c ++ digits b (c / product a).
Proof.
  induction 1 as [ | d a Hd Ha IH]; intros c.
  - simpl. unfold product. simpl. rewrite Z.div_1_r. reflexivity.
  - simpl. rewrite IH. do 3 f_equal.
    change (product (d :: a)) with (d * product a).
    apply Z.div_div; [lia | apply product_pos; exact Ha].
Qed.

Lemma unravel_cons (d : Z) (inner : list Z) (c : Z) :
  unravel (d :: inner) c = (c / product inner) mod d :: unravel inner c.
Proof. reflexivity. Qed.

(** The coordinates of the oracle are the digits, slowest axis first. *)
Lemma unravel_digits (shape : list Z) (c : Z) :
  Forall (fun d => 0 < d) shape -> unravel shape c = rev (digits (rev shape) c).
Proof.
  induction 1 as [ | d inner Hd Hinner IH]; [reflexivity | ].
  rewrite unravel_cons, IH. simpl rev.
  rewrite digits_app by (apply Forall_rev; exact Hinner).
  rewrite rev_app_distr, product_rev. reflexivity.
Qed.

Lemma unravel_length (shape : list Z) (c : Z) : length (unravel shape c) = length shape.
Proof.
  unfold unravel. rewrite length_zip_with, row_major_strides_length. lia.
Qed.

(** *** The carry loop *)

Lemma bump_length (a : list Z) : length (bump a) = length a.
Proof. destruct a; reflexivity. Qed.

Lemma alter_zip_with_r (l k : list Z) (j : nat) :
  alter Z.succ j (zip_with Z.add l k) = zip_with Z.add l (alter Z.succ j k).
Proof.
  apply list_eq. intros i. rewrite list_lookup_alter, !lookup_zip_with, list_lookup_alter.
  destruct (decide (j = i)) as [-> | _]; [ | reflexivity].
  destruct (l !! i), (k !! i); simpl; try reflexivity. f_equal. lia.
Qed.

Lemma insert_zip_with_offset (offset cp : list Z) (i : nat) :
  (i < length offset)%nat ->
  <[i := offset !!! i]> (zip_with Z.add offset cp) = zip_with Z.add offset (<[i := 0]> cp).
Proof.
  intros Hi. destruct (lookup_lt_is_Some_2 offset i Hi) as [x Hx].
  rewrite (list_lookup_total_correct _ _ _ Hx).
  replace x with (x + 0) at 1 by lia.
  rewrite insert_zip_with, (list_insert_id offset i x Hx). reflexivity.
Qed.

(** On positions stored slowest axis first, followed by [tail], the carry
    loop over the first [length a] axes is [normalize] on the reversed
    list, and it keeps [data_pos] equal to [chunk_offset + chunk_pos]. *)
Lemma carry_spec (n : nat) :
  forall (a dims tail dims_tail offset : list Z),
    length a = n -> length dims = n -> (n + length tail <= length offset)%nat ->
    carry n (rev dims ++ dims_tail) offset (rev a ++ tail)
          (zip_with Z.add offset (rev a ++ tail))
    = (rev (normalize dims a) ++ tail,
       zip_with Z.add offset (rev (normalize dims a) ++ tail)).
Proof.
  induction n as [ | i IH]; intros a dims tail dims_tail offset Ha Hdims Hoff.
  - destruct a; [ | discriminate]. destruct dims; [ | discriminate]. reflexivity.
  - destruct a as [ | c a]; [discriminate | ]. destruct dims as [ | d dims]; [discriminate | ].
    injection Ha as Ha. injection Hdims as Hdims.
    simpl rev. rewrite <- !app_assoc. simpl app.
    cbn [carry normalize].
    rewrite (list_lookup_middle (rev a) tail c i) by (rewrite length_rev; lia).
    rewrite (list_lookup_middle (rev dims) dims_tail d i) by (rewrite length_rev; lia).
    cbn [jge].
    destruct (Z.leb_spec d c) as [Hcarry | Hstay]; [ | simpl rev; rewrite <- app_assoc; reflexivity].
    rewrite insert_zip_with_offset by lia.
    rewrite (insert_app_r_alt (rev a)) by (rewrite length_rev; lia).
    replace (i - length (rev a))%nat with 0%nat by (rewrite length_rev; lia).
    cbn [insert list_insert].
    assert (Hnext : (if bool_decide (0 < i)%nat
                     then carry i (rev dims ++ d :: dims_tail) offset
                            (alter Z.succ (i - 1)%nat (rev a ++ 0 :: tail))
                            (alter Z.succ (i - 1)%nat (zip_with Z.add offset (rev a ++ 0 :: tail)))
                     else carry i (rev dims ++ d :: dims_tail) offset (rev a ++ 0 :: tail)
                            (zip_with Z.add offset (rev a ++ 0 :: tail)))
                    = carry i (rev dims ++ d :: dims_tail) offset (rev (bump a) ++ 0 :: tail)
                            (zip_with Z.add offset (rev (bump a) ++ 0 :: tail))).
    { destruct a as [ | c' a].
      - simpl in Ha. subst i. reflexivity.
      - simpl in Ha. subst i. rewrite bool_decide_eq_true_2 by lia.
        rewrite alter_zip_with_r. simpl rev. rewrite <- !app_assoc. simpl app.
        rewrite (alter_app_r_alt _ (rev a)) by (rewrite length_rev; lia).
        replace (S (length a) - 1 - length (rev a))%nat with 0%nat by (rewrite length_rev; lia).
        reflexivity. }
    rewrite Hnext.
    rewrite (IH (bump a) dims (0 :: tail) (d :: dims_tail) offset)
      by (rewrite ?bump_length; simpl; lia).
    simpl rev. rewrite <- !app_assoc. reflexivity.
Qed.

(** *** The bounds test and the copy *)

Lemma index_loop_shift (count : nat) :
  forall (i : nat) (x s t : Z) (dp shape strides : list Z) (index : jsn),
    index_loop count (S i) (x :: dp) (s :: shape) (t :: strides) index
    = index_loop count i dp shape strides index.
Proof.
  induction count as [ | count IH]; intros; [reflexivity | ].
  simpl. destruct (jge (dp !! i) (shape !! i)); [reflexivity | ]. apply IH.
Qed.

Lemma in_bounds_cons (p s : Z) (pos shape : list Z) :
  in_bounds (p :: pos) (s :: shape) = (p <? s) && in_bounds pos shape.
Proof. reflexivity. Qed.

Lemma dot_cons (p t : Z) (pos strides : list Z) :
  dot (p :: pos) (t :: strides) = p * t + dot pos strides.
Proof. reflexivity. Qed.

(** The loop with its [break] computes the conjunction of the bounds tests
    and, when they all hold, the dot product with the strides. *)
Lemma index_loop_spec (pos : list Z) :
  forall (shape strides extra : list Z) (acc : Z),
    length shape = length pos -> length strides = length pos ->
    snd (index_loop (length pos) 0 (pos ++ extra) shape strides (Some acc))
      = in_bounds pos shape /\
    (in_bounds pos shape = true ->
     fst (index_loop (length pos) 0 (pos ++ extra) shape strides (Some acc))
       = Some (acc + dot pos strides)).
Proof.
  induction pos as [ | p pos IH]; intros shape strides extra acc Hshape Hstrides.
  - destruct shape; [ | discriminate]. destruct strides; [ | discriminate].
    simpl. split; [reflexivity | ]. intros _. unfold dot. simpl. f_equal. lia.
  - destruct shape as [ | s shape]; [discriminate | ].
    destruct strides as [ | t strides]; [discriminate | ].
    injection Hshape as Hshape. injection Hstrides as Hstrides.
    rewrite in_bounds_cons, dot_cons. cbn [length index_loop app lookup list_lookup jge].
    destruct (Z.leb_spec s p) as [Hout | Hin].
    + destruct (Z.ltb_spec p s); [lia | ]. split; [reflexivity | discriminate].
    + destruct (Z.ltb_spec p s); [ | lia]. cbn [jmul jadd andb].
      rewrite index_loop_shift.
      destruct (IH shape strides extra (acc + p * t) Hshape Hstrides) as [Hsnd Hfst].
      split; [exact Hsnd | ]. intros Hb. rewrite (Hfst Hb). f_equal. lia.
Qed.

Lemma copy_item_spec (n : nat) :
  forall (out chunk : list u8) (t c : Z) (s : nat),
    copy_item n out chunk (t + Z.of_nat s) (c + Z.of_nat s)
    = foldl (fun out k => typed_set out (t + Z.of_nat k) (typed_get chunk (c + Z.of_nat k)))
            out (seq s n).
Proof.
  induction n as [ | n IH]; intros out chunk t c s; [reflexivity | ].
  simpl.
  replace (t + Z.of_nat s + 1) with (t + Z.of_nat (S s)) by lia.
  replace (c + Z.of_nat s + 1) with (c + Z.of_nat (S s)) by lia.
  apply IH.
Qed.

Lemma copy_item_oracle (item_size : Z) (out chunk : list u8) (target chunk_index : Z) :
  copy_item (Z.to_nat item_size) out chunk (target * item_size) (chunk_index * item_size)
  = oracle_copy item_size out chunk target chunk_index.
Proof.
  unfold oracle_copy. rewrite <- copy_item_spec. simpl Z.of_nat.
  rewrite !Z.add_0_r. reflexivity.
Qed.

Lemma increment_last (a tail : list Z) :
  increment (rev a ++ tail) (Z.of_nat (length a) - 1) = rev (bump a) ++ tail.
Proof.
  unfold increment. destruct a as [ | c a].
  - reflexivity.
  - destruct (Z.ltb_spec (Z.of_nat (length (c :: a)) - 1) 0) as [Hneg | _];
      [simpl in Hneg; lia | ].
    simpl rev. rewrite <- !app_assoc. simpl app.
    rewrite alter_app_r_alt by (rewrite length_rev; simpl; lia).
    replace (Z.to_nat (Z.of_nat (length (c :: a)) - 1) - length (rev a))%nat with 0%nat
      by (rewrite length_rev; simpl; lia).
    reflexivity.
Qed.

Lemma increment_zip_with (offset cp : list Z) (i : Z) :
  increment (zip_with Z.add offset cp) i = zip_with Z.add offset (increment cp i).
Proof.
  unfold increment. destruct (i <? 0); [reflexivity | apply alter_zip_with_r].
Qed.

Lemma rev_replicate (n : nat) (x : Z) : rev (replicate n x) = replicate n x.
Proof.
  induction n as [ | n IH]; [reflexivity | ].
  simpl. rewrite IH. clear IH. induction n as [ | n IH]; [reflexivity | ].
  simpl. rewrite IH. reflexivity.
Qed.

(** *** One chunk *)

Section ScatterLoop.

Context (item_size : Z) (chunk_shape data_shape : list Z).
Context (chunk : list u8) (chunk_offset : list Z).
Context (Hrank : length chunk_shape = length data_shape).
Context (Hoffset : length chunk_offset = S (length data_shape)).
Context (Hpositive : Forall (fun d => 0 < d) chunk_shape).

Local Abbreviation at_element := (at_element chunk_shape data_shape chunk_offset).

Lemma zip_with_offset (pos : list Z) :
  length pos = length data_shape ->
  exists extra, zip_with Z.add chunk_offset (pos ++ [0])
                = zip_with Z.add chunk_offset pos ++ [extra].
Proof.
  intros Hpos.
  assert (Hsplit : exists main x, chunk_offset = main ++ [x] /\ length main = length pos).
  { exists (firstn (length pos) chunk_offset).
    assert (Hlast : length (skipn (length pos) chunk_offset) = 1%nat)
      by (rewrite length_drop; lia).
    destruct (skipn (length pos) chunk_offset) as [ | x [ | y rest]] eqn:Hdrop;
      try discriminate.
    exists x. split; [ | rewrite length_take; lia].
    rewrite <- Hdrop. symmetry. apply take_drop. }
  destruct Hsplit as (main & x & -> & Hmain).
  exists (x + 0). rewrite zip_with_app by exact Hmain. f_equal.
  rewrite zip_with_app_l, Hmain, take_ge, drop_ge by lia.
  simpl. rewrite app_nil_r. reflexivity.
Qed.

Lemma scatter_step_spec (c : nat) (s : scatter) :
  at_element c s ->
  at_element (S c)
    (scatter_step item_size chunk_shape data_shape (row_major_strides data_shape)
                  chunk chunk_offset (Z.of_nat c) s) /\
  data (scatter_step item_size chunk_shape data_shape (row_major_strides data_shape)
                     chunk chunk_offset (Z.of_nat c) s)
    = oracle_place item_size chunk_shape data_shape chunk chunk_offset (data s) c.
Proof.
  intros (a & Ha & Hnorm & Hcp & Hdp). unfold scatter_step, oracle_place.
  rewrite Hdp, Hcp.
  assert (Hcarry : carry (length data_shape) chunk_shape chunk_offset (rev a ++ [0])
                         (zip_with Z.add chunk_offset (rev a ++ [0]))
                   = (unravel chunk_shape (Z.of_nat c) ++ [0],
                      zip_with Z.add chunk_offset (unravel chunk_shape (Z.of_nat c) ++ [0]))).
  { rewrite <- (rev_involutive chunk_shape) at 1. rewrite <- (app_nil_r (rev (rev chunk_shape))).
    rewrite (carry_spec (length data_shape) a (rev chunk_shape) [0] [] chunk_offset);
      [ | exact Ha | rewrite length_rev; exact Hrank | simpl; lia ].
    rewrite Hnorm, <- unravel_digits by exact Hpositive. reflexivity. }
  rewrite Hcarry. cbn [fst snd].
  set (pos := unravel chunk_shape (Z.of_nat c)).
  assert (Hpos : length pos = length data_shape)
    by (unfold pos; rewrite unravel_length; exact Hrank).
  split.
  - (* the positions for the next element *)
    exists (bump (digits (rev chunk_shape) (Z.of_nat c))).
    cbn [chunk_pos data_pos].
    assert (Hpos' : pos = rev (digits (rev chunk_shape) (Z.of_nat c)))
      by (apply unravel_digits; exact Hpositive).
    assert (Hlen : length (digits (rev chunk_shape) (Z.of_nat c)) = length data_shape)
      by (rewrite digits_length, length_rev; exact Hrank).
    split; [rewrite bump_length; exact Hlen | ].
    split; [ | split].
    + rewrite digits_next by (try apply Forall_rev; try assumption; lia).
      f_equal. lia.
    + rewrite Hpos', <- Hlen. apply increment_last.
    + rewrite increment_zip_with. reflexivity.
  - (* the copy *)
    cbn [data].
    destruct (zip_with_offset pos Hpos) as [extra Hzip]. rewrite Hzip.
    set (dpos := zip_with Z.add chunk_offset pos).
    assert (Hdpos : length dpos = length data_shape)
      by (unfold dpos; rewrite length_zip_with; lia).
    replace (Z.to_nat (Z.of_nat (length (zip_with Z.add chunk_offset (rev a ++ [0]))) - 1))
      with (length dpos)
      by (rewrite length_zip_with, length_app, length_rev; simpl; lia).
    destruct (index_loop_spec dpos data_shape (row_major_strides data_shape) [extra] 0
                ltac:(lia) ltac:(rewrite row_major_strides_length; lia)) as [Hsnd Hfst].
    rewrite Hsnd. destruct (in_bounds dpos data_shape); [ | reflexivity].
    rewrite (Hfst eq_refl). cbn [Z.add]. apply copy_item_oracle.
Qed.

Lemma scatter_loop_spec (count : nat) :
  forall (c : nat) (s : scatter),
    at_element c s ->
    data (scatter_loop count item_size chunk_shape data_shape
                       (row_major_strides data_shape) chunk chunk_offset (Z.of_nat c) s)
    = foldl (oracle_place item_size chunk_shape data_shape chunk chunk_offset)
            (data s) (seq c count).
Proof.
  induction count as [ | count IH]; intros c s Hs; [reflexivity | ].
  simpl. destruct (scatter_step_spec c s Hs) as [Hnext Hdata].
  replace (Z.of_nat c + 1) with (Z.of_nat (S c)) by lia.
  rewrite (IH (S c) _ Hnext), Hdata. reflexivity.
Qed.

Lemma at_first_element (out : list u8) :
  at_element 0 (mkScatter (replicate (length chunk_offset) 0) chunk_offset out).
Proof.
  exists (replicate (length data_shape) 0). cbn [chunk_pos data_pos].
  split; [apply length_replicate | ]. split; [ | split].
  - rewrite normalize_zeros by (apply Forall_rev; exact Hpositive).
    rewrite digits_zero, length_rev, Hrank. reflexivity.
  - rewrite Hoffset. replace (S (length data_shape)) with (length data_shape + 1)%nat by lia.
    rewrite replicate_add, rev_replicate. reflexivity.
  - apply list_eq. intros i. rewrite lookup_zip_with.
    destruct (chunk_offset !! i) as [x | ] eqn:Hx; [ | reflexivity]. simpl.
    rewrite lookup_replicate_2 by (apply lookup_lt_Some in Hx; exact Hx).
    simpl. f_equal. lia.
Qed.

End ScatterLoop.

(** *** The filter mask *)

Lemma land_pow2 (a i : Z) :
  0 <= i -> (Z.land a (2 ^ i) =? 0) = negb (Z.testbit a i).
Proof.
  intros Hi.
  assert (H : Z.land a (2 ^ i) = if Z.testbit a i then 2 ^ i else 0).
  { apply Z.bits_inj'. intros n Hn. rewrite Z.land_spec, Z.pow2_bits_eqb by exact Hi.
    destruct (Z.eqb_spec i n) as [<- | Hne].
    - destruct (Z.testbit a i); [rewrite Z.pow2_bits_eqb, Z.eqb_refl by exact Hi | rewrite Z.bits_0];
        reflexivity.
    - rewrite andb_false_r.
      destruct (Z.testbit a i); [rewrite Z.pow2_bits_eqb by exact Hi | rewrite Z.bits_0].
      + symmetry. apply Z.eqb_neq. exact Hne.
      + reflexivity. }
  rewrite H. destruct (Z.testbit a i); [ | reflexivity].
  apply Z.eqb_neq. pose proof (Z.pow_pos_nonneg 2 i ltac:(lia) Hi). lia.
Qed.

Lemma land_sign (mask : Z) :
  - 2 ^ 31 <= mask < 2 ^ 31 ->
  (Z.land mask (- 2 ^ 31) =? 0) = negb (Z.testbit mask 31).
Proof.
  intros Hm.
  assert (Hland : Z.land mask (- 2 ^ 31) = mask / 2 ^ 31 * 2 ^ 31).
  { change (- 2 ^ 31) with (Z.lnot (Z.ones 31)).
    rewrite <- Z.ldiff_land, Z.ldiff_ones_r, Z.shiftl_mul_pow2, Z.shiftr_div_pow2 by lia.
    reflexivity. }
  rewrite Hland, Z.testbit_odd, Z.shiftr_div_pow2 by lia.
  destruct (Z.lt_ge_cases mask 0) as [Hneg | Hpos].
  - replace (mask / 2 ^ 31) with (-1)
      by (apply (Z.div_unique _ _ _ (mask + 2 ^ 31)); lia).
    reflexivity.
  - rewrite Z.div_small by lia. reflexivity.
Qed.

(** For the first 32 filters the test of the getter reads bit [i] of the
    32-bit mask. *)
Lemma mask_bit (mask i : Z) :
  - 2 ^ 31 <= mask < 2 ^ 31 -> 0 <= i < 32 ->
  (Z.land mask (js_shl 1 i) =? 0) = negb (Z.testbit mask i).
Proof.
  intros Hm Hi. unfold js_shl. rewrite Z.mod_small, Z.mul_1_l by lia.
  destruct (Z.eq_dec i 31) as [-> | Hne].
  - change (wrap32 (2 ^ 31)) with (- 2 ^ 31). apply land_sign. exact Hm.
  - assert (Hpow : 0 < 2 ^ i <= 2 ^ 30).
    { split; [apply Z.pow_pos_nonneg; lia | apply Z.pow_le_mono_r; lia]. }
    replace (wrap32 (2 ^ i)) with (2 ^ i).
    + apply land_pow2. lia.
    + unfold wrap32. rewrite Z.mod_small; lia.
Qed.

Section ChunkedProperties.

Context (inflate : list u8 -> result (list u8)).

Lemma decode_chunk_oracle (filters : list Filter) :
  forall (i mask : Z) (chunk : list u8),
    - 2 ^ 31 <= mask < 2 ^ 31 -> 0 <= i -> i + Z.of_nat (length filters) <= 32 ->
    decode_chunk inflate filters i mask chunk = oracle_filters inflate filters i mask chunk.
Proof.
  induction filters as [ | filter rest IH]; intros i mask chunk Hm Hi Hlen; [reflexivity | ].
  simpl in Hlen. simpl. rewrite mask_bit by lia.
  destruct (Z.testbit mask i); simpl.
  - apply IH; lia.
  - destruct (Filter_decode inflate filter chunk); simpl; try reflexivity. apply IH; lia.
Qed.

(** *** The chunks in turn *)

Lemma fields_toNumber_safe (offsets : list Z) :
  Forall (fun x => x <= MAX_SAFE_INTEGER) offsets -> fields_toNumber offsets = Ok offsets.
Proof.
  induction 1 as [ | x rest Hx _ IH]; [reflexivity | ].
  cbn [fields_toNumber]. destruct (Z.ltb_spec MAX_SAFE_INTEGER x); [lia | ].
  rewrite IH. reflexivity.
Qed.

Lemma scatter_node_oracle (item_size : Z) (chunk_shape data_shape : list Z)
      (filterPipeline : option (list Filter)) (out : list u8) (node : ChunkNode) :
  length chunk_shape = length data_shape ->
  Forall (fun d => 0 < d) chunk_shape ->
  length (fields node) = S (length data_shape) ->
  Forall (fun x => x <= MAX_SAFE_INTEGER) (fields node) ->
  - 2 ^ 31 <= filterMask node < 2 ^ 31 ->
  (forall filters, filterPipeline = Some filters -> (length filters <= 32)%nat) ->
  scatter_node inflate item_size chunk_shape data_shape (row_major_strides data_shape)
               filterPipeline out node
  = oracle_chunk inflate item_size chunk_shape data_shape filterPipeline out node.
Proof.
  intros Hrank Hpos Hfields Hsafe Hmask Hfilters. unfold scatter_node, oracle_chunk.
  rewrite (fields_toNumber_safe _ Hsafe).
  assert (Hloop : forall chunk,
             data (scatter_loop (Z.to_nat (foldl Z.mul 1 chunk_shape)) item_size chunk_shape
                     data_shape (row_major_strides data_shape) chunk (fields node) 0
                     (mkScatter (replicate (length (fields node)) 0) (fields node) out))
             = foldl (oracle_place item_size chunk_shape data_shape chunk (fields node)) out
                     (seq 0 (Z.to_nat (product chunk_shape)))).
  { intros chunk. rewrite foldl_mul, Z.mul_1_l.
    apply (scatter_loop_spec item_size chunk_shape data_shape chunk (fields node)
                             Hrank Hfields Hpos _ 0%nat).
    apply at_first_element; assumption. }
  destruct filterPipeline as [filters | ].
  - rewrite decode_chunk_oracle; [ | exact Hmask | lia | specialize (Hfilters filters eq_refl); lia].
    destruct (oracle_filters inflate filters 0 (filterMask node) (node_data node));
      simpl; try reflexivity.
    rewrite Hloop. reflexivity.
  - simpl. rewrite Hloop. reflexivity.
Qed.

Lemma scatter_nodes_oracle (item_size : Z) (chunk_shape data_shape : list Z)
      (filterPipeline : option (list Filter)) (nodes : list ChunkNode) :
  length chunk_shape = length data_shape ->
  Forall (fun d => 0 < d) chunk_shape ->
  Forall (fun node => length (fields node) = S (length data_shape) /\
                      Forall (fun x => x <= MAX_SAFE_INTEGER) (fields node) /\
                      - 2 ^ 31 <= filterMask node < 2 ^ 31) nodes ->
  (forall filters, filterPipeline = Some filters -> (length filters <= 32)%nat) ->
  forall out,
    scatter_nodes inflate item_size chunk_shape data_shape (row_major_strides data_shape)
                  filterPipeline out nodes
    = oracle_chunks inflate item_size chunk_shape data_shape filterPipeline out nodes.
Proof.
  intros Hrank Hpos Hnodes Hfilters.
  induction Hnodes as [ | node rest (Hfields & Hsafe & Hmask) _ IH]; intros out; [reflexivity | ].
  simpl. rewrite scatter_node_oracle by assumption.
  destruct (oracle_chunk _ _ _ _ _ _ _) as [out' | | ]; simpl; try reflexivity. apply IH.
Qed.

(** *** What the oracle leaves untouched *)

Lemma typed_get_set_other (array : list u8) (i k : Z) (b : u8) :
  i <> k -> typed_get (typed_set array i b) k = typed_get array k.
Proof.
  intros Hne. unfold typed_get, typed_set.
  destruct (Z.ltb_spec k 0); [reflexivity | ].
  destruct (Z.ltb_spec i 0); [reflexivity | ].
  rewrite list_lookup_insert_ne by lia. reflexivity.
Qed.

Lemma typed_get_zeros (n : nat) (k : Z) : typed_get (replicate n u8_zero) k = u8_zero.
Proof.
  unfold typed_get. destruct (k <? 0); [reflexivity | ].
  destruct (replicate n u8_zero !! Z.to_nat k) as [b | ] eqn:Hb; [ | reflexivity].
  apply lookup_replicate_1 in Hb. simpl. apply Hb.
Qed.

Lemma oracle_copy_length (item_size : Z) (out chunk : list u8) (target chunk_index : Z) :
  length (oracle_copy item_size out chunk target chunk_index) = length out.
Proof.
  unfold oracle_copy. generalize (seq 0 (Z.to_nat item_size)). intros l. revert out.
  induction l as [ | j l IH]; intros out; simpl; [reflexivity | ].
  rewrite IH. apply typed_set_length.
Qed.

Lemma oracle_copy_other (item_size : Z) (out chunk : list u8) (target chunk_index k : Z) :
  ~ (target * item_size <= k < target * item_size + item_size) ->
  typed_get (oracle_copy item_size out chunk target chunk_index) k = typed_get out k.
Proof.
  intros Hk. unfold oracle_copy.
  assert (Hall : Forall (fun j => Z.of_nat j < item_size) (seq 0 (Z.to_nat item_size))).
  { apply Forall_forall. intros j Hj. apply elem_of_seq in Hj. lia. }
  revert Hall. generalize (seq 0 (Z.to_nat item_size)). intros l Hall. revert out.
  induction Hall as [ | j l Hj _ IH]; intros out; simpl; [reflexivity | ].
  rewrite IH. apply typed_get_set_other. lia.
Qed.

Lemma oracle_chunks_length (item_size : Z) (chunk_shape data_shape : list Z)
      (filterPipeline : option (list Filter)) (nodes : list ChunkNode) :
  forall out out',
    oracle_chunks inflate item_size chunk_shape data_shape filterPipeline out nodes = Ok out' ->
    length out' = length out.
Proof.
  induction nodes as [ | node rest IH]; intros out out' H; simpl in H.
  - injection H as <-. reflexivity.
  - destruct (oracle_chunk _ _ _ _ _ _ _) as [mid | | ] eqn:Hmid; simpl in H; try discriminate.
    rewrite (IH _ _ H). clear H IH. unfold oracle_chunk in Hmid.
    destruct (match filterPipeline with Some _ => _ | None => _ end) as [chunk | | ];
      simpl in Hmid; try discriminate.
    injection Hmid as <-.
    generalize (seq 0 (Z.to_nat (product chunk_shape))). intros l. revert out.
    induction l as [ | c l IHl]; intros out; simpl; [reflexivity | ].
    rewrite IHl. unfold oracle_place.
    destruct (in_bounds _ _); [apply oracle_copy_length | reflexivity].
Qed.

Lemma oracle_chunks_other (item_size : Z) (chunk_shape data_shape : list Z)
      (filterPipeline : option (list Filter)) (nodes : list ChunkNode) (k : Z) :
  ~ written_by item_size chunk_shape data_shape nodes k ->
  forall out out',
    oracle_chunks inflate item_size chunk_shape data_shape filterPipeline out nodes = Ok out' ->
    typed_get out' k = typed_get out k.
Proof.
  induction nodes as [ | node rest IH]; intros Hk out out' H; simpl in H.
  - injection H as <-. reflexivity.
  - destruct (oracle_chunk _ _ _ _ _ _ _) as [mid | | ] eqn:Hmid; simpl in H; try discriminate.
    rewrite (IH ltac:(intros (n & c & Hin & Hrest); apply Hk; exists n, c;
                      split; [right; exact Hin | exact Hrest]) _ _ H).
    clear H IH. unfold oracle_chunk in Hmid.
    destruct (match filterPipeline with Some _ => _ | None => _ end) as [chunk | | ];
      simpl in Hmid; try discriminate.
    injection Hmid as <-.
    assert (Hall : Forall (fun c => (c < Z.to_nat (product chunk_shape))%nat)
                          (seq 0 (Z.to_nat (product chunk_shape)))).
    { apply Forall_forall. intros c Hc. apply elem_of_seq in Hc. lia. }
    revert Hall. generalize (seq 0 (Z.to_nat (product chunk_shape))).
    intros l Hall. revert out.
    induction Hall as [ | c l Hc _ IHl]; intros out; simpl; [reflexivity | ].
    rewrite IHl. unfold oracle_place.
    destruct (in_bounds _ _) eqn:Hb; [ | reflexivity].
    apply oracle_copy_other. intros Hrange. apply Hk.
    exists node, c. split; [left; reflexivity | ]. split; [exact Hc | ].
    split; [exact Hb | exact Hrange].
Qed.

(** Without a filter pipeline the getter always returns a buffer. *)
Lemma oracle_chunks_unfiltered (item_size : Z) (chunk_shape data_shape : list Z)
      (nodes : list ChunkNode) :
  forall out, exists out',
    oracle_chunks inflate item_size chunk_shape data_shape None out nodes = Ok out'.
Proof.
  induction nodes as [ | node rest IH]; intros out; simpl; [eauto | ]. apply IH.
Qed.

(** The two exceptions of the getter itself: the allocation of the
    output for a byte size above the safe integers, and the conversion of a
    chunk offset that is not a safe integer. *)
Lemma fields_toNumber_unsafe (offsets : list Z) :
  Exists (fun x => MAX_SAFE_INTEGER < x) offsets ->
  fields_toNumber offsets = Throw (PlainError safe_integer_message).
Proof.
  induction offsets as [ | x rest IH]; intros H; [inversion H | ].
  cbn [fields_toNumber]. destruct (Z.ltb_spec MAX_SAFE_INTEGER x) as [ | Hle]; [reflexivity | ].
  apply Exists_cons in H. destruct H as [H | H]; [lia | ]. rewrite (IH H). reflexivity.
Qed.

Lemma Variable_data_chunked_limits (item_size : Z) (chunk_shape data_shape : list Z)
      (filterPipeline : option (list Filter)) (nodes : list ChunkNode) :
  (MAX_SAFE_INTEGER < product data_shape * item_size ->
   Variable_data_chunked inflate item_size chunk_shape data_shape filterPipeline nodes
   = Throw (RangeError "Invalid typed array length")) /\
  (forall out node data_strides,
      Exists (fun x => MAX_SAFE_INTEGER < x) (fields node) ->
      scatter_node inflate item_size chunk_shape data_shape data_strides None out node
      = Throw (PlainError safe_integer_message)).
Proof.
  split.
  - intros Hlarge. unfold Variable_data_chunked. rewrite foldl_mul, Z.mul_1_l.
    destruct (Z.ltb_spec MAX_SAFE_INTEGER (product data_shape * item_size)); [ | lia].
    rewrite orb_true_r. reflexivity.
  - intros out node data_strides Hunsafe. unfold scatter_node. cbn [bind].
    rewrite (fields_toNumber_unsafe _ Hunsafe). reflexivity.
Qed.


End ChunkedProperties.



Lemma lzf_two_passes_witness :
  _lzf (bytes [2; 65; 66; 67; 32; 2; 0; 90]) = Ok (bytes [65; 66; 67; 65; 66; 67; 90]) /\
  lzf_stream (bytes [2; 65; 66; 67; 32; 2; 0; 90]) 0.
Proof.
  assert (H : _lzf (bytes [2; 65; 66; 67; 32; 2; 0; 90]) = Ok (bytes [65; 66; 67; 65; 66; 67; 90]))
    by (vm_compute; reflexivity).
  split; [exact H | ].
  destruct (lzf_two_passes (bytes [2; 65; 66; 67; 32; 2; 0; 90])) as (_ & Haccepted & _).
  destruct (Haccepted _ H) as [Hstream _]. exact Hstream.
Defined.

(** * The reader: bounds, alignment and signatures *)

Lemma take_spec (count : Z) (r : Reader) :
  take count r =
  if jgt (jadd (_offset r) (Some (_position r + count))) (Some (_length r))
  then Throw (Hdf5Error eof_message)
  else Ok (jadd (_offset r) (Some (_position r)), advance count r).
Proof.
  unfold take, bindR, skip, ret, advance, _length. cbn [_buffer _offset _position].
  destruct (jgt _ _); reflexivity.
Qed.

Lemma le_value_range (l : list u8) : 0 <= le_value l < 256 ^ Z.of_nat (length l).
Proof.
  induction l as [ | b l IH]; [simpl; lia | ].
  cbn [le_value length]. rewrite Nat2Z.inj_succ, Z.pow_succ_r by lia.
  pose proof (u8_val_range b). lia.
Qed.

Lemma window_length (n : nat) (p : Z) (buffer : list u8) :
  0 <= p -> p + Z.of_nat n <= Z.of_nat (length buffer) ->
  length (firstn n (skipn (Z.to_nat p) buffer)) = n.
Proof.
  intros Hp Hn. rewrite length_firstn, length_skipn. lia.
Qed.

(** An unsigned accessor at a numeric cursor: what it returns inside the
    buffer, and the end-of-file error outside. *)
Lemma uintN_spec (n : nat) (r : Reader) (o : Z) :
  _offset r = Some o -> 0 <= o + _position r ->
  (pos <- take (Z.of_nat n) ;; view_get n pos) r =
  if _length r <? o + _position r + Z.of_nat n
  then Throw (Hdf5Error eof_message)
  else Ok (le_value (firstn n (skipn (Z.to_nat (o + _position r)) (_buffer r))),
           advance (Z.of_nat n) r).
Proof.
  intros Ho Hp. unfold bindR. rewrite take_spec, Ho. cbn [jadd jgt].
  replace (o + (_position r + Z.of_nat n)) with (o + _position r + Z.of_nat n) by lia.
  destruct (_ <? _) eqn:E; [reflexivity | ].
  unfold view_get. change (_length (advance (Z.of_nat n) r)) with (_length r).
  rewrite E. destruct (o + _position r <? 0) eqn:E2; [lia | ]. reflexivity.
Qed.

(** X1.  [byte()], [uint16()], [uint32()] and [uint64()] at a cursor
    inside the buffer: when the value's bytes lie inside the buffer the
    accessor returns their little-endian value, which is below 256^n, and
    moves the cursor by n bytes and nothing else; when they do not it raises
    the end-of-file hdf5.Error. *)
Theorem uint_accessors_bounds (n : nat) (f : R Z) (r : Reader) (o : Z) :
  In (n, f) [(1%nat, byte); (2%nat, uint16); (4%nat, uint32); (8%nat, uint64)] ->
  _offset r = Some o -> 0 <= o + _position r ->
  (o + _position r + Z.of_nat n <= _length r ->
   exists v, f r = Ok (v, advance (Z.of_nat n) r) /\
             v = le_value (firstn n (skipn (Z.to_nat (o + _position r)) (_buffer r))) /\
             0 <= v < 256 ^ Z.of_nat n) /\
  (_length r < o + _position r + Z.of_nat n -> f r = Throw (Hdf5Error eof_message)).
Proof.
  intros Hin Ho Hp.
  assert (Hf : f = (pos <- take (Z.of_nat n) ;; view_get n pos)).
  { simpl in Hin. destruct Hin as [H | [H | [H | [H | []]]]]; injection H as <- <-; reflexivity. }
  subst f. rewrite (uintN_spec n r o Ho Hp). split; intros H.
  - destruct (_ <? _) eqn:E; [lia | ]. eexists. split; [reflexivity | split; [reflexivity | ]].
    pose proof (le_value_range (firstn n (skipn (Z.to_nat (o + _position r)) (_buffer r)))) as Hr.
    rewrite window_length in Hr; [exact Hr | exact Hp | exact H].
  - destruct (_ <? _) eqn:E; [reflexivity | lia].
Qed.

(** X2.  [align(mod)] for a positive modulus never fails and never looks
    at the end of the buffer: it leaves the cursor on the least multiple of
    [mod] that is not below the position (relative to the last [seek]). *)
Theorem align_least_multiple (m : Z) (r : Reader) :
  0 < m ->
  exists p, align m r = Ok (tt, advance (p - _position r) r) /\
            p mod m = 0 /\ _position r <= p < _position r + m.
Proof.
  intros Hm. unfold align.
  assert (Hrem : (Z.rem (_position r) m =? 0) = (_position r mod m =? 0)).
  { destruct (Z.eqb_spec (Z.rem (_position r) m) 0) as [E | E];
      destruct (Z.eqb_spec (_position r mod m) 0) as [E' | E']; try reflexivity; exfalso.
    - apply E'. apply Z.rem_divide in E; [ | lia]. apply Z.mod_divide; [lia | exact E].
    - apply E. apply Z.mod_divide in E'; [ | lia]. apply Z.rem_divide; [lia | exact E']. }
  rewrite Hrem. pose proof (Z.div_mod (_position r) m ltac:(lia)) as Hd.
  pose proof (Z.mod_pos_bound (_position r) m Hm) as Hb.
  destruct (Z.eqb_spec (_position r mod m) 0) as [E | E]; cbn [negb].
  - exists (_position r). split; [ | split; [exact E | lia]].
    unfold advance. replace (_position r + (_position r - _position r)) with (_position r) by lia.
    destruct r; reflexivity.
  - exists ((_position r / m + 1) * m). split; [ | split].
    + unfold advance. do 3 f_equal. lia.
    + apply Z.mod_mul. lia.
    + nia.
Qed.

Lemma skipn_lookup_cons {A} (l : list A) (i : nat) (x : A) (rest : list A) :
  skipn i l = x :: rest -> l !! i = Some x /\ skipn (S i) l = rest.
Proof.
  revert l. induction i as [ | i IH]; intros [ | y l] H; try discriminate.
  - injection H as -> ->. split; reflexivity.
  - apply IH in H. exact H.
Qed.

Lemma skipn_nil_lookup {A} (l : list A) (i : nat) : skipn i l = [] -> l !! i = None.
Proof.
  intros H. apply lookup_ge_None. pose proof (length_skipn i l) as Hl.
  rewrite H in Hl. simpl in Hl. lia.
Qed.

Lemma byte_spec (r : Reader) (o : Z) :
  _offset r = Some o -> 0 <= o + _position r ->
  byte r = match _buffer r !! Z.to_nat (o + _position r) with
           | Some b => Ok (u8_val b, advance 1 r)
           | None => Throw (Hdf5Error eof_message)
           end.
Proof.
  intros Ho Hp. unfold byte. change (take 1) with (take (Z.of_nat 1)).
  rewrite (uintN_spec 1 r o Ho Hp). unfold _length.
  pose proof (length_skipn (Z.to_nat (o + _position r)) (_buffer r)) as Hl.
  destruct (skipn (Z.to_nat (o + _position r)) (_buffer r)) as [ | b rest] eqn:E.
  - rewrite (skipn_nil_lookup _ _ E). simpl in Hl.
    destruct (_ <? _) eqn:E2; [reflexivity | apply Z.ltb_ge in E2; lia].
  - destruct (skipn_lookup_cons _ _ _ _ E) as [Hb _]. rewrite Hb. simpl in Hl.
    destruct (_ <? _) eqn:E2; [apply Z.ltb_lt in E2; lia | ].
    change (firstn 1 (b :: rest)) with [b]. cbn [le_value].
    replace (u8_val b + 256 * 0) with (u8_val b) by lia. reflexivity.
Qed.

(** The loop of [match] against the bytes from the cursor on. *)
Lemma match_loop_spec (start : jsn) (codes : list Z) :
  forall (r : Reader) (o : Z),
    _offset r = Some o -> 0 <= o + _position r ->
    jgt start (Some (_length r)) = false ->
    let window := map u8_val (skipn (Z.to_nat (o + _position r)) (_buffer r)) in
    (firstn (length codes) window = codes ->
     match_loop start codes r = Ok (true, advance (Z.of_nat (length codes)) r)) /\
    (forall i c b, codes !! i = Some c -> window !! i = Some b -> c <> b ->
                   firstn i window = firstn i codes ->
                   match_loop start codes r = Ok (false, moved_to start r)) /\
    ((length window < length codes)%nat -> window = firstn (length window) codes ->
     match_loop start codes r = Throw (Hdf5Error eof_message)).
Proof.
  induction codes as [ | c codes IH]; intros r o Ho Hp Hs window.
  - split; [ | split].
    + intros _. cbn. unfold ret, advance. rewrite Z.add_0_r. destruct r; reflexivity.
    + intros i c b H. discriminate H.
    + intros H. simpl in H. lia.
  - assert (Hstep : match_loop start (c :: codes) r =
                     match _buffer r !! Z.to_nat (o + _position r) with
                     | Some b => if negb (c =? u8_val b) then Ok (false, moved_to start r)
                                 else match_loop start codes (advance 1 r)
                     | None => Throw (Hdf5Error eof_message)
                     end).
    { cbn [match_loop]. unfold bindR at 1. rewrite (byte_spec r o Ho Hp).
      destruct (_buffer r !! _) as [b | ]; [ | reflexivity].
      destruct (negb _); [ | reflexivity].
      unfold bindR, seek, ret, moved_to. unfold _length in *.
      cbn [advance _buffer _offsetSize _lengthSize _offset]. rewrite Hs. reflexivity. }
    rewrite Hstep. clear Hstep. subst window.
    destruct (skipn (Z.to_nat (o + _position r)) (_buffer r)) as [ | b rest] eqn:E.
    + rewrite (skipn_nil_lookup _ _ E). split; [ | split].
      * intros H. discriminate H.
      * intros i c' b' _ H. discriminate H.
      * reflexivity.
    + destruct (skipn_lookup_cons _ _ _ _ E) as [Hb Hrest]. rewrite Hb.
      assert (Ho' : _offset (advance 1 r) = Some o) by exact Ho.
      assert (Hp' : 0 <= o + _position (advance 1 r)) by (cbn; lia).
      specialize (IH (advance 1 r) o Ho' Hp' Hs).
      cbn [advance _position _buffer] in IH.
      replace (Z.to_nat (o + (_position r + 1))) with (S (Z.to_nat (o + _position r))) in IH by lia.
      rewrite Hrest in IH. destruct IH as (IH1 & IH2 & IH3).
      cbn [map length firstn].
      assert (Hadv : advance (Z.of_nat (length codes)) (advance 1 r)
                     = advance (Z.of_nat (S (length codes))) r).
      { unfold advance. cbn. f_equal. lia. }
      fold (advance 1 r) in IH1, IH2, IH3.
      split; [ | split].
      * intros H. injection H as Hc Hw. rewrite <- Hc at 1. rewrite Z.eqb_refl. cbn [negb].
        rewrite <- Hadv. apply IH1. exact Hw.
      * intros [ | i] c' b' Hc' Hb' Hne Hpre.
        -- cbn [lookup list_lookup map] in Hc', Hb'. injection Hc' as ->. injection Hb' as <-.
           destruct (Z.eqb_spec c' (u8_val b)) as [Heq | _]; [exfalso; exact (Hne Heq) | ].
           reflexivity.
        -- cbn in Hc', Hb', Hpre. injection Hpre as Hhd Hpre. rewrite Hhd, Z.eqb_refl.
           cbn [negb]. exact (IH2 i c' b' Hc' Hb' Hne Hpre).
      * intros Hlen Hw. cbn in Hw. injection Hw as Hhd Hw. rewrite Hhd, Z.eqb_refl.
        cbn [negb]. apply IH3; [cbn in Hlen; lia | exact Hw].
Qed.

(** X3.  [match(signature)] at a cursor inside the buffer, against the
    bytes from the cursor on: when they start with the signature it returns
    true with the cursor just past the signature; when the first byte that
    differs comes before the end of the buffer it returns false with the
    cursor back where it was; when the buffer ends inside a signature that
    matched so far it raises the end-of-file hdf5.Error.  One of the three
    is always the case. *)
Theorem match_signature (signature : string) (r : Reader) (o : Z) :
  _offset r = Some o -> 0 <= o + _position r <= _length r ->
  let codes := char_codes signature in
  let window := map u8_val (skipn (Z.to_nat (o + _position r)) (_buffer r)) in
  (firstn (length codes) window = codes /\
   match_ signature r = Ok (true, advance (Z.of_nat (length codes)) r)) \/
  ((exists i c b, codes !! i = Some c /\ window !! i = Some b /\ c <> b /\
                  firstn i window = firstn i codes) /\
   match_ signature r = Ok (false, moved_to (position r) r)) \/
  ((length window < length codes)%nat /\ window = firstn (length window) codes /\
   match_ signature r = Throw (Hdf5Error eof_message)).
Proof.
  intros Ho Hp codes window.
  assert (Hs : jgt (position r) (Some (_length r)) = false).
  { unfold position. rewrite Ho. cbn. apply Z.ltb_ge. lia. }
  destruct (match_loop_spec (position r) codes r o Ho (proj1 Hp) Hs) as (H1 & H2 & H3).
  fold window in H1, H2, H3.
  assert (Hm : match_ signature r = match_loop (position r) codes r) by reflexivity.
  rewrite Hm. clear Hm Hs.
  assert (Hcases : forall (cs w : list Z),
             firstn (length cs) w = cs \/
             (exists i c b, cs !! i = Some c /\ w !! i = Some b /\ c <> b /\
                            firstn i w = firstn i cs) \/
             ((length w < length cs)%nat /\ w = firstn (length w) cs)).
  { induction cs as [ | c cs IH]; intros w; [left; reflexivity | ].
    destruct w as [ | b w]; [right; right; split; [simpl; lia | reflexivity] | ].
    destruct (Z.eq_dec c b) as [-> | Hne].
    - destruct (IH w) as [H | [(i & c' & b' & Hc & Hb & Hne & Hpre) | [Hl Hw]]].
      + left. cbn. f_equal. exact H.
      + right; left. exists (S i), c', b'. cbn. repeat split; try assumption. f_equal. exact Hpre.
      + right; right. split; [simpl; lia | cbn; f_equal; exact Hw].
    - right; left. exists 0%nat, c, b. repeat split; assumption. }
  destruct (Hcases codes window) as [H | [H | [Hl Hw]]].
  - left. split; [exact H | exact (H1 H)].
  - right; left. split; [exact H | ]. destruct H as (i & c & b & Hc & Hb & Hne & Hpre).
    exact (H2 i c b Hc Hb Hne Hpre).
  - right; right. split; [exact Hl | split; [exact Hw | exact (H3 Hl Hw)]].
Qed.

Lemma uint_accessors_bounds_witness :
  exists v, uint16 four_bytes = Ok (v, advance 2 four_bytes) /\ v = 0x1234.
Proof.
  destruct (uint_accessors_bounds 2 uint16 four_bytes 0
              ltac:(right; left; reflexivity) eq_refl ltac:(vm_compute; intuition discriminate)) as [H _].
  destruct (H ltac:(vm_compute; intuition discriminate)) as (v & Hv & Hval & _).
  exists v. split; [exact Hv | exact Hval].
Defined.

Lemma align_least_multiple_witness :
  exists p, align 8 unaligned = Ok (tt, advance (p - 5) unaligned) /\
            p mod 8 = 0 /\ 5 <= p < 5 + 8.
Proof. exact (align_least_multiple 8 unaligned ltac:(lia)). Defined.

Lemma match_signature_witness :
  match_ "HEAP" heap_block = Ok (true, advance 4 heap_block) \/
  match_ "HEAP" heap_block = Ok (false, moved_to (position heap_block) heap_block) \/
  match_ "HEAP" heap_block = Throw (Hdf5Error eof_message).
Proof.
  destruct (match_signature "HEAP" heap_block 0 eq_refl ltac:(vm_compute; intuition discriminate))
    as [[_ H] | [[_ H] | (_ & _ & H)]].
  - left. exact H.
  - right; left. exact H.
  - right; right. exact H.
Defined.

(** * What the constructors leave behind *)

(** ** Following the cursor through a successful read *)

Ltac step H a r Hm := apply bindR_inv in H; destruct H as (a & r & Hm & H).

Lemma same_file_refl (r : Reader) : same_file r r.
Proof. repeat split. Qed.

Lemma same_file_trans (r1 r2 r3 : Reader) :
  same_file r1 r2 -> same_file r2 r3 -> same_file r1 r3.
Proof.
  unfold same_file. intros (A1 & A2 & A3) (B1 & B2 & B3).
  repeat split; congruence.
Qed.

Lemma jadd_0 (p : jsn) : jadd p (Some 0) = p.
Proof. destruct p as [p | ]; [cbn; f_equal; lia | reflexivity]. Qed.

Lemma jadd_jadd (p : jsn) (n m : Z) : jadd (jadd p (Some n)) (Some m) = jadd p (Some (n + m)).
Proof. destruct p as [p | ]; [cbn; f_equal; lia | reflexivity]. Qed.

Lemma cursor_after_refl (r : Reader) : cursor_after 0 r r.
Proof. split; [apply same_file_refl | symmetry; apply jadd_0]. Qed.

Lemma cursor_after_trans (n m : Z) (r1 r2 r3 : Reader) :
  cursor_after n r1 r2 -> cursor_after m r2 r3 -> cursor_after (n + m) r1 r3.
Proof.
  intros [S1 P1] [S2 P2]. split; [exact (same_file_trans _ _ _ S1 S2) | ].
  rewrite P2, P1. apply jadd_jadd.
Qed.

Lemma position_advance (n : Z) (r : Reader) :
  position (advance n r) = jadd (position r) (Some n).
Proof.
  unfold position, advance. cbn. destruct (_offset r); [cbn; f_equal; lia | reflexivity].
Qed.

Lemma cursor_after_advance (n : Z) (r : Reader) : cursor_after n r (advance n r).
Proof. split; [repeat split | apply position_advance]. Qed.

Lemma position_moved_to (p : jsn) (r : Reader) : position (moved_to p r) = p.
Proof. unfold position, moved_to. cbn. destruct p; reflexivity. Qed.

Lemma skip_ok (n : Z) (r : Reader) (u : unit) (r' : Reader) :
  skip n r = Ok (u, r') -> cursor_after n r r'.
Proof.
  unfold skip. destruct (jgt _ _); [discriminate | ]. intros H. injection H as _ <-.
  apply (cursor_after_advance n r).
Qed.

Lemma seek_ok (p : jsn) (r : Reader) (u : unit) (r' : Reader) :
  seek p r = Ok (u, r') -> same_file r r' /\ position r' = p.
Proof.
  unfold seek. destruct (jgt _ _); [discriminate | ]. intros H. injection H as _ <-.
  split; [repeat split | apply (position_moved_to p r)].
Qed.

Lemma get_position_ok (r : Reader) (p : jsn) (r' : Reader) :
  get_position r = Ok (p, r') -> r' = r /\ p = position r.
Proof. unfold get_position. intros H. injection H as <- <-. split; reflexivity. Qed.

Lemma ret_ok {A} (a : A) (r : Reader) (b : A) (r' : Reader) :
  ret a r = Ok (b, r') -> b = a /\ r' = r.
Proof. unfold ret. intros H. injection H as <- <-. split; reflexivity. Qed.

Lemma take_ok (n : Z) (r : Reader) (p : jsn) (r' : Reader) :
  take n r = Ok (p, r') -> r' = advance n r /\ p = jadd (_offset r) (Some (_position r)).
Proof.
  rewrite take_spec. destruct (jgt _ _); [discriminate | ].
  intros H. injection H as <- <-. split; reflexivity.
Qed.

Lemma view_get_ok (n : nat) (p : jsn) (r : Reader) (v : Z) (r' : Reader) :
  view_get n p r = Ok (v, r') -> r' = r /\ 0 <= v < 256 ^ Z.of_nat n.
Proof.
  unfold view_get. destruct (_ || _) eqn:E; [discriminate | ].
  intros H. injection H as <- <-. split; [reflexivity | ].
  apply orb_false_iff in E. destruct E as [E1 E2].
  apply Z.ltb_ge in E1. apply Z.ltb_ge in E2. unfold _length in E2.
  set (index := match p with Some i => i | None => 0 end) in *.
  pose proof (le_value_range (firstn n (skipn (Z.to_nat index) (_buffer r)))) as Hr.
  rewrite window_length in Hr; [exact Hr | exact E1 | exact E2].
Qed.

Lemma unsigned_ok (n : nat) (r : Reader) (v : Z) (r' : Reader) :
  (pos <- take (Z.of_nat n) ;; view_get n pos) r = Ok (v, r') ->
  cursor_after (Z.of_nat n) r r' /\ 0 <= v < 256 ^ Z.of_nat n.
Proof.
  intros H. inv_bind H. apply take_ok in Hm. destruct Hm as [-> _].
  apply view_get_ok in H. destruct H as [-> Hv].
  split; [apply cursor_after_advance | exact Hv].
Qed.

Lemma byte_ok (r : Reader) (v : Z) (r' : Reader) :
  byte r = Ok (v, r') -> cursor_after 1 r r' /\ 0 <= v < 256.
Proof. exact (unsigned_ok 1 r v r'). Qed.

Lemma uint16_ok (r : Reader) (v : Z) (r' : Reader) :
  uint16 r = Ok (v, r') -> cursor_after 2 r r' /\ 0 <= v < 65536.
Proof. exact (unsigned_ok 2 r v r'). Qed.

Lemma uint32_ok (r : Reader) (v : Z) (r' : Reader) :
  uint32 r = Ok (v, r') -> cursor_after 4 r r' /\ 0 <= v < 2 ^ 32.
Proof. exact (unsigned_ok 4 r v r'). Qed.

Lemma uint64_ok (r : Reader) (v : Z) (r' : Reader) :
  uint64 r = Ok (v, r') -> cursor_after 8 r r' /\ 0 <= v < 2 ^ 64.
Proof. exact (unsigned_ok 8 r v r'). Qed.

Lemma int32_ok (r : Reader) (v : Z) (r' : Reader) :
  int32 r = Ok (v, r') -> cursor_after 4 r r' /\ - 2 ^ 31 <= v < 2 ^ 31.
Proof.
  unfold int32. intros H. inv_bind H. inv_bind H.
  apply take_ok in Hm. destruct Hm as [-> _].
  apply view_get_ok in Hm0. destruct Hm0 as [-> Hv].
  apply ret_ok in H. destruct H as [-> ->].
  split; [apply (cursor_after_advance 4) | ].
  unfold to_signed. change (256 ^ Z.of_nat 4) with (2 ^ 32) in Hv.
  change (2 ^ (32 - 1)) with (2 ^ 31). destruct (a0 <? 2 ^ 31) eqn:E.
  - apply Z.ltb_lt in E. lia.
  - apply Z.ltb_ge in E. lia.
Qed.

(** [offset()] and [length()]: the widths they accept, the bytes they
    consume and the values they can return. *)
Lemma sized_ok (w : option Z) (message : string) (r : Reader) (v : jsn) (r' : Reader) :
  sized w message r = Ok (v, r') ->
  exists n, w = Some n /\ (n = 4 \/ n = 8) /\ cursor_after n r r' /\
            match v with
            | Some x => if n =? 4 then 0 <= x < 2 ^ 32 - 1
                        else x = -1 \/ 0 <= x < MAX_SAFE_INTEGER
            | None => n = 4
            end.
Proof.
  unfold sized. intros H.
  destruct w as [n | ]; [ | discriminate H].
  assert (Hn : n = 4 \/ n = 8).
  { destruct n as [ | p | p]; try discriminate H.
    do 4 (try destruct p as [p | p | ]; try discriminate H); auto. }
  destruct Hn as [-> | ->].
  - exists 4. split; [reflexivity | split; [left; reflexivity | ]].
    inv_bind H. apply uint32_ok in Hm. destruct Hm as [Hc Hv].
    destruct (Z.eqb_spec a 0xffffffff) as [E | E];
      apply ret_ok in H; destruct H as [-> ->]; (split; [exact Hc | ]);
      [reflexivity | cbn; lia].
  - exists 8. split; [reflexivity | split; [right; reflexivity | ]].
    inv_bind H. inv_bind H. apply take_ok in Hm. destruct Hm as [-> _].
    apply view_get_ok in Hm0. destruct Hm0 as [-> Hv].
    destruct (a0 =? 0xffffffffffffffff).
    + apply ret_ok in H. destruct H as [-> ->].
      split; [apply (cursor_after_advance 8) | cbn; left; reflexivity].
    + destruct (MAX_SAFE_INTEGER <=? a0) eqn:E; [discriminate H | ].
      apply ret_ok in H. destruct H as [-> ->]. apply Z.leb_gt in E.
      split; [apply (cursor_after_advance 8) | cbn; right; lia].
Qed.

Lemma offset_ok (w : Z) (r : Reader) (v : jsn) (r' : Reader) :
  _offsetSize r = Some w -> offset r = Ok (v, r') ->
  (w = 4 \/ w = 8) /\ cursor_after w r r'.
Proof.
  intros Hw H. unfold offset in H. apply sized_ok in H.
  destruct H as (n & Hn & Hcases & Hc & _). rewrite Hw in Hn. injection Hn as <-.
  split; assumption.
Qed.

Lemma length_ok (w : Z) (r : Reader) (v : jsn) (r' : Reader) :
  _lengthSize r = Some w -> length_ r = Ok (v, r') ->
  (w = 4 \/ w = 8) /\ cursor_after w r r'.
Proof.
  intros Hw H. unfold length_ in H. apply sized_ok in H.
  destruct H as (n & Hn & Hcases & Hc & _). rewrite Hw in Hn. injection Hn as <-.
  split; assumption.
Qed.

Lemma offset_width (r : Reader) (v : jsn) (r' : Reader) :
  offset r = Ok (v, r') -> exists w, _offsetSize r = Some w.
Proof.
  unfold offset. intros H. apply sized_ok in H. destruct H as (n & Hn & _). eauto.
Qed.

Lemma length_width (r : Reader) (v : jsn) (r' : Reader) :
  length_ r = Ok (v, r') -> exists w, _lengthSize r = Some w.
Proof.
  unfold length_. intros H. apply sized_ok in H. destruct H as (n & Hn & _). eauto.
Qed.

Lemma cursor_after_offsetSize (n : Z) (r r' : Reader) :
  cursor_after n r r' -> _offsetSize r' = _offsetSize r.
Proof. intros [(_ & H & _) _]. exact H. Qed.

Lemma cursor_after_lengthSize (n : Z) (r r' : Reader) :
  cursor_after n r r' -> _lengthSize r' = _lengthSize r.
Proof. intros [(_ & _ & H) _]. exact H. Qed.

(** A block that saves the position, reads and seeks back. *)
Lemma cursor_restored (r r1 r2 : Reader) (u : unit) :
  same_file r r1 -> seek (position r) r1 = Ok (u, r2) -> cursor_after 0 r r2.
Proof.
  intros Hs H. apply seek_ok in H. destruct H as [Hs' Hp].
  split; [exact (same_file_trans _ _ _ Hs Hs') | ]. rewrite Hp. symmetry. apply jadd_0.
Qed.

Lemma cursor_after_same_file (n : Z) (r r' : Reader) : cursor_after n r r' -> same_file r r'.
Proof. intros [H _]. exact H. Qed.

(** Whenever the constructor of a symbol-table entry returns, the offset
    size is 4 or 8 and the cursor is [2 * offsetSize + 24] bytes further
    on. *)
Lemma SymbolTableEntry_new_ok (r : Reader) (entry : SymbolTableEntry) (r' : Reader) :
  SymbolTableEntry_new r = Ok (entry, r') ->
  exists w, _offsetSize r = Some w /\ (w = 4 \/ w = 8) /\
            cursor_after (2 * w + 24) r r'.
Proof.
  unfold SymbolTableEntry_new. intros H.
  step H name r1 H1. destruct (offset_width _ _ _ H1) as [w Hw].
  destruct (offset_ok w _ _ _ Hw H1) as [Hcases C1].
  step H header r2 H2.
  assert (Hw1 : _offsetSize r1 = Some w) by (rewrite (cursor_after_offsetSize _ _ _ C1); exact Hw).
  destruct (offset_ok w _ _ _ Hw1 H2) as [_ C2].
  step H cacheType r3 H3. apply uint32_ok in H3. destruct H3 as [C3 _].
  step H u4 r4 H4. destruct u4. apply skip_ok in H4. rename H4 into C4.
  step H cached r5 H5. step H u6 r6 H6. destruct u6. apply skip_ok in H6. rename H6 into C6.
  apply ret_ok in H. destruct H as [_ ->].
  assert (Hw4 : _offsetSize r4 = Some w).
  { rewrite (cursor_after_offsetSize _ _ _ C4), (cursor_after_offsetSize _ _ _ C3),
      (cursor_after_offsetSize _ _ _ C2). exact Hw1. }
  assert (C5 : cursor_after 0 r4 r5).
  { destruct cacheType as [ | [ | | ] | ]; try discriminate H5.
    - apply ret_ok in H5. destruct H5 as [_ ->]. apply cursor_after_refl.
    - step H5 pos r7 H7. apply get_position_ok in H7. destruct H7 as [-> ->].
      step H5 tree r8 H8. destruct (offset_ok w _ _ _ Hw4 H8) as [_ D1].
      assert (Hw8 : _offsetSize r8 = Some w)
        by (rewrite (cursor_after_offsetSize _ _ _ D1); exact Hw4).
      step H5 heap r9 H9. destruct (offset_ok w _ _ _ Hw8 H9) as [_ D2].
      step H5 u10 r10 H10. destruct u10. apply ret_ok in H5. destruct H5 as [_ ->].
      apply (cursor_restored r4 r9 r10 tt); [ | exact H10].
      exact (same_file_trans _ _ _ (cursor_after_same_file _ _ _ D1)
                             (cursor_after_same_file _ _ _ D2)). }
  exists w. split; [exact Hw | split; [exact Hcases | ]].
  pose proof (cursor_after_trans _ _ _ _ _ C1 C2) as T1.
  pose proof (cursor_after_trans _ _ _ _ _ T1 C3) as T2.
  pose proof (cursor_after_trans _ _ _ _ _ T2 C4) as T3.
  pose proof (cursor_after_trans _ _ _ _ _ T3 C5) as T4.
  pose proof (cursor_after_trans _ _ _ _ _ T4 C6) as T5.
  replace (2 * w + 24) with (w + w + 4 + 4 + 0 + 16) by lia. exact T5.
Qed.

(** X4.  A symbol-table entry takes the same room whatever its cache
    type: whenever the constructor returns, the offset size is 4 or 8 and
    the cursor is exactly [2 * offsetSize + 24] bytes further on, in the
    same file; the scratch-pad addresses of cache type 1 are read inside the
    16 bytes that are skipped for every entry. *)
Theorem SymbolTableEntry_new_size (r : Reader) (entry : SymbolTableEntry) (r' : Reader) :
  SymbolTableEntry_new r = Ok (entry, r') ->
  exists w, _offsetSize r = Some w /\ (w = 4 \/ w = 8) /\
            cursor_after (2 * w + 24) r r'.
Proof. exact (SymbolTableEntry_new_ok r entry r'). Qed.

Lemma match_loop_ok (start : jsn) (codes : list Z) :
  forall (r r' : Reader),
    match_loop start codes r = Ok (true, r') ->
    cursor_after (Z.of_nat (length codes)) r r'.
Proof.
  induction codes as [ | c codes IH]; intros r r' H.
  - apply ret_ok in H. destruct H as [_ ->]. apply cursor_after_refl.
  - cbn [match_loop] in H. step H b r1 H1. apply byte_ok in H1. destruct H1 as [C1 _].
    destruct (negb (c =? b)).
    + step H u r2 H2. apply ret_ok in H. destruct H as [H _]. discriminate H.
    + apply IH in H. cbn [length]. rewrite Nat2Z.inj_succ.
      replace (Z.succ (Z.of_nat (length codes))) with (1 + Z.of_nat (length codes)) by lia.
      exact (cursor_after_trans _ _ _ _ _ C1 H).
Qed.

Lemma expect_ok (signature : string) (r : Reader) (u : unit) (r' : Reader) :
  expect signature r = Ok (u, r') ->
  cursor_after (Z.of_nat (length (char_codes signature))) r r'.
Proof.
  unfold expect. intros H. step H ok r1 H1. destruct ok; [ | discriminate H].
  apply ret_ok in H. destruct H as [_ ->].
  unfold match_ in H1. step H1 start r2 H2. apply get_position_ok in H2.
  destruct H2 as [-> _]. exact (match_loop_ok _ _ _ _ H1).
Qed.

(** The value of an unsigned accessor in terms of the position. *)
Lemma unsigned_value (n : nat) (r : Reader) (v : Z) (r' : Reader) (p : Z) :
  (pos <- take (Z.of_nat n) ;; view_get n pos) r = Ok (v, r') ->
  position r = Some p -> 0 <= p ->
  v = le_value (firstn n (skipn (Z.to_nat p) (_buffer r))).
Proof.
  intros H Hp Hp0. unfold position in Hp. destruct (_offset r) as [o | ] eqn:Ho; [ | discriminate].
  cbn in Hp. injection Hp as <-.
  rewrite (uintN_spec n r o Ho) in H by lia.
  destruct (_ <? _); [discriminate | ]. injection H as <- _.
  do 3 f_equal. lia.
Qed.

Lemma entries_loop_ok (count : nat) :
  forall (r : Reader) (entries : list SymbolTableEntry) (r' : Reader),
    entries_loop count r = Ok (entries, r') ->
    length entries = count /\ same_file r r'.
Proof.
  induction count as [ | count IH]; intros r entries r' H.
  - apply ret_ok in H. destruct H as [-> ->]. split; [reflexivity | apply same_file_refl].
  - cbn [entries_loop] in H. step H entry r1 H1. step H rest r2 H2.
    apply ret_ok in H. destruct H as [-> ->].
    apply SymbolTableEntry_new_ok in H1. destruct H1 as (w & _ & _ & C1).
    apply IH in H2. destruct H2 as [Hl S2]. split; [cbn; f_equal; exact Hl | ].
    exact (same_file_trans _ _ _ (cursor_after_same_file _ _ _ C1) S2).
Qed.

(** X5.  A symbol-table node at a non-negative address: whenever the
    constructor returns, the reader is back at the position it had before
    the call, in the same file, and the node has as many entries as the
    16-bit count at byte 6 of the node says. *)
Theorem SymbolTableNode_new_entries (x : Z) (r : Reader)
        (entries : list SymbolTableEntry) (r' : Reader) :
  0 <= x ->
  SymbolTableNode_new (Some x) r = Ok (entries, r') ->
  cursor_after 0 r r' /\
  Z.of_nat (length entries)
  = le_value (firstn 2 (skipn (Z.to_nat (x + 6)) (_buffer r))).
Proof.
  intros Hx H. unfold SymbolTableNode_new in H.
  step H saved r0 H0. apply get_position_ok in H0. destruct H0 as [-> ->].
  step H u1 r1 H1. apply seek_ok in H1. destruct H1 as [S1 P1].
  step H u2 r2 H2. apply expect_ok in H2. change (Z.of_nat _) with 4 in H2.
  step H version r3 H3. apply byte_ok in H3. destruct H3 as [C3 _].
  step H es r4 H4. step H u5 r5 H5. apply ret_ok in H. destruct H as [-> ->].
  destruct (version =? 1); [ | discriminate H4].
  step H4 u6 r6 H6. apply skip_ok in H6.
  step H4 entriesUsed r7 H7.
  apply entries_loop_ok in H4. destruct H4 as [Hl S4].
  pose proof (cursor_after_trans _ _ _ _ _ (cursor_after_trans _ _ _ _ _ H2 C3) H6) as C6.
  destruct C6 as [S6 P6]. rewrite P1 in P6.
  assert (P6' : position r6 = Some (x + 6)) by (rewrite P6; cbn; f_equal; lia).
  assert (Hx6 : 0 <= x + 6) by lia.
  pose proof (unsigned_value 2 r6 entriesUsed r7 (x + 6) H7 P6' Hx6) as Hv.
  apply uint16_ok in H7. destruct H7 as [[S7 _] Hr].
  split.
  - apply (cursor_restored r r4 r5 u5); [ | exact H5].
    exact (same_file_trans _ _ _ S1 (same_file_trans _ _ _ S6 (same_file_trans _ _ _ S7 S4))).
  - rewrite Hl, Z2Nat.id by lia. rewrite Hv.
    destruct S6 as [-> _]. destruct S1 as [-> _]. reflexivity.
Qed.

Lemma SymbolTableEntry_new_size_witness :
  exists entry r', SymbolTableEntry_new (advance 8 sample_reader) = Ok (entry, r') /\
                   cursor_after 40 (advance 8 sample_reader) r'.
Proof.
  assert (H : {res | SymbolTableEntry_new (advance 8 sample_reader) = Ok res})
    by (eexists; vm_compute; reflexivity).
  destruct H as [[entry r'] H]. exists entry, r'. split; [exact H | ].
  destruct (SymbolTableEntry_new_size _ _ _ H) as (w & Hw & _ & C).
  injection Hw as <-. exact C.
Defined.

Lemma SymbolTableNode_new_entries_witness :
  exists entries r', SymbolTableNode_new (Some 0) (advance 100 sample_reader) = Ok (entries, r') /\
                     position r' = Some 100 /\ length entries = 1%nat.
Proof.
  assert (H : {res | SymbolTableNode_new (Some 0) (advance 100 sample_reader) = Ok res})
    by (eexists; vm_compute; reflexivity).
  destruct H as [[entries r'] H]. exists entries, r'. split; [exact H | ].
  destruct (SymbolTableNode_new_entries 0 _ _ _ ltac:(lia) H) as [[_ P] L].
  split; [exact P | ]. apply Nat2Z.inj. exact L.
Defined.

(** * Strings and the local heap *)

Lemma u8_of_val (b : u8) : u8_of (u8_val b) = b.
Proof. destruct b; vm_compute; reflexivity. Qed.

(** The scan of [size]: it stops at the first terminator from the start
    on, if the fuel reaches it. *)
Lemma size_loop_found (buffer : list u8) (terminator : Z) (body : list u8) :
  forall (fuel : nat) (p : Z) (z : u8) (rest : list u8),
    0 <= p ->
    skipn (Z.to_nat p) buffer = body ++ z :: rest ->
    Forall (fun b => u8_val b <> terminator) body ->
    u8_val z = terminator ->
    (length body < fuel)%nat ->
    size_loop fuel buffer terminator p = Some (p + Z.of_nat (length body)).
Proof.
  induction body as [ | b body IH]; intros fuel p z rest Hp Hskip Hbody Hz Hfuel.
  - destruct fuel as [ | fuel]; [simpl in Hfuel; lia | ].
    cbn [size_loop]. destruct (skipn_lookup_cons _ _ _ _ Hskip) as [Hl _].
    destruct (Z.ltb_spec p 0); [lia | ]. rewrite Hl. cbn [from_option].
    rewrite Hz, Z.eqb_refl. f_equal. simpl. lia.
  - destruct fuel as [ | fuel]; [simpl in Hfuel; lia | ].
    cbn [size_loop]. cbn [app] in Hskip.
    destruct (skipn_lookup_cons _ _ _ _ Hskip) as [Hl Hnext].
    destruct (Z.ltb_spec p 0); [lia | ]. rewrite Hl. cbn [from_option].
    apply Forall_cons in Hbody. destruct Hbody as [Hb Hbody'].
    destruct (Z.eqb_spec (u8_val b) terminator) as [E | _]; [contradiction | ].
    replace (S (Z.to_nat p)) with (Z.to_nat (p + 1)) in Hnext by lia.
    rewrite (IH fuel (p + 1) z rest ltac:(lia) Hnext Hbody' Hz ltac:(simpl in Hfuel; lia)).
    f_equal. cbn [length]. lia.
Qed.

(** Without a terminator from the start on, no amount of fuel ends the
    scan: the loop of [size] runs for ever. *)
Lemma size_loop_diverges (buffer : list u8) (terminator : Z) :
  forall (fuel : nat) (p : Z),
    (forall i b, p <= Z.of_nat i -> buffer !! i = Some b -> u8_val b <> terminator) ->
    size_loop fuel buffer terminator p = None.
Proof.
  induction fuel as [ | fuel IH]; intros p Hnone; [reflexivity | ].
  cbn [size_loop]. destruct (Z.ltb_spec p 0) as [Hneg | Hpos].
  - apply IH. intros i b Hi. apply Hnone. lia.
  - destruct (buffer !! Z.to_nat p) as [b | ] eqn:E; cbn [from_option].
    + destruct (Z.eqb_spec (u8_val b) terminator) as [Heq | _].
      * exfalso. apply (Hnone (Z.to_nat p) b); [lia | exact E | exact Heq].
      * apply IH. intros i b' Hi. apply Hnone. lia.
    + apply IH. intros i b' Hi. apply Hnone. lia.
Qed.

Lemma bytes_loop_spec (count : nat) :
  forall (r : Reader) (o : Z),
    _offset r = Some o -> 0 <= o + _position r ->
    o + _position r + Z.of_nat count <= _length r ->
    bytes_loop count r
    = Ok (firstn count (skipn (Z.to_nat (o + _position r)) (_buffer r)),
          advance (Z.of_nat count) r).
Proof.
  induction count as [ | count IH]; intros r o Ho Hp Hlen.
  - cbn. unfold ret, advance. rewrite Z.add_0_r. destruct r; reflexivity.
  - cbn [bytes_loop]. unfold bindR at 1. rewrite (byte_spec r o Ho Hp).
    destruct (skipn (Z.to_nat (o + _position r)) (_buffer r)) as [ | b rest] eqn:E.
    + pose proof (length_skipn (Z.to_nat (o + _position r)) (_buffer r)) as Hl.
      rewrite E in Hl. unfold _length in Hlen. simpl in Hl. lia.
    + destruct (skipn_lookup_cons _ _ _ _ E) as [Hb Hrest]. rewrite Hb.
      unfold bindR at 1.
      rewrite (IH (advance 1 r) o Ho); cbn [advance _position _buffer _length];
        [ | lia | unfold _length in *; cbn [advance _buffer]; lia].
      replace (Z.to_nat (o + (_position r + 1))) with (S (Z.to_nat (o + _position r))) by lia.
      rewrite Hrest. unfold ret. rewrite u8_of_val. cbn [firstn].
      do 2 f_equal. unfold advance. cbn. f_equal. lia.
Qed.

Lemma read_spec (count : Z) (r : Reader) (o : Z) :
  _offset r = Some o -> 0 <= o + _position r -> 0 <= count ->
  o + _position r + count <= _length r ->
  read count r
  = Ok (firstn (Z.to_nat count) (skipn (Z.to_nat (o + _position r)) (_buffer r)),
        advance count r).
Proof.
  intros Ho Hp Hc Hlen. unfold read, bindR. rewrite take_spec, Ho. cbn [jadd jgt].
  destruct (Z.ltb_spec (_length r) (o + (_position r + count))); [lia | ].
  cbn [advance _buffer jadd]. unfold js_subarray, relative_index. fold (_length r).
  destruct (Z.ltb_spec (o + _position r) 0); [lia | ].
  destruct (Z.ltb_spec (o + _position r + count) 0); [lia | ].
  rewrite !Z.min_l by lia.
  replace (o + _position r + count - (o + _position r)) with count by lia. reflexivity.
Qed.

Section StringProperties.

Context (decode_text : string -> list u8 -> string).

Lemma size_spec (r : Reader) (o : Z) (body : list u8) (z : u8) (rest : list u8) :
  _offset r = Some o -> 0 <= o + _position r ->
  skipn (Z.to_nat (o + _position r)) (_buffer r) = body ++ z :: rest ->
  Forall (fun b => u8_val b <> 0) body -> u8_val z = 0 ->
  size_ 0 r = Ok (Z.of_nat (length body) + 1, r).
Proof.
  intros Ho Hp Hskip Hbody Hz. unfold size_. rewrite Ho. cbn [jadd].
  pose proof (length_skipn (Z.to_nat (o + _position r)) (_buffer r)) as Hl.
  rewrite Hskip, length_app in Hl. cbn [length] in Hl.
  rewrite (size_loop_found (_buffer r) 0 body _ (o + _position r) z rest Hp Hskip Hbody Hz);
    [ | unfold _length; lia].
  do 2 f_equal. lia.
Qed.

Lemma firstn_body (body : list u8) (z : u8) (rest : list u8) :
  firstn (S (length body)) (body ++ z :: rest) = body ++ [z].
Proof.
  induction body as [ | b body IH]; [reflexivity | ].
  cbn [length app firstn]. f_equal. exact IH.
Qed.

(** What [string] does once the size is known to be that of the run up to
    and including the terminator. *)
Lemma string_data (r : Reader) (o : Z) (body : list u8) (z : u8) (rest : list u8) :
  _offset r = Some o -> 0 <= o + _position r ->
  skipn (Z.to_nat (o + _position r)) (_buffer r) = body ++ z :: rest ->
  let size := Z.of_nat (length body) + 1 in
  (if size <? 16 then
     if size <? 0 then raise (RangeError "Invalid typed array length")
     else bytes_loop (Z.to_nat size)
   else read size) r
  = Ok (body ++ [z], advance size r).
Proof.
  intros Ho Hp Hskip size.
  pose proof (length_skipn (Z.to_nat (o + _position r)) (_buffer r)) as Hl.
  rewrite Hskip, length_app in Hl. cbn [length] in Hl.
  assert (Hlen : o + _position r + size <= _length r) by (unfold _length, size; lia).
  assert (Hsize : Z.to_nat size = S (length body)) by (unfold size; lia).
  destruct (size <? 16).
  - destruct (Z.ltb_spec size 0); [unfold size in *; lia | ].
    rewrite (bytes_loop_spec (Z.to_nat size) r o Ho Hp) by lia.
    rewrite Hskip, Hsize, firstn_body. do 3 f_equal. lia.
  - rewrite (read_spec size r o Ho Hp) by (unfold size; lia).
    rewrite Hskip, Hsize, firstn_body. reflexivity.
Qed.

(** [string] without a size, when a NUL byte follows. *)
Lemma string_scan (size : jsn) (encoding : string) (r : Reader) (o : Z)
        (body : list u8) (z : u8) (rest : list u8) :
  In size [None; Some 0; Some (-1)] ->
  _offset r = Some o -> 0 <= o + _position r ->
  skipn (Z.to_nat (o + _position r)) (_buffer r) = body ++ z :: rest ->
  Forall (fun b => u8_val b <> 0) body -> u8_val z = 0 ->
  string_ decode_text size encoding r
  = Ok (strip_nul (decode_text (if String.eqb encoding "utf-8" then "utf-8" else "ascii")
                               (body ++ [z])),
        advance (Z.of_nat (length body) + 1) r).
Proof.
  intros Hsize Ho Hp Hskip Hbody Hz.
  assert (Hscan : string_ decode_text size encoding r
                  = (size' <- size_ 0 ;;
                     data <- (if size' <? 16 then
                                if size' <? 0 then raise (RangeError "Invalid typed array length")
                                else bytes_loop (Z.to_nat size')
                              else read size') ;;
                     ret (strip_nul (decode_text
                                       (if String.eqb encoding "utf-8" then "utf-8" else "ascii")
                                       data))) r).
  { simpl in Hsize. destruct Hsize as [<- | [<- | [<- | []]]]; reflexivity. }
  rewrite Hscan. unfold bindR at 1.
  rewrite (size_spec r o body z rest Ho Hp Hskip Hbody Hz).
  unfold bindR. rewrite (string_data r o body z rest Ho Hp Hskip). reflexivity.
Qed.

(** X6.  [string(size, encoding)] without a size ([undefined], 0 or -1)
    at a cursor inside the buffer, when a NUL byte follows: the text is the
    decoding of the bytes up to and including the first NUL, with the NUL
    characters removed, and the cursor is left just past that NUL.  A
    declared size of 0 is thus not an empty string but a NUL-terminated
    one. *)
Theorem string_reads_to_terminator (size : jsn) (encoding : string) (r : Reader) (o : Z)
        (body : list u8) (z : u8) (rest : list u8) :
  In size [None; Some 0; Some (-1)] ->
  _offset r = Some o -> 0 <= o + _position r ->
  skipn (Z.to_nat (o + _position r)) (_buffer r) = body ++ z :: rest ->
  Forall (fun b => u8_val b <> 0) body -> u8_val z = 0 ->
  string_ decode_text size encoding r
  = Ok (strip_nul (decode_text (if String.eqb encoding "utf-8" then "utf-8" else "ascii")
                               (body ++ [z])),
        advance (Z.of_nat (length body) + 1) r).
Proof. exact (string_scan size encoding r o body z rest). Qed.

(** X7.  [size(0)], and with it [string] without a size, on a buffer
    with no NUL byte from the cursor on: the scan has no bound on the
    position, so however long it runs it does not stop; the call never
    returns and never raises. *)
Theorem string_without_terminator (size : jsn) (encoding : string) (r : Reader) (o : Z) :
  In size [None; Some 0; Some (-1)] ->
  _offset r = Some o ->
  (forall i b, o + _position r <= Z.of_nat i -> _buffer r !! i = Some b -> u8_val b <> 0) ->
  (forall fuel, size_loop fuel (_buffer r) 0 (o + _position r) = None) /\
  size_ 0 r = OutOfFuel /\
  string_ decode_text size encoding r = OutOfFuel.
Proof.
  intros Hsize Ho Hnone.
  assert (Hloop : forall fuel, size_loop fuel (_buffer r) 0 (o + _position r) = None).
  { intros fuel. apply size_loop_diverges. exact Hnone. }
  assert (Hs : size_ 0 r = OutOfFuel).
  { unfold size_. rewrite Ho. cbn [jadd]. rewrite Hloop. reflexivity. }
  split; [exact Hloop | split; [exact Hs | ]].
  simpl in Hsize. unfold string_, bindR.
  destruct Hsize as [<- | [<- | [<- | []]]]; rewrite Hs; reflexivity.
Qed.

(** X8.  [getString(offset)] of the local heap, when a NUL-terminated
    name is stored at [dataAddress + offset]: it returns the decoding of
    the name as UTF-8 and leaves the reader at the position it had before
    the call. *)
Theorem Heap_getString_name (heap : Heap) (r : Reader) (d k : Z)
        (body : list u8) (z : u8) (rest : list u8) :
  _dataAddress heap = Some d -> 0 <= d + k ->
  skipn (Z.to_nat (d + k)) (_buffer r) = body ++ z :: rest ->
  Forall (fun b => u8_val b <> 0) body -> u8_val z = 0 ->
  jgt (position r) (Some (_length r)) = false ->
  Heap_getString decode_text heap (Some k) r
  = Ok (strip_nul (decode_text "utf-8" (body ++ [z])), moved_to (position r) r).
Proof.
  intros Hd Hp Hskip Hbody Hz Hback. unfold Heap_getString. rewrite Hd. cbn [jadd].
  pose proof (length_skipn (Z.to_nat (d + k)) (_buffer r)) as Hl.
  rewrite Hskip, length_app in Hl. cbn [length] in Hl.
  unfold bindR at 1. unfold get_position. unfold bindR at 1. unfold seek at 1.
  cbn [_buffer _offset _length jgt].
  destruct (Z.ltb_spec (_length (mkReader (_buffer r) (Some (d + k)) 0 (_offsetSize r) (_lengthSize r)))
                       (d + k)) as [Hlt | _]; [unfold _length in Hlt; cbn in Hlt; lia | ].
  fold (moved_to (Some (d + k)) r). unfold bindR at 1.
  rewrite (string_scan (Some (-1)) "utf-8" (moved_to (Some (d + k)) r) (d + k) body z rest);
    [ | right; right; left; reflexivity | reflexivity | cbn; lia
      | cbn [moved_to _position _buffer]; rewrite Z.add_0_r; exact Hskip
      | exact Hbody | exact Hz].
  unfold bindR, seek, ret. cbn [advance moved_to _buffer _offset _offsetSize _lengthSize].
  unfold _length in *. cbn [_buffer]. rewrite Hback. reflexivity.
Qed.

End StringProperties.

Lemma string_reads_to_terminator_witness :
  string_ latin1 (Some (-1)) "utf-8" (moved_to (Some 81) sample_reader)
  = Ok ("abc"%string, advance 4 (moved_to (Some 81) sample_reader)).
Proof.
  exact (string_reads_to_terminator latin1 (Some (-1)) "utf-8" (moved_to (Some 81) sample_reader)
           81 (bytes [97; 98; 99]) (u8_of 0) (skipn 85 sample_image)
           ltac:(right; right; left; reflexivity) eq_refl ltac:(vm_compute; discriminate)
           eq_refl ltac:(repeat constructor; vm_compute; discriminate) eq_refl).
Defined.

Lemma string_without_terminator_witness :
  string_ latin1 None "ascii" (BinaryReader_new (bytes [104; 105])) = OutOfFuel.
Proof.
  refine (proj2 (proj2 (string_without_terminator latin1 None "ascii"
                          (BinaryReader_new (bytes [104; 105])) 0
                          ltac:(left; reflexivity) eq_refl _))).
  intros [ | [ | i]] b _ H; [ | | discriminate H]; injection H as <-; vm_compute; discriminate.
Defined.

Lemma Heap_getString_name_witness :
  Heap_getString latin1 (mkHeap (Some 8) (Some (-1)) (Some 80)) (Some 1) sample_reader
  = Ok ("abc"%string, moved_to (Some 0) sample_reader).
Proof.
  exact (Heap_getString_name latin1 (mkHeap (Some 8) (Some (-1)) (Some 80)) sample_reader
           80 1 (bytes [97; 98; 99]) (u8_of 0) (skipn 85 sample_image)
           eq_refl ltac:(lia) eq_refl
           ltac:(repeat constructor; vm_compute; discriminate) eq_refl eq_refl).
Defined.

(** * The version-1 B-tree *)

Lemma offset_same_file (r : Reader) (v : jsn) (r' : Reader) :
  offset r = Ok (v, r') -> same_file r r'.
Proof.
  intros H. destruct (offset_width _ _ _ H) as [w Hw].
  destruct (offset_ok w _ _ _ Hw H) as [_ C]. exact (cursor_after_same_file _ _ _ C).
Qed.

Lemma length_same_file (r : Reader) (v : jsn) (r' : Reader) :
  length_ r = Ok (v, r') -> same_file r r'.
Proof.
  intros H. destruct (length_width _ _ _ H) as [w Hw].
  destruct (length_ok w _ _ _ Hw H) as [_ C]. exact (cursor_after_same_file _ _ _ C).
Qed.

Lemma read_same_file (count : Z) (r : Reader) (data : list u8) (r' : Reader) :
  read count r = Ok (data, r') -> same_file r r'.
Proof.
  unfold read. intros H. step H pos r1 H1. apply take_ok in H1. destruct H1 as [-> _].
  injection H as _ <-. repeat split.
Qed.

(** The constructor of a symbol-table node, at any address: whenever it
    returns, the reader is back where it was. *)
Lemma SymbolTableNode_new_ok (address : jsn) (r : Reader)
      (entries : list SymbolTableEntry) (r' : Reader) :
  SymbolTableNode_new address r = Ok (entries, r') -> cursor_after 0 r r'.
Proof.
  intros H. unfold SymbolTableNode_new in H.
  step H saved r0 H0. apply get_position_ok in H0. destruct H0 as [-> ->].
  step H u1 r1 H1. apply seek_ok in H1. destruct H1 as [S1 _].
  step H u2 r2 H2. apply expect_ok in H2. apply cursor_after_same_file in H2.
  step H version r3 H3. apply byte_ok in H3. destruct H3 as [[S3 _] _].
  step H es r4 H4. step H u5 r5 H5. apply ret_ok in H. destruct H as [-> ->].
  destruct (version =? 1); [ | discriminate H4].
  step H4 u6 r6 H6. apply skip_ok in H6. apply cursor_after_same_file in H6.
  step H4 entriesUsed r7 H7. apply uint16_ok in H7. destruct H7 as [[S7 _] _].
  apply entries_loop_ok in H4. destruct H4 as [_ S4].
  apply (cursor_restored r r4 r5 u5); [ | exact H5].
  repeat (eapply same_file_trans; [eassumption | ]). apply same_file_refl.
Qed.

Lemma fields_loop_ok (count : nat) :
  forall (r : Reader) (chunk_fields : list Z) (r' : Reader),
    fields_loop count r = Ok (chunk_fields, r') ->
    length chunk_fields = count /\
    Forall (fun field => 0 <= field < 2 ^ 64) chunk_fields /\
    same_file r r'.
Proof.
  induction count as [ | count IH]; intros r chunk_fields r' H.
  - apply ret_ok in H. destruct H as [-> ->].
    split; [reflexivity | split; [constructor | apply same_file_refl]].
  - cbn [fields_loop] in H. step H field r1 H1. step H rest r2 H2.
    apply ret_ok in H. destruct H as [-> ->].
    apply uint64_ok in H1. destruct H1 as [[S1 _] Hf].
    apply IH in H2. destruct H2 as (Hl & Hr & S2).
    split; [cbn; f_equal; exact Hl | split; [constructor; assumption | ]].
    exact (same_file_trans _ _ _ S1 S2).
Qed.

Section TreeProperties.

Context (dimensionality : option Z).
Context (subtree : jsn -> R (list TreeNode)).
Context (invariant : TreeNode -> Prop).
Hypothesis subtree_ok :
  forall address r nodes r',
    subtree address r = Ok (nodes, r') -> same_file r r' /\ Forall invariant nodes.

Lemma group_entries_ok (level : Z) (count : nat) :
  (forall entries, invariant (GroupLeaf entries)) ->
  forall (r : Reader) (nodes : list TreeNode) (r' : Reader),
    group_entries count level subtree r = Ok (nodes, r') ->
    same_file r r' /\ Forall invariant nodes.
Proof.
  intros Hleaf. induction count as [ | count IH]; intros r nodes r' H.
  - apply ret_ok in H. destruct H as [-> ->]. split; [apply same_file_refl | constructor].
  - cbn [group_entries] in H.
    step H key r1 H1. apply length_same_file in H1.
    step H childPointer r2 H2. apply offset_same_file in H2.
    step H found r3 H3. step H rest r4 H4. apply ret_ok in H. destruct H as [-> ->].
    apply IH in H4. destruct H4 as [S4 F4].
    assert (H3' : same_file r2 r3 /\ Forall invariant found).
    { destruct (level =? 0).
      - step H3 entries r5 H5. apply ret_ok in H3. destruct H3 as [-> ->].
        apply SymbolTableNode_new_ok in H5.
        split; [exact (cursor_after_same_file _ _ _ H5) | ].
        constructor; [apply Hleaf | constructor].
      - exact (subtree_ok _ _ _ _ H3). }
    destruct H3' as [S3 F3]. split; [ | apply Forall_app; split; assumption].
    repeat (eapply same_file_trans; [eassumption | ]). apply same_file_refl.
Qed.

Lemma chunk_entries_ok (level : Z) (count : nat) :
  (forall chunk, length (fields chunk) = from_option Z.to_nat 0%nat dimensionality ->
                 Forall (fun field => 0 <= field < 2 ^ 64) (fields chunk) ->
                 - 2 ^ 31 <= filterMask chunk < 2 ^ 31 ->
                 invariant (ChunkLeaf chunk)) ->
  forall (r : Reader) (nodes : list TreeNode) (r' : Reader),
    chunk_entries count level dimensionality subtree r = Ok (nodes, r') ->
    same_file r r' /\ Forall invariant nodes.
Proof.
  intros Hleaf. induction count as [ | count IH]; intros r nodes r' H.
  - apply ret_ok in H. destruct H as [-> ->]. split; [apply same_file_refl | constructor].
  - cbn [chunk_entries] in H.
    step H csize r1 H1. apply int32_ok in H1. destruct H1 as [[S1 _] _].
    step H vmask r2 H2. apply int32_ok in H2. destruct H2 as [[S2 _] Hmask].
    step H vfields r3 H3. apply fields_loop_ok in H3. destruct H3 as (Hl & Hf & S3).
    step H childPointer r4 H4. apply offset_same_file in H4.
    step H found r5 H5. step H rest r6 H6. apply ret_ok in H. destruct H as [-> ->].
    apply IH in H6. destruct H6 as [S6 F6].
    assert (H5' : same_file r4 r5 /\ Forall invariant found).
    { destruct (level =? 0).
      - step H5 saved r7 H7. apply get_position_ok in H7. destruct H7 as [-> ->].
        step H5 u8' r8 H8. apply seek_ok in H8. destruct H8 as [S8 _].
        step H5 vchunk r9 H9. apply read_same_file in H9.
        step H5 u10 r10 H10. apply seek_ok in H10. destruct H10 as [S10 _].
        apply ret_ok in H5. destruct H5 as [-> ->]. split.
        + exact (same_file_trans _ _ _ S8 (same_file_trans _ _ _ H9 S10)).
        + constructor; [ | constructor]. apply Hleaf; assumption.
      - exact (subtree_ok _ _ _ _ H5). }
    destruct H5' as [S5 F5]. split; [ | apply Forall_app; split; assumption].
    exact (same_file_trans _ _ _ S1 (same_file_trans _ _ _ S2 (same_file_trans _ _ _ S3
             (same_file_trans _ _ _ H4 (same_file_trans _ _ _ S5 S6))))).
Qed.

End TreeProperties.

Lemma leaf_invariant_None (dimensionality : option Z) (node : TreeNode) :
  leaf_invariant None node -> leaf_invariant dimensionality node.
Proof.
  destruct node as [entries | chunk]; [trivial | ].
  intros ([Hl | Hl] & Hf & Hm); (split; [right | split; assumption]).
  - cbn in Hl. destruct (fields chunk); [reflexivity | discriminate Hl].
  - exact Hl.
Qed.

(** X9.  The B-tree walk, for any fuel, address and dimensionality:
    whenever the constructor returns, the reader is back at the position
    it had before the call, in the same file, and every chunk among the
    leaves has a filter mask that is a 32-bit signed integer and fields
    that are 64-bit unsigned integers, [dimensionality] of them, or none
    when the chunk node was reached through a group node. *)
Theorem Tree_new_leaves (fuel : nat) :
  forall (address : jsn) (dimensionality : option Z) (r : Reader)
         (nodes : list TreeNode) (r' : Reader),
    Tree_new fuel address dimensionality r = Ok (nodes, r') ->
    cursor_after 0 r r' /\ Forall (leaf_invariant dimensionality) nodes.
Proof.
  induction fuel as [ | fuel IH]; intros address dimensionality r nodes r' H;
    [discriminate H | ].
  cbn [Tree_new] in H.
  step H saved r0 H0. apply get_position_ok in H0. destruct H0 as [-> ->].
  step H u1 r1 H1. apply seek_ok in H1. destruct H1 as [S1 _].
  step H u2 r2 H2. apply expect_ok in H2. apply cursor_after_same_file in H2.
  step H type r3 H3. apply byte_ok in H3. destruct H3 as [[S3 _] _].
  step H level r4 H4. apply byte_ok in H4. destruct H4 as [[S4 _] _].
  step H entries r5 H5. apply uint16_ok in H5. destruct H5 as [[S5 _] _].
  step H sib1 r6 H6. apply offset_same_file in H6.
  step H sib2 r7 H7. apply offset_same_file in H7.
  step H found r8 H8. step H u9 r9 H9. apply ret_ok in H. destruct H as [-> ->].
  assert (H8' : same_file r7 r8 /\ Forall (leaf_invariant dimensionality) found).
  { destruct type as [ | [ | | ] | ]; try discriminate H8.
    - apply (group_entries_ok (fun child => Tree_new fuel child None)
                              (leaf_invariant dimensionality)) in H8; [exact H8 | | ].
      + intros child ra ns rb Hsub. apply IH in Hsub. destruct Hsub as [C F].
        split; [exact (cursor_after_same_file _ _ _ C) | ].
        apply (Forall_impl _ _ _ F). intros node. apply leaf_invariant_None.
      + intros es. exact I.
    - apply (chunk_entries_ok dimensionality
                              (fun child => Tree_new fuel child dimensionality)
                              (leaf_invariant dimensionality)) in H8; [exact H8 | | ].
      + intros child ra ns rb Hsub. apply IH in Hsub. destruct Hsub as [C F].
        split; [exact (cursor_after_same_file _ _ _ C) | exact F].
      + intros chunk Hl Hf Hm. split; [left; exact Hl | split; assumption]. }
  destruct H8' as [S8 F8]. split; [ | exact F8].
  apply (cursor_restored r r8 r9 u9); [ | exact H9].
  exact (same_file_trans _ _ _ S1 (same_file_trans _ _ _ H2 (same_file_trans _ _ _ S3
           (same_file_trans _ _ _ S4 (same_file_trans _ _ _ S5 (same_file_trans _ _ _ H6
              (same_file_trans _ _ _ H7 S8))))))).
Qed.

Lemma Tree_new_leaves_witness :
  exists r', Tree_new 1 (Some 136) (Some 3) sample_reader
             = Ok ([ChunkLeaf (mkChunkNode (bytes [10; 20; 30; 40]) [0; 0; 0] 0)], r') /\
             position r' = Some 0.
Proof.
  assert (H : {r' | Tree_new 1 (Some 136) (Some 3) sample_reader
                    = Ok ([ChunkLeaf (mkChunkNode (bytes [10; 20; 30; 40]) [0; 0; 0] 0)], r')})
    by (eexists; vm_compute; reflexivity).
  destruct H as [r' H]. exists r'. split; [exact H | ].
  destruct (Tree_new_leaves 1 _ _ _ _ _ H) as [[_ P] _]. exact P.
Defined.

(** * Dataspace and data layout messages *)

Lemma byte_value (r : Reader) (v : Z) (r' : Reader) (p : Z) :
  byte r = Ok (v, r') -> position r = Some p -> 0 <= p -> v = byte_at r p.
Proof. exact (unsigned_value 1 r v r' p). Qed.

Lemma cursor_after_position (n : Z) (r r' : Reader) (p : Z) :
  cursor_after n r r' -> position r = Some p -> position r' = Some (p + n).
Proof. intros [_ H] Hp. rewrite H, Hp. reflexivity. Qed.

Lemma cursor_after_buffer (n : Z) (r r' : Reader) :
  cursor_after n r r' -> _buffer r' = _buffer r.
Proof. intros [[H _] _]. exact H. Qed.

Lemma byte_at_same (r r' : Reader) (index : Z) :
  _buffer r' = _buffer r -> byte_at r' index = byte_at r index.
Proof. unfold byte_at. intros ->. reflexivity. Qed.

Lemma lengths_loop_ok (count : nat) :
  forall (r : Reader) (sizes : list jsn) (r' : Reader),
    lengths_loop count r = Ok (sizes, r') ->
    length sizes = count /\ same_file r r'.
Proof.
  induction count as [ | count IH]; intros r sizes r' H.
  - apply ret_ok in H. destruct H as [-> ->]. split; [reflexivity | apply same_file_refl].
  - cbn [lengths_loop] in H. step H sz r1 H1. step H rest r2 H2.
    apply ret_ok in H. destruct H as [-> ->].
    apply length_same_file in H1. apply IH in H2. destruct H2 as [Hl S2].
    split; [cbn; f_equal; exact Hl | exact (same_file_trans _ _ _ H1 S2)].
Qed.

(** The maximum sizes that the version-1 loop accepts are the sizes. *)
Lemma max_sizes_loop_ok (count : nat) (sizes : list jsn) :
  forall (j : nat) (r : Reader) (maxima : list jsn) (r' : Reader),
    max_sizes_loop count j sizes r = Ok (maxima, r') ->
    maxima = firstn count (skipn j sizes) /\ length maxima = count /\ same_file r r'.
Proof.
  induction count as [ | count IH]; intros j r maxima r' H.
  - apply ret_ok in H. destruct H as [-> ->].
    split; [reflexivity | split; [reflexivity | apply same_file_refl]].
  - cbn [max_sizes_loop] in H. step H maximum r1 H1. apply length_same_file in H1.
    destruct (bool_decide (Some maximum = sizes !! j)) eqn:E; [ | discriminate H].
    apply bool_decide_eq_true in E. cbn [negb] in H.
    step H rest r2 H2. apply ret_ok in H. destruct H as [-> ->].
    apply IH in H2. destruct H2 as (Hrest & Hl & S2).
    split; [ | split; [cbn; f_equal; exact Hl | exact (same_file_trans _ _ _ H1 S2)]].
    symmetry in E. rewrite (drop_S _ _ _ E). cbn [firstn]. f_equal. exact Hrest.
Qed.

(** X10.  The dataspace message, at a cursor inside the buffer.  Whenever
    the constructor returns: the version byte is 1 or 2; there are as many
    sizes as the dimensions byte says; maximum sizes are present exactly
    when bit 0 of the flags is set, as many as sizes; and for version 1
    they are equal to the sizes one by one and bit 1 of the flags
    (permutation indices) is clear. *)
Theorem Dataspace_new_shape (r : Reader) (p : Z) (space : Dataspace)
        (maxSizes : option (list jsn)) (r' : Reader) :
  position r = Some p -> 0 <= p ->
  Dataspace_new r = Ok ((space, maxSizes), r') ->
  same_file r r' /\
  (byte_at r p = 1 \/ byte_at r p = 2) /\
  _dimensions space = byte_at r (p + 1) /\
  length (_sizes space) = Z.to_nat (_dimensions space) /\
  (maxSizes = None <-> js_land (byte_at r (p + 2)) 1 = 0) /\
  (forall maxima, maxSizes = Some maxima ->
                  length maxima = length (_sizes space) /\
                  (byte_at r p = 1 -> maxima = _sizes space)) /\
  (byte_at r p = 1 -> js_land (byte_at r (p + 2)) 2 = 0).
Proof.
  intros Hp Hp0 H. unfold Dataspace_new in H.
  step H version r1 H1. pose proof (byte_value _ _ _ _ H1 Hp Hp0) as Hversion.
  apply byte_ok in H1. destruct H1 as [C1 _].
  pose proof (cursor_after_position _ _ _ _ C1 Hp) as P1.
  pose proof (cursor_after_buffer _ _ _ C1) as B1.
  assert (Hhead : forall k, (dimensions <- byte ;; flags <- byte ;; k dimensions flags) r1
                            = Ok (space, maxSizes, r') ->
                  exists r3, same_file r r3 /\
                             k (byte_at r (p + 1)) (byte_at r (p + 2)) r3
                             = Ok (space, maxSizes, r')).
  { intros k Hk. step Hk dimensions r2 H2.
    pose proof (byte_value _ _ _ _ H2 P1 ltac:(lia)) as Hd.
    apply byte_ok in H2. destruct H2 as [C2 _].
    pose proof (cursor_after_position _ _ _ _ C2 P1) as P2.
    pose proof (cursor_after_buffer _ _ _ C2) as B2.
    step Hk flags r3 H3. pose proof (byte_value _ _ _ _ H3 P2 ltac:(lia)) as Hf.
    apply byte_ok in H3. destruct H3 as [C3 _].
    exists r3. split.
    - exact (same_file_trans _ _ _ (cursor_after_same_file _ _ _ C1)
               (same_file_trans _ _ _ (cursor_after_same_file _ _ _ C2)
                                (cursor_after_same_file _ _ _ C3))).
    - rewrite Hd, Hf in Hk. rewrite (byte_at_same _ _ _ B2) in Hk.
      rewrite !(byte_at_same _ _ _ B1) in Hk.
      replace (p + 1 + 1) with (p + 2) in Hk by lia. exact Hk. }
  set (dimensions := byte_at r (p + 1)) in *. set (flags := byte_at r (p + 2)) in *.
  rewrite <- Hversion.
  destruct version as [ | [q | [q | | ] | ] | ]; try discriminate H.
  - (* version 2 *)
    apply Hhead in H. destruct H as (r3 & S3 & H).
    step H u4 r4 H4. apply byte_ok in H4. destruct H4 as [[S4 _] _].
    step H sizes r5 H5. apply lengths_loop_ok in H5. destruct H5 as [L5 S5].
    step H maxima r6 H6. apply ret_ok in H. destruct H as [Hres ->]. injection Hres as -> ->.
    cbn [_dimensions _sizes].
    assert (S36 : same_file r3 r6 ->  same_file r r6)
      by (intros S; exact (same_file_trans _ _ _ S3 S)).
    destruct (Z.eqb_spec (js_land flags 1) 0) as [E | E]; cbn [negb] in H6.
    + apply ret_ok in H6. destruct H6 as [-> ->].
      split; [exact (same_file_trans _ _ _ S3 (same_file_trans _ _ _ S4 S5)) | ].
      repeat split; try (right; reflexivity) || exact L5 || trivial || discriminate.
    + step H6 m r7 H7. apply lengths_loop_ok in H7. destruct H7 as [L7 S7].
      apply ret_ok in H6. destruct H6 as [-> ->].
      split; [exact (same_file_trans _ _ _ S3 (same_file_trans _ _ _ S4
                       (same_file_trans _ _ _ S5 S7))) | ].
      split; [right; reflexivity | split; [reflexivity | split; [exact L5 | ]]].
      split; [split; [discriminate | intros E'; contradiction] | ].
      split; [ | discriminate].
      intros maxima Hm. injection Hm as <-. split; [congruence | discriminate].
  - (* version 1 *)
    apply Hhead in H. destruct H as (r3 & S3 & H).
    step H u4 r4 H4. apply skip_ok in H4. apply cursor_after_same_file in H4.
    step H u5 r5 H5. apply skip_ok in H5. apply cursor_after_same_file in H5.
    step H sizes r6 H6. apply lengths_loop_ok in H6. destruct H6 as [L6 S6].
    step H maxima r7 H7.
    destruct (Z.eqb_spec (js_land flags 2) 0) as [E2 | E2]; cbn [negb] in H;
      [ | discriminate H].
    apply ret_ok in H. destruct H as [Hres ->]. injection Hres as -> ->.
    cbn [_dimensions _sizes].
    assert (S36 : same_file r r6).
    { exact (same_file_trans _ _ _ S3 (same_file_trans _ _ _ H4
               (same_file_trans _ _ _ H5 S6))). }
    destruct (Z.eqb_spec (js_land flags 1) 0) as [E | E]; cbn [negb] in H7.
    + apply ret_ok in H7. destruct H7 as [-> ->].
      repeat split; try (left; reflexivity) || exact L6 || trivial || discriminate;
        apply S36.
    + step H7 m r8 H8. apply max_sizes_loop_ok in H8. destruct H8 as (Hm & L8 & S8).
      apply ret_ok in H7. destruct H7 as [-> ->].
      split; [exact (same_file_trans _ _ _ S36 S8) | ].
      split; [left; reflexivity | split; [reflexivity | split; [exact L6 | ]]].
      split; [split; [discriminate | intros E'; contradiction] | ].
      split; [ | intros _; exact E2].
      intros maxima Hmax. injection Hmax as <-. split; [congruence | ].
      intros _. rewrite Hm, <- L6. cbn [skipn]. apply firstn_all.
Qed.

Lemma dimension_sizes_loop_ok (count : nat) :
  forall (r : Reader) (sizes : list Z) (r' : Reader),
    dimension_sizes_loop count r = Ok (sizes, r') ->
    length sizes = count /\
    Forall (fun extent => - 2 ^ 31 <= extent < 2 ^ 31) sizes /\
    same_file r r'.
Proof.
  induction count as [ | count IH]; intros r sizes r' H.
  - apply ret_ok in H. destruct H as [-> ->].
    split; [reflexivity | split; [constructor | apply same_file_refl]].
  - cbn [dimension_sizes_loop] in H. step H extent r1 H1. step H rest r2 H2.
    apply ret_ok in H. destruct H as [-> ->].
    apply int32_ok in H1. destruct H1 as [[S1 _] He].
    apply IH in H2. destruct H2 as (Hl & Hr & S2).
    split; [cbn; f_equal; exact Hl | split; [constructor; assumption | ]].
    exact (same_file_trans _ _ _ S1 S2).
Qed.

(** The chunked case, which the two version branches share. *)
Lemma chunked_layout_ok (dimensions class : Z) (r : Reader) (layout : DataLayout)
      (r' : Reader) :
  (address <- offset ;;
   sizes <- dimension_sizes_loop (Z.to_nat (dimensions - 1)) ;;
   element <- int32 ;;
   ret (mkDataLayout (Some dimensions) class address None (Some sizes) (Some element))) r
  = Ok (layout, r') ->
  same_file r r' /\ layoutClass layout = class /\
  exists sizes element,
    dimensionality layout = Some dimensions /\
    dimensionSizes layout = Some sizes /\
    length sizes = Z.to_nat (dimensions - 1) /\
    Forall (fun extent => - 2 ^ 31 <= extent < 2 ^ 31) sizes /\
    datasetElementSize layout = Some element /\
    - 2 ^ 31 <= element < 2 ^ 31.
Proof.
  intros H. step H vaddr r1 H1. apply offset_same_file in H1.
  step H sizes r2 H2. apply dimension_sizes_loop_ok in H2. destruct H2 as (Hl & Hf & S2).
  step H element r3 H3. apply int32_ok in H3. destruct H3 as [[S3 _] He].
  apply ret_ok in H. destruct H as [-> ->].
  split; [exact (same_file_trans _ _ _ H1 (same_file_trans _ _ _ S2 S3)) | ].
  split; [reflexivity | ]. exists sizes, element. repeat split; assumption || apply He.
Qed.

(** X11.  The data layout message, at a cursor inside the buffer.
    Whenever the constructor returns: the version byte is 1, 2 or 3 and
    the layout class 0, 1 or 2; a compact layout (class 0) exists for
    version 3 only, its data address is the reader position 6 bytes after
    the start of the message and it has no dimensionality; a chunked layout
    (class 2) has [dimensionality - 1] chunk extents, each a 32-bit signed
    integer, and a 32-bit element size. *)
Theorem DataLayout_new_shape (r : Reader) (p : Z) (layout : DataLayout) (r' : Reader) :
  position r = Some p -> 0 <= p ->
  DataLayout_new r = Ok (layout, r') ->
  same_file r r' /\
  (byte_at r p = 1 \/ byte_at r p = 2 \/ byte_at r p = 3) /\
  (layoutClass layout = 0 \/ layoutClass layout = 1 \/ layoutClass layout = 2) /\
  (layoutClass layout = 0 ->
   byte_at r p = 3 /\ layout_address layout = Some (p + 6) /\
   dimensionality layout = None /\ dimensionSizes layout = None) /\
  (layoutClass layout = 2 ->
   exists dimensions sizes element,
     dimensionality layout = Some dimensions /\ 0 <= dimensions < 256 /\
     dimensionSizes layout = Some sizes /\
     length sizes = Z.to_nat (dimensions - 1) /\
     Forall (fun extent => - 2 ^ 31 <= extent < 2 ^ 31) sizes /\
     datasetElementSize layout = Some element /\
     - 2 ^ 31 <= element < 2 ^ 31).
Proof.
  intros Hp Hp0 H. unfold DataLayout_new in H.
  step H version r1 H1. pose proof (byte_value _ _ _ _ H1 Hp Hp0) as Hversion.
  apply byte_ok in H1. destruct H1 as [C1 _]. rewrite <- Hversion.
  assert (Hold : (dimensions <- byte ;;
                  class <- byte ;;
                  skip 5 ;;;
                  match class with
                  | 1 =>
                      address <- offset ;;
                      sizes <- dimension_sizes_loop (Z.to_nat (dimensions - 1)) ;;
                      ret (mkDataLayout (Some dimensions) class address None (Some sizes) None)
                  | 2 =>
                      address <- offset ;;
                      sizes <- dimension_sizes_loop (Z.to_nat (dimensions - 1)) ;;
                      element <- int32 ;;
                      ret (mkDataLayout (Some dimensions) class address None (Some sizes)
                                        (Some element))
                  | _ => raise (Hdf5Error "Unsupported data layout class")
                  end) r1 = Ok (layout, r') ->
                 same_file r1 r' /\
                 (layoutClass layout = 1 \/
                  layoutClass layout = 2 /\
                  exists dimensions sizes element,
                    dimensionality layout = Some dimensions /\ 0 <= dimensions < 256 /\
                    dimensionSizes layout = Some sizes /\
                    length sizes = Z.to_nat (dimensions - 1) /\
                    Forall (fun extent => - 2 ^ 31 <= extent < 2 ^ 31) sizes /\
                    datasetElementSize layout = Some element /\
                    - 2 ^ 31 <= element < 2 ^ 31)).
  { clear H. intros H. step H dimensions r2 H2. apply byte_ok in H2. destruct H2 as [[S2 _] Hd].
    step H class r3 H3. apply byte_ok in H3. destruct H3 as [[S3 _] _].
    step H u4 r4 H4. apply skip_ok in H4. apply cursor_after_same_file in H4.
    pose proof (same_file_trans _ _ _ S2 (same_file_trans _ _ _ S3 H4)) as S14.
    destruct class as [ | [q | [q | | ] | ] | ]; try discriminate H.
    - apply chunked_layout_ok in H. destruct H as (S & Hc & sizes & element & Hrest).
      split; [exact (same_file_trans _ _ _ S14 S) | ]. right. split; [exact Hc | ].
      exists dimensions, sizes, element. tauto.
    - step H vaddr r5 H5. apply offset_same_file in H5.
      step H sizes r6 H6. apply dimension_sizes_loop_ok in H6. destruct H6 as (_ & _ & S6).
      apply ret_ok in H. destruct H as [-> ->].
      split; [exact (same_file_trans _ _ _ S14 (same_file_trans _ _ _ H5 S6)) | ].
      left. reflexivity. }
  pose proof (cursor_after_same_file _ _ _ C1) as S1.
  destruct version as [ | [[q | q | ] | [q | | ] | ] | ]; try discriminate H.
  - (* version 3 *)
    step H class r2 H2. apply byte_ok in H2. destruct H2 as [C2 Hclass].
    pose proof (cursor_after_trans _ _ _ _ _ C1 C2) as C12.
    destruct class as [ | [q | [q | | ] | ] | ]; try discriminate H.
    + (* compact *)
      step H vsize r3 H3. apply uint16_ok in H3. destruct H3 as [C3 _].
      step H u4 r4 H4. apply skip_ok in H4.
      step H vaddr r5 H5. apply get_position_ok in H5. destruct H5 as [-> ->].
      apply ret_ok in H. destruct H as [-> ->].
      cbn [layoutClass layout_address dimensionality dimensionSizes datasetElementSize].
      pose proof (cursor_after_trans _ _ _ _ _ (cursor_after_trans _ _ _ _ _ C12 C3) H4) as C.
      split; [exact (cursor_after_same_file _ _ _ C) | ].
      split; [tauto | split; [tauto | split; [ | discriminate]]].
      intros _. split; [reflexivity | split; [ | split; reflexivity]].
      rewrite (cursor_after_position _ _ _ _ C Hp). reflexivity.
    + (* chunked *)
      step H dimensions r3 H3. apply byte_ok in H3. destruct H3 as [[S3 _] Hd].
      apply chunked_layout_ok in H. destruct H as (S & Hc & sizes & element & Hrest).
      split; [exact (same_file_trans _ _ _ (cursor_after_same_file _ _ _ C12)
                       (same_file_trans _ _ _ S3 S)) | ].
      rewrite Hc. split; [tauto | split; [tauto | split; [discriminate | ]]].
      intros _. exists dimensions, sizes, element. tauto.
    + (* contiguous *)
      step H vaddr r3 H3. apply offset_same_file in H3.
      step H vsize r4 H4. apply length_same_file in H4.
      apply ret_ok in H. destruct H as [-> ->].
      cbn [layoutClass layout_address dimensionality dimensionSizes datasetElementSize].
      split; [exact (same_file_trans _ _ _ (cursor_after_same_file _ _ _ C12)
                       (same_file_trans _ _ _ H3 H4)) | ].
      split; [tauto | split; [tauto | split; discriminate]].
  - (* version 2 *)
    apply Hold in H. destruct H as [S [Hc | [Hc Hrest]]]; rewrite Hc;
      (split; [exact (same_file_trans _ _ _ S1 S) | ]);
      (split; [tauto | split; [tauto | split; [discriminate | ]]]);
      [discriminate | intros _; exact Hrest].
  - (* version 1 *)
    apply Hold in H. destruct H as [S [Hc | [Hc Hrest]]]; rewrite Hc;
      (split; [exact (same_file_trans _ _ _ S1 S) | ]);
      (split; [tauto | split; [tauto | split; [discriminate | ]]]);
      [discriminate | intros _; exact Hrest].
Qed.

Lemma Dataspace_new_shape_witness :
  Dataspace_new dataspace_message
  = Ok ((mkDataspace 2 [Some 3; Some 5], Some [Some 3; Some 5]), advance 40 dataspace_message) /\
  (forall maxima, Some [Some 3; Some 5] = Some maxima -> maxima = [Some 3; Some 5]).
Proof.
  assert (H : Dataspace_new dataspace_message
              = Ok ((mkDataspace 2 [Some 3; Some 5], Some [Some 3; Some 5]),
                    advance 40 dataspace_message)) by (vm_compute; reflexivity).
  split; [exact H | ].
  destruct (Dataspace_new_shape dataspace_message 0 _ _ _ eq_refl ltac:(lia) H)
    as (_ & _ & _ & _ & _ & Hmax & _).
  intros maxima Hm. exact (proj2 (Hmax maxima Hm) eq_refl).
Defined.

Lemma DataLayout_new_shape_witness :
  DataLayout_new layout_message = Ok (chunked_layout, advance 23 layout_message) /\
  exists sizes, dimensionSizes chunked_layout = Some sizes /\ length sizes = 2%nat.
Proof.
  assert (H : DataLayout_new layout_message = Ok (chunked_layout, advance 23 layout_message))
    by (vm_compute; reflexivity).
  split; [exact H | ].
  destruct (DataLayout_new_shape layout_message 0 _ _ eq_refl ltac:(lia) H)
    as (_ & _ & _ & _ & Hchunked).
  destruct (Hchunked eq_refl) as (dimensions & sizes & element & Hd & _ & Hs & Hl & _).
  exists sizes. split; [exact Hs | ]. injection Hd as <-. exact Hl.
Defined.

(** * The LZF decoder computes the decoding *)

(** ** One iteration of each pass *)

Lemma shiftr_7_large (c : u8) : Z.shiftr (u8_val c) 5 = 7 -> 32 <= u8_val c.
Proof.
  intros Hs. pose proof (u8_val_range c).
  destruct (Z.lt_ge_cases (u8_val c) 32) as [Hsmall | ]; [ | assumption].
  rewrite shiftr_small in Hs by lia. discriminate Hs.
Qed.

Section LzfSteps.

Context (fuel : nat) (input : list u8) (k : nat).

Lemma lzf_end_step (output : list u8) (o : Z) :
  skipn k input = [] -> (k <= length input)%nat ->
  lzf_size (S fuel) input (Z.of_nat k) o = Ok o /\
  lzf_copy (S fuel) input output (Z.of_nat k) o = Ok (output, o).
Proof.
  intros Hsuffix Hk. apply (f_equal length) in Hsuffix.
  rewrite length_skipn in Hsuffix. simpl in Hsuffix.
  cbn [lzf_size lzf_copy].
  destruct (Z.ltb_spec (Z.of_nat k) (Z.of_nat (length input))); [lia | ].
  split; reflexivity.
Qed.

Lemma lzf_literal_step (c : u8) (run rest output : list u8) (o : Z) :
  skipn k input = c :: run ++ rest ->
  u8_val c < 32 -> Z.of_nat (length run) = u8_val c + 1 ->
  skipn (S k + length run) input = rest /\ (S k + length run <= length input)%nat /\
  lzf_size (S fuel) input (Z.of_nat k) o
  = lzf_size fuel input (Z.of_nat (S k + length run)) (o + (u8_val c + 1)) /\
  lzf_copy (S fuel) input output (Z.of_nat k) o
  = (let! output' := typed_array_set output run o in
     lzf_copy fuel input output' (Z.of_nat (S k + length run)) (o + (u8_val c + 1))).
Proof.
  intros Hsuffix Hc Hrun.
  destruct (drop_cons_inv _ _ _ _ Hsuffix) as (Hat & Hnext & Hlt).
  destruct (drop_app_inv _ _ _ _ Hlt Hnext) as (Htake & Hdrop & Hle).
  assert (Hlen : Z.of_nat (S k + length run) = Z.of_nat k + 1 + (u8_val c + 1)) by lia.
  split; [exact Hdrop | split; [exact Hle | ]].
  cbn [lzf_size lzf_copy].
  destruct (Z.ltb_spec (Z.of_nat k) (Z.of_nat (length input))); [ | lia].
  rewrite input_at_nat, Hat, shift_32. cbn [from_option].
  destruct (Z.ltb_spec (u8_val c) 32); [ | lia].
  destruct (Z.ltb_spec (Z.of_nat (length input)) (Z.of_nat k + 1 + (u8_val c + 1))); [lia | ].
  rewrite <- Hlen. split; [reflexivity | ].
  assert (Hsub : subarray input (Z.of_nat k + 1) (Z.of_nat (S k + length run)) = run).
  { unfold subarray.
    replace (Z.to_nat (Z.of_nat (S k + length run) - (Z.of_nat k + 1))) with (length run) by lia.
    replace (Z.to_nat (Z.of_nat k + 1)) with (S k) by lia. exact Htake. }
  rewrite Hsub. reflexivity.
Qed.

Lemma lzf_back_step (c low : u8) (rest output : list u8) (o : Z) :
  skipn k input = c :: low :: rest ->
  32 <= u8_val c -> Z.shiftr (u8_val c) 5 <> 7 -> back_offset c low <= o ->
  skipn (S (S k)) input = rest /\ (S (S k) <= length input)%nat /\
  lzf_size (S fuel) input (Z.of_nat k) o
  = lzf_size fuel input (Z.of_nat (S (S k))) (o + (Z.shiftr (u8_val c) 5 + 2)) /\
  lzf_copy (S fuel) input output (Z.of_nat k) o
  = lzf_copy fuel input
             (copy_back (Z.to_nat (Z.shiftr (u8_val c) 5 + 2)) output o (o - back_offset c low))
             (Z.of_nat (S (S k))) (o + (Z.shiftr (u8_val c) 5 + 2)).
Proof.
  intros Hsuffix Hc Hs Hoff.
  destruct (drop_cons_inv _ _ _ _ Hsuffix) as (Hat & Hnext & Hlt).
  destruct (drop_cons_inv _ _ _ _ Hnext) as (Hat' & Hnext' & Hlt').
  split; [exact Hnext' | split; [exact Hlt' | ]].
  cbn [lzf_size lzf_copy].
  destruct (Z.ltb_spec (Z.of_nat k) (Z.of_nat (length input))); [ | lia].
  rewrite input_at_nat, Hat, shift_32. cbn [from_option].
  destruct (Z.ltb_spec (u8_val c) 32); [lia | ].
  destruct (Z.leb_spec (Z.of_nat (length input)) (Z.of_nat k + 1)); [lia | ].
  destruct (Z.eqb_spec (Z.shiftr (u8_val c) 5) 7); [contradiction | ].
  cbn [bind fst snd].
  replace (Z.of_nat k + 1) with (Z.of_nat (S k)) by lia.
  rewrite input_at_nat, Hat'. cbn [from_option].
  replace (Z.of_nat (S k) + 1) with (Z.of_nat (S (S k))) by lia.
  unfold back_offset in *.
  destruct (Z.ltb_spec (o - Z.shiftl (Z.land (u8_val c) 31) 8 - 1 - u8_val low) 0); [lia | ].
  split; [reflexivity | ].
  replace (o - (Z.shiftl (Z.land (u8_val c) 31) 8 + u8_val low + 1))
    with (o - Z.shiftl (Z.land (u8_val c) 31) 8 - 1 - u8_val low) by lia.
  reflexivity.
Qed.

Lemma lzf_back_long_step (c ext low : u8) (rest output : list u8) (o : Z) :
  skipn k input = c :: ext :: low :: rest ->
  Z.shiftr (u8_val c) 5 = 7 -> back_offset c low <= o ->
  skipn (S (S (S k))) input = rest /\ (S (S (S k)) <= length input)%nat /\
  lzf_size (S fuel) input (Z.of_nat k) o
  = lzf_size fuel input (Z.of_nat (S (S (S k)))) (o + (7 + u8_val ext + 2)) /\
  lzf_copy (S fuel) input output (Z.of_nat k) o
  = lzf_copy fuel input
             (copy_back (Z.to_nat (7 + u8_val ext + 2)) output o (o - back_offset c low))
             (Z.of_nat (S (S (S k)))) (o + (7 + u8_val ext + 2)).
Proof.
  intros Hsuffix Hs Hoff. pose proof (shiftr_7_large c Hs) as Hc.
  destruct (drop_cons_inv _ _ _ _ Hsuffix) as (Hat & Hnext & Hlt).
  destruct (drop_cons_inv _ _ _ _ Hnext) as (Hat' & Hnext' & Hlt').
  destruct (drop_cons_inv _ _ _ _ Hnext') as (Hat'' & Hnext'' & Hlt'').
  split; [exact Hnext'' | split; [exact Hlt'' | ]].
  cbn [lzf_size lzf_copy].
  destruct (Z.ltb_spec (Z.of_nat k) (Z.of_nat (length input))); [ | lia].
  rewrite input_at_nat, Hat, shift_32. cbn [from_option].
  destruct (Z.ltb_spec (u8_val c) 32); [lia | ].
  destruct (Z.leb_spec (Z.of_nat (length input)) (Z.of_nat k + 1)); [lia | ].
  rewrite Hs. change (7 =? 7) with true. cbv iota.
  replace (Z.of_nat k + 1) with (Z.of_nat (S k)) by lia.
  rewrite input_at_nat, Hat'. cbn [from_option].
  replace (Z.of_nat (S k) + 1) with (Z.of_nat (S (S k))) by lia.
  destruct (Z.leb_spec (Z.of_nat (length input)) (Z.of_nat (S (S k)))); [lia | ].
  cbn [bind fst snd].
  rewrite input_at_nat, Hat''. cbn [from_option].
  replace (Z.of_nat (S (S k)) + 1) with (Z.of_nat (S (S (S k)))) by lia.
  unfold back_offset in *.
  destruct (Z.ltb_spec (o - Z.shiftl (Z.land (u8_val c) 31) 8 - 1 - u8_val low) 0); [lia | ].
  split; [reflexivity | ].
  replace (o - (Z.shiftl (Z.land (u8_val c) 31) 8 + u8_val low + 1))
    with (o - Z.shiftl (Z.land (u8_val c) 31) 8 - 1 - u8_val low) by lia.
  reflexivity.
Qed.

End LzfSteps.

(** ** A back-reference in the output array and in the output so far *)

Lemma extend_length (count : nat) :
  forall (out : list u8) (ref : nat), length (extend count out ref) = (length out + count)%nat.
Proof.
  induction count as [ | count IH]; intros out ref; cbn [extend]; [lia | ].
  rewrite IH, length_app. cbn [length]. lia.
Qed.

Lemma copy_back_extend (count : nat) :
  forall (output : list u8) (o ref : nat),
    (ref < o)%nat -> (o + count <= length output)%nat ->
    firstn (o + count) (copy_back count output (Z.of_nat o) (Z.of_nat ref))
    = extend count (firstn o output) ref.
Proof.
  induction count as [ | count IH]; intros output o ref Href Hfit.
  - cbn [copy_back extend]. rewrite Nat.add_0_r. reflexivity.
  - cbn [copy_back extend].
    replace (Z.of_nat o + 1) with (Z.of_nat (S o)) by lia.
    replace (Z.of_nat ref + 1) with (Z.of_nat (S ref)) by lia.
    replace (o + S count)%nat with (S o + count)%nat by lia.
    rewrite IH; [ | lia | rewrite typed_set_length; lia].
    f_equal. unfold typed_set, typed_get.
    destruct (Z.ltb_spec (Z.of_nat o) 0); [lia | ].
    destruct (Z.ltb_spec (Z.of_nat ref) 0); [lia | ].
    rewrite !Nat2Z.id.
    rewrite (take_S_r _ _ (default u8_zero (output !! ref)));
      [ | apply list_lookup_insert_eq; lia].
    rewrite take_insert_ge by lia. f_equal. f_equal. f_equal.
    symmetry. apply lookup_take_lt. exact Href.
Qed.

Lemma back_offset_pos (c low : u8) : 1 <= back_offset c low.
Proof.
  unfold back_offset. pose proof (u8_val_range low).
  assert (0 <= Z.shiftl (Z.land (u8_val c) 31) 8).
  { apply Z.shiftl_nonneg. apply Z.land_nonneg. right. lia. }
  lia.
Qed.

Lemma lzf_decodes_length (suffix out final : list u8) :
  lzf_decodes suffix out final -> (length out <= length final)%nat.
Proof.
  induction 1 as [out | c run rest out final Hc Hrun Hrest IH
                  | c low rest out final Hc Hs Hoff Hrest IH
                  | c ext low rest out final Hs Hoff Hrest IH].
  - lia.
  - rewrite length_app in IH. lia.
  - rewrite extend_length in IH. lia.
  - rewrite extend_length in IH. lia.
Qed.

(** Erasing the output from a decoding leaves a well-formed stream. *)
Lemma lzf_decodes_stream (suffix out final : list u8) :
  lzf_decodes suffix out final -> lzf_stream suffix (Z.of_nat (length out)).
Proof.
  induction 1 as [out | c run rest out final Hc Hrun Hrest IH
                  | c low rest out final Hc Hs Hoff Hrest IH
                  | c ext low rest out final Hs Hoff Hrest IH].
  - constructor.
  - apply stream_literal; [exact Hc | exact Hrun | ].
    rewrite length_app, Nat2Z.inj_add, Hrun in IH. exact IH.
  - apply stream_back; [exact Hc | exact Hs | exact Hoff | ].
    rewrite extend_length, Nat2Z.inj_add, Z2Nat.id in IH; [exact IH | ].
    pose proof (Z.shiftr_nonneg (u8_val c) 5). pose proof (u8_val_range c). lia.
  - apply stream_back_long; [exact Hs | exact Hoff | ].
    rewrite extend_length, Nat2Z.inj_add, Z2Nat.id in IH; [exact IH | ].
    pose proof (u8_val_range ext). lia.
Qed.

(** A well-formed stream has a decoding after any output of the length
    it refers to. *)
Lemma lzf_stream_decodes (suffix : list u8) (o : Z) :
  lzf_stream suffix o ->
  forall out, Z.of_nat (length out) = o -> exists final, lzf_decodes suffix out final.
Proof.
  induction 1 as [o | c run rest o Hc Hrun Hrest IH | c low rest o Hc Hs Hoff Hrest IH
                  | c ext low rest o Hs Hoff Hrest IH]; intros out Hout.
  - exists out. constructor.
  - destruct (IH (out ++ run)) as [final Hfinal]; [rewrite length_app; lia | ].
    exists final. apply decodes_literal; assumption.
  - destruct (IH (extend (Z.to_nat (Z.shiftr (u8_val c) 5 + 2)) out
                         (length out - Z.to_nat (back_offset c low)))) as [final Hfinal].
    { rewrite extend_length. pose proof (Z.shiftr_nonneg (u8_val c) 5).
      pose proof (u8_val_range c). lia. }
    exists final. apply decodes_back; try assumption. lia.
  - destruct (IH (extend (Z.to_nat (7 + u8_val ext + 2)) out
                         (length out - Z.to_nat (back_offset c low)))) as [final Hfinal].
    { rewrite extend_length. pose proof (u8_val_range ext). lia. }
    exists final. apply decodes_back_long; try assumption. lia.
Qed.

(** ** Both passes along a decoding *)

Lemma lzf_decodes_passes (suffix out final : list u8) :
  lzf_decodes suffix out final ->
  forall (fuel : nat) (input : list u8) (k : nat) (output : list u8),
    skipn k input = suffix -> (k <= length input)%nat -> (length suffix < fuel)%nat ->
    firstn (length out) output = out -> length output = length final ->
    lzf_size fuel input (Z.of_nat k) (Z.of_nat (length out)) = Ok (Z.of_nat (length final)) /\
    lzf_copy fuel input output (Z.of_nat k) (Z.of_nat (length out))
    = Ok (final, Z.of_nat (length final)).
Proof.
  induction 1 as [out | c run rest out final Hc Hrun Hrest IH
                  | c low rest out final Hc Hs Hoff Hrest IH
                  | c ext low rest out final Hs Hoff Hrest IH];
    intros fuel input k output Hsuffix Hk Hfuel Hprefix Hlen;
    (destruct fuel as [ | fuel]; [simpl in Hfuel; lia | ]).
  - (* end of input *)
    destruct (lzf_end_step fuel input k output (Z.of_nat (length out)) Hsuffix Hk) as [-> ->].
    rewrite <- Hlen, firstn_all in Hprefix. subst output. split; reflexivity.
  - (* literal run *)
    pose proof (lzf_decodes_length _ _ _ Hrest) as Hfit. rewrite length_app in Hfit.
    destruct (lzf_literal_step fuel input k c run rest output (Z.of_nat (length out))
                               Hsuffix Hc Hrun) as (Hnext & Hle & -> & ->).
    unfold typed_array_set.
    destruct (Z.ltb_spec (Z.of_nat (length output))
                         (Z.of_nat (length out) + Z.of_nat (length run))); [lia | ].
    cbn [bind]. rewrite Nat2Z.id.
    replace (Z.of_nat (length out) + (u8_val c + 1)) with (Z.of_nat (length (out ++ run)))
      by (rewrite length_app; lia).
    apply IH; [exact Hnext | exact Hle | simpl in Hfuel; rewrite length_app in Hfuel; lia | | ].
    + rewrite Hprefix, app_assoc. apply take_app_length.
    + rewrite !length_app, length_skipn, length_firstn. lia.
  - (* back-reference *)
    pose proof (lzf_decodes_length _ _ _ Hrest) as Hfit. rewrite extend_length in Hfit.
    pose proof (back_offset_pos c low) as Hpos.
    pose proof (Z.shiftr_nonneg (u8_val c) 5) as Hnn. pose proof (u8_val_range c) as Hr.
    destruct (lzf_back_step fuel input k c low rest output (Z.of_nat (length out))
                            Hsuffix Hc Hs Hoff) as (Hnext & Hle & -> & ->).
    set (count := Z.to_nat (Z.shiftr (u8_val c) 5 + 2)) in *.
    set (ref := (length out - Z.to_nat (back_offset c low))%nat) in *.
    replace (Z.of_nat (length out) - back_offset c low) with (Z.of_nat ref) by (unfold ref; lia).
    replace (Z.of_nat (length out) + (Z.shiftr (u8_val c) 5 + 2))
      with (Z.of_nat (length (extend count out ref)))
      by (rewrite extend_length; unfold count; lia).
    apply IH; [exact Hnext | exact Hle | simpl in Hfuel; lia | | ].
    + rewrite extend_length, copy_back_extend; [ | unfold ref; lia | lia].
      rewrite Hprefix. reflexivity.
    + rewrite copy_back_length. exact Hlen.
  - (* back-reference with a length byte *)
    pose proof (lzf_decodes_length _ _ _ Hrest) as Hfit. rewrite extend_length in Hfit.
    pose proof (back_offset_pos c low) as Hpos. pose proof (u8_val_range ext) as Hr.
    destruct (lzf_back_long_step fuel input k c ext low rest output (Z.of_nat (length out))
                                 Hsuffix Hs Hoff) as (Hnext & Hle & -> & ->).
    set (count := Z.to_nat (7 + u8_val ext + 2)) in *.
    set (ref := (length out - Z.to_nat (back_offset c low))%nat) in *.
    replace (Z.of_nat (length out) - back_offset c low) with (Z.of_nat ref) by (unfold ref; lia).
    replace (Z.of_nat (length out) + (7 + u8_val ext + 2))
      with (Z.of_nat (length (extend count out ref)))
      by (rewrite extend_length; unfold count; lia).
    apply IH; [exact Hnext | exact Hle | simpl in Hfuel; lia | | ].
    + rewrite extend_length, copy_back_extend; [ | unfold ref; lia | lia].
      rewrite Hprefix. reflexivity.
    + rewrite copy_back_length. exact Hlen.
Qed.

Lemma lzf_decodes_returns (input final : list u8) :
  lzf_decodes input [] final -> _lzf input = Ok final.
Proof.
  intros H. unfold _lzf.
  destruct (lzf_decodes_passes _ _ _ H (lzf_fuel input) input 0
                               (replicate (length final) u8_zero))
    as [Hsize Hcopy]; try reflexivity.
  - lia.
  - unfold lzf_fuel. lia.
  - apply length_replicate.
  - cbn [length] in Hsize, Hcopy. change (Z.of_nat 0) with 0 in Hsize, Hcopy.
    rewrite Hsize. cbn [bind]. rewrite Nat2Z.id, Hcopy. reflexivity.
Qed.

(** X12.  [_lzf] computes the decoding of its input: it returns [final]
    exactly when the input is a sequence of complete LZF tokens that
    decodes to [final], literal runs copied and back-references expanded
    byte by byte from the output produced so far; on every other input it
    raises its decode error. *)
Theorem lzf_decodes_correct (input : list u8) :
  (forall final, _lzf input = Ok final <-> lzf_decodes input [] final) /\
  ((forall final, ~ lzf_decodes input [] final) -> _lzf input = Throw lzf_error).
Proof.
  assert (Hcases : lzf_stream input 0 \/ lzf_defect input 0).
  { apply (lzf_stream_or_defect (S (length input))). lia. }
  assert (Hdefect : lzf_defect input 0 -> _lzf input = Throw lzf_error).
  { intros Hd. unfold _lzf.
    assert (Hthrow : lzf_size (lzf_fuel input) input (Z.of_nat 0) 0 = Throw lzf_error).
    { apply (lzf_size_defect input 0 Hd); [reflexivity | lia | unfold lzf_fuel; lia]. }
    change (Z.of_nat 0) with 0 in Hthrow. rewrite Hthrow. reflexivity. }
  split.
  - intros final. split; [ | apply lzf_decodes_returns].
    intros Hret. destruct Hcases as [Hstream | Hd].
    + destruct (lzf_stream_decodes input 0 Hstream [] eq_refl) as [final' Hfinal'].
      pose proof (lzf_decodes_returns _ _ Hfinal') as Hret'.
      rewrite Hret in Hret'. injection Hret' as ->. exact Hfinal'.
    + rewrite (Hdefect Hd) in Hret. discriminate Hret.
  - intros Hnone. destruct Hcases as [Hstream | Hd]; [ | exact (Hdefect Hd)].
    destruct (lzf_stream_decodes input 0 Hstream [] eq_refl) as [final Hfinal].
    destruct (Hnone final Hfinal).
Qed.

Lemma lzf_decodes_correct_witness :
  lzf_decodes (bytes [1; 97; 98; 64; 1]) [] (bytes [97; 98; 97; 98; 97; 98]).
Proof.
  exact (proj1 (proj1 (lzf_decodes_correct (bytes [1; 97; 98; 64; 1]))
                      (bytes [97; 98; 97; 98; 97; 98])) eq_refl).
Defined.

(** * Decoding a dataset of one dimension *)

Section DecodeOneDimension.

Context (HeapObject : Type).
Context (GlobalHeap_get : jsn -> Z -> result (option HeapObject)).
Context (heap_object_string : HeapObject -> string -> result string).

Local Abbreviation decode_item := (Datatype_decode HeapObject GlobalHeap_get heap_object_string).
Local Abbreviation leaves := (decode_leaves HeapObject GlobalHeap_get heap_object_string).
Local Abbreviation decode1 := (Dataspace_decode HeapObject GlobalHeap_get heap_object_string).

Lemma js_index_middle (done : list jsval) (item : jsval) (todo : list jsval) :
  js_index (JArr (done ++ item :: todo)) (JNum (Z.of_nat (length done))) = Ok item.
Proof.
  cbn [js_index]. destruct (Z.ltb_spec (Z.of_nat (length done)) 0); [lia | ].
  rewrite Nat2Z.id, list_lookup_middle by reflexivity. reflexivity.
Qed.

Lemma js_store_middle (done : list jsval) (item item' : jsval) (todo : list jsval) :
  js_store (JArr (done ++ item :: todo)) (length done) item'
  = Ok (JArr ((done ++ [item']) ++ todo)).
Proof.
  cbn [js_store]. rewrite bool_decide_eq_true_2 by (rewrite length_app; cbn; lia).
  rewrite insert_app_r_alt by lia. rewrite Nat.sub_diag. cbn [insert list_insert].
  rewrite <- app_assoc. reflexivity.
Qed.

(** The loop over the leaves when every item decodes. *)
Lemma decode_leaves_all (datatype : Datatype) (globalHeap : jsval)
      (todo todo' : list jsval) :
  Forall2 (fun item item' => decode_item datatype item globalHeap = Ok item') todo todo' ->
  forall done,
    leaves (length todo) datatype (JArr (done ++ todo)) globalHeap (length done)
    = Ok (JArr (done ++ todo')).
Proof.
  induction 1 as [ | item item' todo todo' Hitem Hrest IH]; intros done; [reflexivity | ].
  cbn [length decode_leaves]. rewrite js_index_middle. cbn [bind].
  rewrite Hitem. cbn [bind]. rewrite js_store_middle. cbn [bind].
  specialize (IH (done ++ [item'])). rewrite length_app in IH. cbn [length] in IH.
  rewrite Nat.add_1_r in IH. rewrite IH, <- app_assoc. reflexivity.
Qed.

(** The loop over the leaves up to the first item that does not decode. *)
Lemma decode_leaves_first_failure (datatype : Datatype) (globalHeap : jsval)
      (before before' : list jsval) (bad : jsval) (after : list jsval) (e : exn) :
  Forall2 (fun item item' => decode_item datatype item globalHeap = Ok item') before before' ->
  decode_item datatype bad globalHeap = Throw e ->
  forall done count,
    (length before < count)%nat ->
    leaves count datatype (JArr (done ++ before ++ bad :: after)) globalHeap (length done)
    = Throw e.
Proof.
  intros Hbefore Hbad.
  induction Hbefore as [ | item item' todo todo' Hitem Hrest IH]; intros done count Hcount;
    (destruct count as [ | count]; [simpl in Hcount; lia | ]).
  - cbn [app decode_leaves]. rewrite js_index_middle. cbn [bind]. rewrite Hbad. reflexivity.
  - cbn [app decode_leaves]. rewrite js_index_middle. cbn [bind].
    rewrite Hitem. cbn [bind]. rewrite js_store_middle. cbn [bind].
    specialize (IH (done ++ [item']) count). rewrite length_app in IH. cbn [length] in IH.
    rewrite Nat.add_1_r in IH. apply IH. simpl in Hcount. lia.
Qed.

(** X13.  [Dataspace.decode] on a dataset of one dimension whose array
    has as many items as the dataspace says: when every item decodes, the
    result is the array of the decoded items, in order; otherwise the call
    raises what [Datatype.decode] raises on the first item that does not
    decode, and the items after it are not looked at. *)
Theorem Dataspace_decode_one_dimension (fuel : nat) (dimensions : Z) (datatype : Datatype)
        (items : list jsval) (globalHeap : jsval) :
  dimensions <> 0 ->
  let dataspace := mkDataspace dimensions [Some (Z.of_nat (length items))] in
  (forall items',
      Forall2 (fun item item' => decode_item datatype item globalHeap = Ok item')
              items items' ->
      decode1 (S fuel) dataspace datatype (JArr items) globalHeap = Ok (JArr items')) /\
  (forall before before' bad after e,
      items = before ++ bad :: after ->
      Forall2 (fun item item' => decode_item datatype item globalHeap = Ok item')
              before before' ->
      decode_item datatype bad globalHeap = Throw e ->
      decode1 (S fuel) dataspace datatype (JArr items) globalHeap = Throw e).
Proof.
  intros Hd dataspace.
  assert (Hloop : decode1 (S fuel) dataspace datatype (JArr items) globalHeap
                  = leaves (length items) datatype (JArr items) globalHeap 0).
  { unfold Dataspace_decode, dataspace. cbn [_dimensions _sizes].
    destruct (Z.eqb_spec dimensions 0) as [ | _]; [contradiction | ].
    cbn -[decode_leaves Z.of_nat]. change (Z.of_nat 1 + -1) with 0.
    change (Z.to_nat 0) with 0%nat. cbn [lookup list_lookup default from_option loop_count id].
    rewrite Nat2Z.id. reflexivity. }
  rewrite Hloop. split.
  - intros items' Hall. exact (decode_leaves_all datatype globalHeap items items' Hall []).
  - intros before before' bad after e -> Hbefore Hbad.
    apply (decode_leaves_first_failure datatype globalHeap before before' bad after e
                                       Hbefore Hbad []).
    rewrite length_app. cbn [length]. lia.
Qed.

End DecodeOneDimension.

Lemma Dataspace_decode_one_dimension_witness :
  Dataspace_decode unit sample_heap_get sample_heap_string 1 (mkDataspace 1 [Some 2])
                   vlen_string (JArr [reference; reference]) JGlobalHeap
  = Ok (JArr [JStr "hi"; JStr "hi"]).
Proof.
  refine (proj1 (Dataspace_decode_one_dimension unit sample_heap_get sample_heap_string
                   0 1 vlen_string [reference; reference] JGlobalHeap ltac:(discriminate))
                [JStr "hi"; JStr "hi"] _).
  repeat constructor.
Defined.

(** * hdf5.File.read: which files are read *)

Section FileRejections.

Context (Payload : Type).
Context (construct : message_class -> R Payload).

Lemma File_read_short (fuel : nat) (data : list u8) :
  (length data <= 8)%nat ->
  File_read Payload construct fuel data = Throw (Hdf5Error eof_message).
Proof.
  intros Hlen. unfold File_read, File_read_body. unfold bindR at 1.
  unfold skip at 1, BinaryReader_new, _length. cbn [_buffer _offset _position jadd jgt].
  destruct (Z.ltb_spec (Z.of_nat (length data)) (0 + (0 + 8))) as [ | Hge]; [reflexivity | ].
  cbn [_offsetSize _lengthSize]. unfold bindR at 1.
  match goal with
  | |- context [byte ?r] => rewrite (byte_spec r 0 eq_refl) by (cbn; lia)
  end.
  cbn [_buffer _position].
  rewrite (proj2 (lookup_ge_None data (Z.to_nat (0 + (0 + 8))))) by lia.
  reflexivity.
Qed.

(** X14.  Which files [read()] accepts.  A file of eight bytes or fewer
    raises the end-of-file hdf5.Error; a superblock version above 3 raises
    the unsupported-version hdf5.Error; and whenever [read()] returns, the
    version byte (at index 8) is 0, 2 or 3 (never 1), the root group has
    the path "/", and for version 0 the base address is 0. *)
Theorem File_read_accepts (fuel : nat) (data : list u8) :
  ((length data <= 8)%nat ->
   File_read Payload construct fuel data = Throw (Hdf5Error eof_message)) /\
  (forall b, data !! 8%nat = Some b -> 3 < u8_val b ->
             File_read Payload construct fuel data
             = Throw (Hdf5Error "Unsupported Superblock version")) /\
  (forall f, File_read Payload construct fuel data = Ok f ->
             exists b, data !! 8%nat = Some b /\
                       (u8_val b = 0 \/ u8_val b = 2 \/ u8_val b = 3) /\
                       _path _ (_rootGroup _ f) = "/"%string /\
                       (u8_val b = 0 -> _baseAddress _ f = Some 0)).
Proof.
  split; [apply File_read_short | ].
  split; [intros b; apply File_read_unsupported_version | ].
  intros f Hread.
  destruct (data !! 8%nat) as [b | ] eqn:Hb.
  - exists b. split; [reflexivity | ].
    pose proof (u8_val_range b) as Hr.
    assert (Hv : u8_val b = 0 \/ u8_val b = 2 \/ u8_val b = 3).
    { destruct (Z.le_gt_cases (u8_val b) 3) as [Hle | Hgt].
      - destruct (Z.eq_dec (u8_val b) 1) as [H1 | H1]; [ | lia].
        destruct (File_read_version_1 Payload construct fuel data b f Hb H1 Hread).
      - rewrite (File_read_unsupported_version Payload construct fuel data b Hb Hgt) in Hread.
        discriminate Hread. }
    split; [exact Hv | ].
    split; [exact (File_read_root_path Payload construct fuel data f Hread) | ].
    intros H0. apply (File_read_old_base_address Payload construct fuel data b f Hb); tauto.
  - apply lookup_ge_None in Hb. rewrite File_read_short in Hread by lia. discriminate Hread.
Qed.

End FileRejections.

Lemma File_read_accepts_witness :
  exists f, File_read unit no_payload 8 (superblock_v0 0) = Ok f /\
            _path _ (_rootGroup _ f) = "/"%string /\ _baseAddress _ f = Some 0.
Proof.
  assert (H : {f | File_read unit no_payload 8 (superblock_v0 0) = Ok f})
    by (eexists; vm_compute; reflexivity).
  destruct H as [f H]. exists f. split; [exact H | ].
  destruct (File_read_accepts unit no_payload 8 (superblock_v0 0)) as (_ & _ & Hok).
  destruct (Hok f H) as (b & Hb & _ & Hpath & Hbase).
  split; [exact Hpath | ]. apply Hbase.
  vm_compute in Hb. injection Hb as <-. reflexivity.
Defined.

(** * hdf5.Group: absolute paths and duplicate names *)

Section GroupMore.

Context (Payload : Type).
Context (symbol_table_children :
           SymbolTableEntry -> result (list (string * SymbolTableEntry))).
Context (link_children :
           DataObjectHeader Payload -> result (list (string * DataObjectHeader Payload))).

Local Abbreviation decodeGroups' := (_decodeGroups Payload symbol_table_children link_children).
Local Abbreviation group' := (Group_group Payload symbol_table_children link_children).

(** X15.  Paths are relative to the group: a path that starts with "/"
    has an empty first segment, so unless the group has a child whose name
    is the whole path or the empty string, [group] returns [null] for it,
    whatever follows the slash. *)
Theorem Group_group_absolute_path (g : Group Payload) (rest : string) groups :
  decodeGroups' g = Ok groups ->
  groups !! ""%string = None ->
  groups !! String "/" rest = None ->
  group' g (String "/" rest) = Ok None.
Proof.
  intros Hdecode Hempty Hwhole.
  rewrite Group_group_unfold, Hdecode. cbn [bind]. rewrite Hwhole.
  assert (Hindex : indexOf_slash (String "/" rest) = Some 0%nat).
  { unfold indexOf_slash. cbn. destruct rest; reflexivity. }
  rewrite Hindex.
  assert (Hhead : substring_to 0 (String "/" rest) = ""%string) by reflexivity.
  rewrite Hhead.
  rewrite (Group_group_segment Payload symbol_table_children link_children g "" groups
                               Hdecode eq_refl).
  rewrite Hempty. reflexivity.
Qed.

(** The table that a sequence of [Map.set] calls leaves. *)
Lemma foldl_set_lookup {A} (mk : string -> A -> Group Payload)
      (children : list (string * A)) :
  forall (acc : gmap string (Group Payload)),
    (forall name, name ∉ map fst children ->
                  foldl (fun groups ch => <[fst ch := mk (fst ch) (snd ch)]> groups)
                        acc children !! name = acc !! name) /\
    (forall before name a after,
        children = before ++ (name, a) :: after -> name ∉ map fst after ->
        foldl (fun groups ch => <[fst ch := mk (fst ch) (snd ch)]> groups)
              acc children !! name = Some (mk name a)).
Proof.
  induction children as [ | [n x] children IH]; intros acc.
  - split; [reflexivity | ]. intros [ | ? ?] ? ? ? H; discriminate H.
  - destruct (IH (<[n := mk n x]> acc)) as [IH1 IH2]. cbn [foldl fst snd map]. split.
    + intros name Hnot. rewrite not_elem_of_cons in Hnot. destruct Hnot as [Hne Hnot].
      rewrite (IH1 name Hnot). apply lookup_insert_ne. congruence.
    + intros [ | [n' x'] before] name a after Hsplit Hafter.
      * cbn [app] in Hsplit. injection Hsplit as -> -> ->.
        rewrite (IH1 name Hafter). apply lookup_insert_eq.
      * cbn [app] in Hsplit. injection Hsplit as -> -> ->.
        exact (IH2 before name a after eq_refl Hafter).
Qed.

(** X16.  The child table of a group that has a symbol-table entry with
    a B-tree or a heap address: a name that no entry of the walk carries
    has no child, and when several entries carry the same name the child is
    built from the last of them. *)
Theorem decodeGroups_last_entry_wins (g : Group Payload) (entry : SymbolTableEntry)
        (children : list (string * SymbolTableEntry)) :
  _entry _ g = Some entry ->
  truthy (treeAddress entry) || truthy (heapAddress entry) = true ->
  symbol_table_children entry = Ok children ->
  exists groups,
    decodeGroups' g = Ok groups /\
    (forall name, name ∉ map fst children -> groups !! name = None) /\
    (forall before name child after,
        children = before ++ (name, child) :: after -> name ∉ map fst after ->
        groups !! name
        = Some (Group_new Payload (Some child) None (_path _ g) name)).
Proof.
  intros Hentry Haddr Hwalk. unfold _decodeGroups. rewrite Hentry, Haddr, Hwalk. cbn [bind].
  eexists. split; [reflexivity | ].
  destruct (foldl_set_lookup (fun name child =>
                                Group_new Payload (Some child) None (_path _ g) name)
                             children ∅) as [H1 H2].
  split.
  - intros name Hnot. rewrite (H1 name Hnot). apply lookup_empty.
  - exact H2.
Qed.

End GroupMore.

Lemma Group_group_absolute_path_witness :
  Group_group unit no_symbol_table sample_links sample_root "/g" = Ok None.
Proof.
  assert (Hd : _decodeGroups unit no_symbol_table sample_links sample_root
               = Ok (<["x"%string := Group_new unit None (Some (header_tag 2)) "/" "x"]>
                       {[ "g"%string := sample_g ]}))
    by reflexivity.
  exact (Group_group_absolute_path unit no_symbol_table sample_links sample_root "g" _ Hd
           ltac:(vm_compute; reflexivity) ltac:(vm_compute; reflexivity)).
Defined.

Lemma decodeGroups_last_entry_wins_witness :
  exists groups,
    _decodeGroups unit twin_children sample_links twin_parent = Ok groups /\
    groups !! "d"%string = Some (Group_new unit (Some second_twin) None "/" "d").
Proof.
  destruct (decodeGroups_last_entry_wins unit twin_children sample_links twin_parent
              _ _ eq_refl eq_refl eq_refl) as (groups & Hd & _ & Hlast).
  exists groups. split; [exact Hd | ].
  apply (Hlast [("d"%string, first_twin)] "d"%string second_twin [] eq_refl).
  apply not_elem_of_nil.
Defined.

(** * Datatype and filter messages *)

Lemma byte_at_range (r : Reader) (index : Z) : 0 <= byte_at r index < 256.
Proof.
  unfold byte_at.
  pose proof (le_value_range (firstn 1 (skipn (Z.to_nat index) (_buffer r)))) as H.
  assert (Hl : (length (firstn 1 (skipn (Z.to_nat index) (_buffer r))) <= 1)%nat)
    by (rewrite length_firstn; lia).
  destruct (length (firstn 1 (skipn (Z.to_nat index) (_buffer r)))) as [ | [ | n]];
    [cbn in H; lia | cbn in H; lia | lia].
Qed.

Lemma js_shl_small (b k : Z) : 0 <= b < 256 -> 0 <= k <= 16 -> js_shl b k = b * 2 ^ k.
Proof.
  intros Hb Hk. unfold js_shl, wrap32. rewrite (Z.mod_small k 32) by lia.
  assert (0 < 2 ^ k <= 2 ^ 16) by (split; [apply Z.pow_pos_nonneg; lia
                                          | apply Z.pow_le_mono_r; lia]).
  rewrite Z.mod_small; nia.
Qed.

(** Bytes put side by side with [|] and [<<] add up. *)
Lemma lor_shifted (a b n : Z) :
  0 <= n -> 0 <= a < 2 ^ n -> 0 <= b -> Z.lor a (b * 2 ^ n) = a + b * 2 ^ n.
Proof.
  intros Hn Ha Hb.
  assert (Hdisjoint : Z.land a (b * 2 ^ n) = 0).
  { apply Z.bits_inj'. intros i Hi. rewrite Z.land_spec, Z.bits_0.
    destruct (Z.lt_ge_cases i n) as [Hlt | Hge].
    - rewrite Z.mul_pow2_bits_low by lia. apply andb_false_r.
    - destruct (Z.eq_dec a 0) as [-> | Hne]; [rewrite Z.bits_0; reflexivity | ].
      rewrite (Z.bits_above_log2 a i); [reflexivity | lia | ].
      assert (Z.log2 a < n) by (apply Z.log2_lt_pow2; lia). lia. }
  rewrite <- (Z.lxor_lor _ _ Hdisjoint). symmetry.
  apply Z.add_nocarry_lxor. exact Hdisjoint.
Qed.

Lemma flags_value (b0 b1 b2 : Z) :
  0 <= b0 < 256 -> 0 <= b1 < 256 -> 0 <= b2 < 256 ->
  Z.lor (Z.lor b0 (js_shl b1 8)) (js_shl b2 16) = b0 + 256 * b1 + 65536 * b2.
Proof.
  intros H0 H1 H2. rewrite !js_shl_small by lia.
  rewrite (lor_shifted b0 b1 8) by lia.
  rewrite (lor_shifted (b0 + b1 * 2 ^ 8) b2 16) by lia. lia.
Qed.

Lemma uint32_value (r : Reader) (v : Z) (r' : Reader) (p : Z) :
  uint32 r = Ok (v, r') -> position r = Some p -> 0 <= p ->
  v = le_value (firstn 4 (skipn (Z.to_nat p) (_buffer r))).
Proof. exact (unsigned_value 4 r v r' p). Qed.

Lemma class_switch {A} (c : Z) (fixed enumerated other : A) :
  match c with 0 => fixed | 8 => enumerated | _ => other end
  = if c =? 0 then fixed else if c =? 8 then enumerated else other.
Proof.
  destruct c as [ | p | p]; try reflexivity.
  destruct p as [p | [p | [p | [p | p | ] | ] | ] | ]; reflexivity.
Qed.

Section DatatypeMessage.

Context (decode_text : string -> list u8 -> string).
Context (read_value : Datatype -> R jsval).

(** X17.  The datatype message, at a cursor inside the buffer.  Whenever
    the constructor returns: the high nibble of the first byte (the
    version) is 1 or 2 and the class is its low nibble; the class flags are
    the 24-bit little-endian value of the next three bytes; the size is the
    32-bit value that follows; a fixed-point type (class 0) has a bit offset
    and a precision and its message takes 12 bytes; a type that is neither
    fixed-point nor an enumeration takes 8 bytes. *)
Theorem Datatype_new_fields (fuel : nat) (r : Reader) (p : Z) (d : Datatype) (r' : Reader) :
  position r = Some p -> 0 <= p ->
  Datatype_new decode_text read_value fuel r = Ok (d, r') ->
  (Z.shiftr (byte_at r p) 4 = 1 \/ Z.shiftr (byte_at r p) 4 = 2) /\
  _class d = byte_at r p mod 16 /\
  _flags d = byte_at r (p + 1) + 256 * byte_at r (p + 2) + 65536 * byte_at r (p + 3) /\
  0 <= _flags d < 2 ^ 24 /\
  _size d = le_value (firstn 4 (skipn (Z.to_nat (p + 4)) (_buffer r))) /\
  (_class d = 0 ->
   cursor_after 12 r r' /\
   exists bitOffset bitPrecision,
     _bitOffset d = Some bitOffset /\ _bitPrecision d = Some bitPrecision /\
     0 <= bitOffset < 65536 /\ 0 <= bitPrecision < 65536) /\
  (_class d <> 0 -> _class d <> 8 -> cursor_after 8 r r').
Proof.
  intros Hp Hp0 H. destruct fuel as [ | fuel]; [discriminate H | ].
  cbn [Datatype_new] in H.
  step H vformat r1 H1. pose proof (byte_value _ _ _ _ H1 Hp Hp0) as Hformat.
  apply byte_ok in H1. destruct H1 as [C1 _].
  assert (Hbody : (Z.shiftr vformat 4 = 1 \/ Z.shiftr vformat 4 = 2) /\
                  (b0 <- byte ;;
                   b1 <- byte ;;
                   b2 <- byte ;;
                   let flags := Z.lor (Z.lor b0 (js_shl b1 8)) (js_shl b2 16) in
                   size <- uint32 ;;
                   match js_land vformat 0xf with
                   | 0 =>
                       bitOffset <- uint16 ;;
                       bitPrecision <- uint16 ;;
                       ret (mkDatatype (js_land vformat 0xf) flags size (Some bitOffset)
                                       (Some bitPrecision) None [] [])
                   | 8 =>
                       base <- Datatype_new decode_text read_value fuel ;;
                       pos <- get_position ;;
                       seek pos ;;;
                       names <- names_loop decode_text (Z.to_nat (js_land flags 0xffff)) ;;
                       values <- values_loop read_value (Z.to_nat (js_land flags 0xffff)) base ;;
                       ret (mkDatatype (js_land vformat 0xf) flags size None None (Some base)
                                       names values)
                   | _ => ret (mkDatatype (js_land vformat 0xf) flags size None None None [] [])
                   end) r1 = Ok (d, r')).
  { destruct (Z.shiftr vformat 4) as [ | [q | [q | | ] | ] | ]; try discriminate H;
      (split; [auto | exact H]). }
  clear H. destruct Hbody as [Hversion H]. rewrite Hformat in Hversion.
  assert (Hclass : js_land vformat 0xf = byte_at r p mod 16).
  { rewrite Hformat. unfold js_land. change 0xf with (Z.ones 4). apply Z.land_ones. lia. }
  pose proof (cursor_after_position _ _ _ _ C1 Hp) as P1.
  pose proof (cursor_after_buffer _ _ _ C1) as B1.
  step H vb0 r2 H2. pose proof (byte_value _ _ _ _ H2 P1 ltac:(lia)) as Hb0.
  apply byte_ok in H2. destruct H2 as [C2 _].
  pose proof (cursor_after_position _ _ _ _ C2 P1) as P2.
  pose proof (cursor_after_buffer _ _ _ C2) as B2.
  step H vb1 r3 H3. pose proof (byte_value _ _ _ _ H3 P2 ltac:(lia)) as Hb1.
  apply byte_ok in H3. destruct H3 as [C3 _].
  pose proof (cursor_after_position _ _ _ _ C3 P2) as P3.
  pose proof (cursor_after_buffer _ _ _ C3) as B3.
  step H vb2 r4 H4. pose proof (byte_value _ _ _ _ H4 P3 ltac:(lia)) as Hb2.
  apply byte_ok in H4. destruct H4 as [C4 _].
  pose proof (cursor_after_position _ _ _ _ C4 P3) as P4.
  pose proof (cursor_after_buffer _ _ _ C4) as B4.
  cbv zeta in H.
  step H vsize r5 H5. pose proof (uint32_value _ _ _ _ H5 P4 ltac:(lia)) as Hsize.
  apply uint32_ok in H5. destruct H5 as [C5 _].
  assert (C15 : cursor_after 8 r r5).
  { pose proof (cursor_after_trans _ _ _ _ _ (cursor_after_trans _ _ _ _ _
                  (cursor_after_trans _ _ _ _ _ (cursor_after_trans _ _ _ _ _ C1 C2) C3) C4) C5)
      as C. exact C. }
  rewrite (byte_at_same _ _ _ B1) in Hb0.
  rewrite (byte_at_same _ _ _ B2), (byte_at_same _ _ _ B1) in Hb1.
  rewrite (byte_at_same _ _ _ B3), (byte_at_same _ _ _ B2), (byte_at_same _ _ _ B1) in Hb2.
  rewrite B4, B3, B2, B1 in Hsize.
  replace (p + 1 + 1) with (p + 2) in Hb1 by lia.
  replace (p + 1 + 1 + 1) with (p + 3) in Hb2 by lia.
  replace (p + 1 + 1 + 1 + 1) with (p + 4) in Hsize by lia.
  pose proof (byte_at_range r (p + 1)) as R0. pose proof (byte_at_range r (p + 2)) as R1.
  pose proof (byte_at_range r (p + 3)) as R2.
  assert (Hflags : Z.lor (Z.lor vb0 (js_shl vb1 8)) (js_shl vb2 16)
                   = byte_at r (p + 1) + 256 * byte_at r (p + 2) + 65536 * byte_at r (p + 3)).
  { rewrite Hb0, Hb1, Hb2. apply flags_value; assumption. }
  rewrite Hflags in H.
  set (flags := byte_at r (p + 1) + 256 * byte_at r (p + 2) + 65536 * byte_at r (p + 3)) in *.
  assert (Hrange : 0 <= flags < 2 ^ 24) by (unfold flags; lia).
  rewrite class_switch in H.
  assert (Hfields : _class d = js_land vformat 0xf /\ _flags d = flags /\ _size d = vsize /\
                    (_class d = 0 ->
                     cursor_after 12 r r' /\
                     exists bitOffset bitPrecision,
                       _bitOffset d = Some bitOffset /\ _bitPrecision d = Some bitPrecision /\
                       0 <= bitOffset < 65536 /\ 0 <= bitPrecision < 65536) /\
                    (_class d <> 0 -> _class d <> 8 -> cursor_after 8 r r')).
  { destruct (Z.eqb_spec (js_land vformat 0xf) 0) as [E0 | E0].
    - step H vo r6 H6. apply uint16_ok in H6. destruct H6 as [C6 Ro].
      step H vp r7 H7. apply uint16_ok in H7. destruct H7 as [C7 Rp].
      apply ret_ok in H. destruct H as [-> ->]. cbn.
      split; [reflexivity | split; [reflexivity | split; [reflexivity | ]]].
      split; [ | intros Hne; congruence].
      intros _. split.
      + exact (cursor_after_trans _ _ _ _ _ (cursor_after_trans _ _ _ _ _ C15 C6) C7).
      + exists vo, vp. tauto.
    - destruct (Z.eqb_spec (js_land vformat 0xf) 8) as [E8 | E8].
      + step H vbase r6 H6. step H vpos r7 H7. step H u8' r8 H8.
        step H vnames r9 H9. step H vvalues r10 H10.
        apply ret_ok in H. destruct H as [-> ->]. cbn.
        split; [reflexivity | split; [reflexivity | split; [reflexivity | ]]].
        split; [intros Hc; congruence | intros _ Hne; congruence].
      + apply ret_ok in H. destruct H as [-> ->]. cbn.
        split; [reflexivity | split; [reflexivity | split; [reflexivity | ]]].
        split; [intros Hc; congruence | intros _ _; exact C15]. }
  destruct Hfields as (Fc & Ff & Fs & F0 & Fother).
  split; [exact Hversion | ]. split; [rewrite Fc; exact Hclass | ].
  split; [exact Ff | ]. split; [rewrite Ff; exact Hrange | ].
  split; [rewrite Fs; exact Hsize | ]. split; assumption.
Qed.

End DatatypeMessage.

Lemma Datatype_new_fields_witness :
  Datatype_new latin1 no_values 1 datatype_message
  = Ok (mkDatatype 0 8 4 (Some 0) (Some 32) None [] [], advance 12 datatype_message) /\
  cursor_after 12 datatype_message (advance 12 datatype_message).
Proof.
  assert (H : Datatype_new latin1 no_values 1 datatype_message
              = Ok (mkDatatype 0 8 4 (Some 0) (Some 32) None [] [], advance 12 datatype_message))
    by (vm_compute; reflexivity).
  split; [exact H | ].
  destruct (Datatype_new_fields latin1 no_values 1 datatype_message 0 _ _
                                eq_refl ltac:(lia) H) as (_ & _ & _ & _ & _ & Hfixed & _).
  exact (proj1 (Hfixed eq_refl)).
Defined.

(** ** The description of a filter *)

Lemma ahead_inv (r : Reader) (b : u8) (rest : list u8) :
  ahead r = b :: rest ->
  exists o, _offset r = Some o /\ 0 <= o + _position r /\
            skipn (Z.to_nat (o + _position r)) (_buffer r) = b :: rest.
Proof.
  unfold ahead, position. destruct (_offset r) as [o | ]; [ | discriminate]. cbn [jadd].
  destruct (Z.ltb_spec (_position r + o) 0) as [ | Hge]; [discriminate | ].
  intros H. exists o. split; [reflexivity | split; [lia | ]].
  rewrite Z.add_comm. exact H.
Qed.

Lemma signed_spec (bits : Z) (n : nat) (r : Reader) (o : Z) :
  _offset r = Some o -> 0 <= o + _position r ->
  (pos <- take (Z.of_nat n) ;; v <- view_get n pos ;; ret (to_signed bits v)) r =
  if _length r <? o + _position r + Z.of_nat n
  then Throw (Hdf5Error eof_message)
  else Ok (to_signed bits (le_value (firstn n (skipn (Z.to_nat (o + _position r)) (_buffer r)))),
           advance (Z.of_nat n) r).
Proof.
  intros Ho Hp. pose proof (uintN_spec n r o Ho Hp) as H.
  unfold bindR in *. destruct (take (Z.of_nat n) r) as [[pos r1] | e | ]; [ | | ].
  - destruct (view_get n pos r1) as [[v r2] | e | ].
    + destruct (_ <? _); [discriminate H | ]. injection H as -> ->. reflexivity.
    + destruct (_ <? _); [ | discriminate H]. exact H.
    + destruct (_ <? _); discriminate H.
  - destruct (_ <? _); [ | discriminate H]. exact H.
  - destruct (_ <? _); discriminate H.
Qed.

Lemma int16_ahead (r : Reader) (b0 b1 : u8) (rest : list u8) :
  ahead r = b0 :: b1 :: rest ->
  int16 r = Ok (to_signed 16 (u8_val b0 + 256 * u8_val b1), advance 2 r) /\
  ahead (advance 2 r) = rest.
Proof.
  intros H. destruct (ahead_inv _ _ _ H) as (o & Ho & Hp & Hskip).
  pose proof (length_skipn (Z.to_nat (o + _position r)) (_buffer r)) as Hl.
  rewrite Hskip in Hl. cbn [length] in Hl. split.
  - unfold int16. change (take 2) with (take (Z.of_nat 2)).
    rewrite (signed_spec 16 2 r o Ho Hp). unfold _length.
    destruct (Z.ltb_spec (Z.of_nat (length (_buffer r))) (o + _position r + Z.of_nat 2)); [lia | ].
    rewrite Hskip. change (firstn 2 (b0 :: b1 :: rest)) with [b0; b1]. cbn [le_value].
    replace (u8_val b0 + 256 * (u8_val b1 + 256 * 0)) with (u8_val b0 + 256 * u8_val b1) by lia.
    reflexivity.
  - unfold ahead. rewrite position_advance. unfold position. rewrite Ho. cbn [jadd].
    destruct (Z.ltb_spec (_position r + o + 2) 0); [lia | ].
    cbn [advance _buffer].
    replace (Z.to_nat (_position r + o + 2)) with (2 + Z.to_nat (o + _position r))%nat by lia.
    rewrite <- skipn_skipn, Hskip. reflexivity.
Qed.

Lemma advance_advance (a b : Z) (r : Reader) : advance a (advance b r) = advance (b + a) r.
Proof. unfold advance. cbn. f_equal. lia. Qed.

Section FilterMessage.

Context (decode_text : string -> list u8 -> string).


End FilterMessage.


(** * Signed accessors, the local heap block and the filter pipeline *)

(** X19.  [int8()], [int16()], [int32()] and [int64()] at a cursor inside
    the buffer: when the value's bytes lie inside the buffer the accessor
    returns the two's complement reading of their little-endian value, a
    number from [-2^(N-1)] up to [2^(N-1) - 1] that agrees with the unsigned
    value modulo [2^N], and moves the cursor by [N / 8] bytes; otherwise it
    raises the end-of-file hdf5.Error. *)
Theorem int_accessors_bounds (n : nat) (f : R Z) (r : Reader) (o : Z) :
  In (n, f) [(1%nat, int8); (2%nat, int16); (4%nat, int32); (8%nat, int64)] ->
  _offset r = Some o -> 0 <= o + _position r ->
  let unsigned := le_value (firstn n (skipn (Z.to_nat (o + _position r)) (_buffer r))) in
  let bits := 8 * Z.of_nat n in
  (o + _position r + Z.of_nat n <= _length r ->
   exists v, f r = Ok (v, advance (Z.of_nat n) r) /\
             - 2 ^ (bits - 1) <= v < 2 ^ (bits - 1) /\
             v mod 2 ^ bits = unsigned) /\
  (_length r < o + _position r + Z.of_nat n -> f r = Throw (Hdf5Error eof_message)).
Proof.
  intros Hin Ho Hp unsigned bits.
  assert (Hf : f = (pos <- take (Z.of_nat n) ;; v <- view_get n pos ;; ret (to_signed bits v))
               /\ (n = 1 \/ n = 2 \/ n = 4 \/ n = 8)%nat).
  { simpl in Hin. destruct Hin as [H | [H | [H | [H | []]]]]; injection H as <- <-;
      (split; [reflexivity | lia]). }
  destruct Hf as [-> Hn]. rewrite (signed_spec bits n r o Ho Hp). fold unsigned. split; intros H.
  - destruct (Z.ltb_spec (_length r) (o + _position r + Z.of_nat n)); [lia | ].
    eexists. split; [reflexivity | ].
    assert (Hu : 0 <= unsigned < 2 ^ bits).
    { pose proof (le_value_range (firstn n (skipn (Z.to_nat (o + _position r)) (_buffer r))))
        as Hr.
      rewrite window_length in Hr by (exact Hp || exact H).
      unfold bits. replace (2 ^ (8 * Z.of_nat n)) with (256 ^ Z.of_nat n); [exact Hr | ].
      change 256 with (2 ^ 8). rewrite <- Z.pow_mul_r by lia. reflexivity. }
    assert (Hhalf : 2 ^ bits = 2 * 2 ^ (bits - 1)).
    { rewrite <- Z.pow_succ_r by (unfold bits; lia). f_equal. lia. }
    assert (Hpos : 0 < 2 ^ (bits - 1)) by (apply Z.pow_pos_nonneg; unfold bits; lia).
    unfold to_signed. destruct (Z.ltb_spec unsigned (2 ^ (bits - 1))).
    + split; [lia | apply Z.mod_small; lia].
    + split; [lia | ].
      replace (unsigned - 2 ^ bits) with (unsigned + (-1) * 2 ^ bits) by lia.
      rewrite Z.mod_add by lia. apply Z.mod_small. lia.
  - destruct (Z.ltb_spec (_length r) (o + _position r + Z.of_nat n)); [reflexivity | lia].
Qed.

Lemma int_accessors_bounds_witness :
  exists v, int16 (advance 2 four_bytes) = Ok (v, advance 2 (advance 2 four_bytes)) /\
            v mod 2 ^ 16 = 0x00ff.
Proof.
  destruct (int_accessors_bounds 2 int16 (advance 2 four_bytes) 0
              ltac:(right; left; reflexivity) eq_refl ltac:(vm_compute; discriminate))
    as [H _].
  destruct (H ltac:(vm_compute; discriminate)) as (v & Hv & _ & Hmod).
  exists v. split; [exact Hv | exact Hmod].
Defined.

(** ** Blocks with a signature *)

Lemma window_cases (codes window : list Z) :
  firstn (length codes) window = codes \/
  (exists i c b, codes !! i = Some c /\ window !! i = Some b /\ c <> b /\
                 firstn i window = firstn i codes) \/
  ((length window < length codes)%nat /\ window = firstn (length window) codes).
Proof.
  revert window. induction codes as [ | c codes IH]; intros window; [left; reflexivity | ].
  destruct window as [ | b window]; [right; right; split; [simpl; lia | reflexivity] | ].
  destruct (Z.eq_dec c b) as [-> | Hne].
  - destruct (IH window) as [H | [(i & c' & b' & Hc & Hb & Hne & Hpre) | [Hl Hw]]].
    + left. cbn. f_equal. exact H.
    + right; left. exists (S i), c', b'. cbn. repeat split; try assumption. f_equal. exact Hpre.
    + right; right. split; [simpl; lia | cbn; f_equal; exact Hw].
  - right; left. exists 0%nat, c, b. repeat split; assumption.
Qed.

(** When [expect] returns, the signature is in the buffer at the cursor. *)
Lemma expect_window (signature : string) (r : Reader) (o : Z) (u : unit) (r' : Reader) :
  _offset r = Some o -> 0 <= o + _position r <= _length r ->
  expect signature r = Ok (u, r') ->
  firstn (length (char_codes signature))
         (map u8_val (skipn (Z.to_nat (o + _position r)) (_buffer r)))
  = char_codes signature.
Proof.
  intros Ho Hp H.
  assert (Hs : jgt (position r) (Some (_length r)) = false).
  { unfold position. rewrite Ho. cbn. apply Z.ltb_ge. lia. }
  destruct (match_loop_spec (position r) (char_codes signature) r o Ho (proj1 Hp) Hs)
    as (_ & H2 & H3).
  unfold expect, match_, bindR, get_position in H.
  destruct (window_cases (char_codes signature)
                         (map u8_val (skipn (Z.to_nat (o + _position r)) (_buffer r))))
    as [Hw | [(i & c & b & Hc & Hb & Hne & Hpre) | [Hl Hw]]].
  - exact Hw.
  - rewrite (H2 i c b Hc Hb Hne Hpre) in H. discriminate H.
  - rewrite (H3 Hl Hw) in H. discriminate H.
Qed.

Lemma sized_safe (w : option Z) (message : string) (r : Reader) (v : jsn) (r' : Reader) :
  sized w message r = Ok (v, r') -> safe_address v.
Proof.
  intros H. apply sized_ok in H. destruct H as (n & _ & Hn & _ & Hv).
  destruct v as [x | ]; [ | exact I]. cbn.
  destruct Hn as [-> | ->]; cbn in Hv; unfold MAX_SAFE_INTEGER in *; lia.
Qed.

(** X20.  The local heap at a non-negative address.  Whenever the
    constructor returns: the four bytes at the address are "HEAP" and the
    version byte after them is 0; the data size, the free-list offset and
    the data address are each [undefined], -1 or a number below
    [Number.MAX_SAFE_INTEGER]; and the reader is back at the position it
    had before the call. *)
Theorem Heap_new_block (x : Z) (r : Reader) (heap : Heap) (r' : Reader) :
  0 <= x ->
  Heap_new (Some x) r = Ok (heap, r') ->
  map u8_val (firstn 4 (skipn (Z.to_nat x) (_buffer r))) = char_codes "HEAP" /\
  byte_at r (x + 4) = 0 /\
  safe_address (_dataSize heap) /\ safe_address (_offsetToHeadOfFreeList heap) /\
  safe_address (_dataAddress heap) /\
  cursor_after 0 r r'.
Proof.
  intros Hx H. unfold Heap_new in H.
  step H saved r0 H0. apply get_position_ok in H0. destruct H0 as [-> ->].
  step H u1 r1 H1.
  assert (Hr1 : r1 = moved_to (Some x) r /\ x <= _length r).
  { unfold seek in H1. cbn [jgt _offset] in H1.
    destruct (Z.ltb_spec (_length (mkReader (_buffer r) (Some x) 0 (_offsetSize r)
                                            (_lengthSize r))) x) as [ | Hle];
      [discriminate H1 | ].
    injection H1 as _ <-. split; [reflexivity | exact Hle]. }
  destruct Hr1 as [-> Hlen].
  step H u2 r2 H2.
  pose proof (expect_window "HEAP" (moved_to (Some x) r) x u2 r2 eq_refl
                            ltac:(cbn; unfold _length in *; cbn; lia) H2) as Hsig.
  cbn [moved_to _position _buffer] in Hsig. rewrite Z.add_0_r in Hsig.
  change (length (char_codes "HEAP")) with 4%nat in Hsig.
  apply expect_ok in H2. change (Z.of_nat _) with 4 in H2.
  pose proof (cursor_after_position _ _ _ x H2 (position_moved_to _ _)) as P2.
  pose proof (cursor_after_buffer _ _ _ H2) as B2. cbn [moved_to _buffer] in B2.
  step H version r3 H3. pose proof (byte_value _ _ _ _ H3 P2 ltac:(lia)) as Hversion.
  rewrite (byte_at_same r r2 _ B2) in Hversion.
  apply byte_ok in H3. destruct H3 as [[S3 _] _].
  step H vheap r4 H4. step H u5 r5 H5. apply ret_ok in H. destruct H as [-> ->].
  destruct version as [ | q | q]; try discriminate H4.
  step H4 u6 r6 H6. apply skip_ok in H6. apply cursor_after_same_file in H6.
  step H4 vsize r7 H7. pose proof (sized_safe _ _ _ _ _ H7) as Hsize.
  apply length_same_file in H7.
  step H4 vfree r8 H8. pose proof (sized_safe _ _ _ _ _ H8) as Hfree.
  apply length_same_file in H8.
  step H4 vdata r9 H9. pose proof (sized_safe _ _ _ _ _ H9) as Hdata.
  apply offset_same_file in H9.
  apply ret_ok in H4. destruct H4 as [-> ->]. cbn [_dataSize _offsetToHeadOfFreeList _dataAddress].
  split; [rewrite <- firstn_map; exact Hsig | ].
  split; [symmetry; exact Hversion | ].
  split; [exact Hsize | split; [exact Hfree | split; [exact Hdata | ]]].
  apply (cursor_restored r r9 r5 u5); [ | exact H5].
  assert (S1 : same_file r (moved_to (Some x) r)) by (repeat split).
  exact (same_file_trans _ _ _ S1 (same_file_trans _ _ _ (cursor_after_same_file _ _ _ H2)
           (same_file_trans _ _ _ S3 (same_file_trans _ _ _ H6 (same_file_trans _ _ _ H7
              (same_file_trans _ _ _ H8 H9)))))).
Qed.

Lemma Heap_new_block_witness :
  Heap_new (Some 48) sample_reader
  = Ok (mkHeap (Some 8) (Some (-1)) (Some 80), moved_to (Some 0) sample_reader) /\
  byte_at sample_reader (48 + 4) = 0.
Proof.
  assert (H : Heap_new (Some 48) sample_reader
              = Ok (mkHeap (Some 8) (Some (-1)) (Some 80), moved_to (Some 0) sample_reader))
    by (vm_compute; reflexivity).
  split; [exact H | ].
  exact (proj1 (proj2 (Heap_new_block 48 _ _ _ ltac:(lia) H))).
Defined.

(** ** The filter pipeline message *)

Section PipelineMessage.

Context (decode_text : string -> list u8 -> string).

Lemma filters_loop_length (count : nat) :
  forall (r : Reader) (filters : list Filter) (r' : Reader),
    filters_loop decode_text count r = Ok (filters, r') -> length filters = count.
Proof.
  induction count as [ | count IH]; intros r filters r' H.
  - apply ret_ok in H. destruct H as [-> _]. reflexivity.
  - cbn [filters_loop] in H. step H vfilter r1 H1. step H u2 r2 H2. step H vmore r3 H3.
    apply ret_ok in H. destruct H as [-> _]. cbn [length]. f_equal. exact (IH _ _ _ H3).
Qed.

(** X21.  The filter pipeline message, at a cursor inside the buffer:
    whenever the constructor returns, the version byte is 1 and the
    pipeline has as many filters as the byte after it says. *)
Theorem FilterPipeline_new_count (r : Reader) (p : Z) (filters : list Filter) (r' : Reader) :
  position r = Some p -> 0 <= p ->
  FilterPipeline_new decode_text r = Ok (filters, r') ->
  byte_at r p = 1 /\ Z.of_nat (length filters) = byte_at r (p + 1).
Proof.
  intros Hp Hp0 H. unfold FilterPipeline_new in H.
  step H version r1 H1. pose proof (byte_value _ _ _ _ H1 Hp Hp0) as Hversion.
  apply byte_ok in H1. destruct H1 as [C1 _].
  destruct version as [ | [q | q | ] | q]; try discriminate H.
  step H count r2 H2.
  pose proof (byte_value _ _ _ _ H2 (cursor_after_position _ _ _ _ C1 Hp) ltac:(lia)) as Hcount.
  rewrite (byte_at_same _ _ _ (cursor_after_buffer _ _ _ C1)) in Hcount.
  apply byte_ok in H2. destruct H2 as [_ Hrange].
  step H u3 r3 H3. step H u4 r4 H4.
  apply filters_loop_length in H. split; [symmetry; exact Hversion | ].
  rewrite H, Z2Nat.id by lia. exact Hcount.
Qed.

End PipelineMessage.

Lemma FilterPipeline_new_count_witness :
  exists filters r',
    FilterPipeline_new latin1 pipeline_message = Ok (filters, r') /\ length filters = 1%nat.
Proof.
  assert (H : {res | FilterPipeline_new latin1 pipeline_message = Ok res})
    by (eexists; vm_compute; reflexivity).
  destruct H as [[filters r'] H]. exists filters, r'. split; [exact H | ].
  destruct (FilterPipeline_new_count latin1 pipeline_message 0 _ _ eq_refl ltac:(lia) H)
    as [_ Hcount].
  apply Nat2Z.inj. exact Hcount.
Defined.
